(** * Ocean-Scraper: crawl orchestration engine

    A shallow embedding of the crawl engine of Ocean-Scraper and the
    properties its specification states about it.  The embedded code is

    - [src/core/progress/progress-tracker.ts]   (module [ProgressTracker]),
    - [src/core/scraper/link-extractor.ts]      (module [LinkExtractor]),
    - [src/core/scraper/scraping-service.ts]    (module [BrowserManager]),
    - [src/core/queue/job-manager.ts]           (module [JobManager]),
    - [src/core/scraper/crawling-service.ts]    (module [CrawlingService]),

    and, around these, the pool side of [ScrapingService.scrapePage]
    (module [BrowserPool]), [JobManager.addJob] (module [JobQueue]), the
    routes of [src/api/routes/crawl.ts] (module [CrawlRoutes]) and the
    link pipeline of [extractAndFilterLinks] (module [LinkPipeline]).

    Conventions.  A JavaScript [number] that the code itself produces as a
    counter, a depth, a length or a millisecond time stamp is a [Z]: these
    stay far below 2^53, where IEEE doubles are exact.  The limits
    [maxPages] and [maxDepth] come from the caller, and neither the type
    [number] nor the request schemas make them whole: they are rationals
    [Q], compared exactly with the counters, as doubles are.  A number that
    comes out of a division ([progressPercentage], [pagesPerMinute],
    [estimatedTimeRemaining]) is a binary64 [float], computed with the same
    operations as the source.  [Date.now()] is an explicit argument.  A
    [Map] is an association list when its iteration order is observed and a
    [gmap] otherwise; a [Set<string>] is a [gset string]. *)

From Stdlib Require Import ZArith Lia Bool List Ascii String Floats QArith Qround.
From stdpp Require Import base option list gmap sets strings.
From Stdlib Require Import Sorted.

Local Open Scope string_scope.
Local Open Scope Z_scope.

(* ===================================================================== *)
(** * Definitions                                                         *)
(* ===================================================================== *)

(** ** JavaScript numbers *)

Module JS.

(** The double nearest to an integer (exact for |z| < 2^53). *)
Definition of_Z (z : Z) : float :=
  if z <? 0 then PrimFloat.opp (PrimFloat.of_uint63 (Uint63.of_Z (- z)))
  else PrimFloat.of_uint63 (Uint63.of_Z z).

Definition is_nan (x : float) : bool := negb (PrimFloat.eqb x x).

(** [Math.round]: the nearest integer, ties towards +infinity; NaN, the
    infinities, the zeros and integral values are returned as they are, and
    a result that is zero keeps the sign of the argument. *)
Definition round (x : float) : float :=
  match Prim2SF x with
  | S754_finite s m e =>
      if 0 <=? e then x
      else
        let k := - e in
        let n := ((if s then Z.neg m else Z.pos m) * 2 + 2 ^ k) / 2 ^ (k + 1) in
        if (n =? 0) && s then PrimFloat.opp PrimFloat.zero else of_Z n
  | _ => x
  end.

(** [Math.min] of two numbers: NaN if either is NaN.  (The tie between +0
    and -0 is not modelled; the code's second argument is always 100.) *)
Definition min (a b : float) : float :=
  if is_nan a || is_nan b then PrimFloat.nan
  else if PrimFloat.ltb b a then b else a.

(** [a / b], [a * b], [a - b], [a > b], [a >= b] on doubles. *)
Definition div (a b : float) : float := PrimFloat.div a b.
Definition mul (a b : float) : float := PrimFloat.mul a b.
Definition sub (a b : float) : float := PrimFloat.sub a b.
Definition gt (a b : float) : bool := PrimFloat.ltb b a.
Definition ge (a b : float) : bool := PrimFloat.leb b a.

(** [a || b] on numbers that are integers: 0 (and [undefined]) is falsy. *)
Definition or_default (a : option Z) (d : Z) : Z :=
  match a with
  | Some v => if v =? 0 then d else v
  | None => d
  end.

(** A limit is a finite number with or without a fractional part: a
    rational.  (A limit that is NaN is falsy and behaves as an absent one;
    the schemas of the crawl route and of the crawl tool bound the limit
    from above, so an infinite one is not covered here.)  [a < b] on two
    such numbers is the exact comparison, which is what [<] on doubles
    computes. *)
Definition lt_Q (a b : Q) : bool :=
  match (a ?= b)%Q with
  | Lt => true
  | _ => false
  end.

(** [a || b] on limits: 0 (and [undefined]) is falsy. *)
Definition or_default_Q (a : option Q) (d : Q) : Q :=
  match a with
  | Some v => if Qeq_bool v 0 then d else v
  | None => d
  end.

(** The double of a limit, where it enters float arithmetic: the quotient
    of two integers below 2^53 is rounded once, to the nearest double, and
    a limit that is a double of such a form is that double. *)
Definition of_Q (q : Q) : float := div (of_Z (Qnum q)) (of_Z (Zpos (Qden q))).

End JS.

(** ** progress-tracker.ts *)

Module ProgressError.
Record t := mk { url : string; error : string; timestamp : Z; depth : Z }.
End ProgressError.

Inductive Verbosity := minimal | normal | verbose.

Module ProgressTrackerOptions.
Record t := mk {
  jobId : string;
  startUrl : string;
  maxPages : float;
  maxDepth : float;
  enableStdoutUpdates : bool;
  stdoutUpdateInterval : Z;
  stdoutVerbosity : Verbosity;
  useSmartEstimation : bool;
  minPagesForEstimation : Z
}.
End ProgressTrackerOptions.

Module CrawlProgress.

Inductive Status := starting | crawling | paused | completed | failed | cancelled.
Inductive Phase := discovering | processing | finishing.

Record t := {
  jobId : string;
  startUrl : string;
  startTime : Z;
  currentTime : Z;
  totalPagesDiscovered : Z;
  pagesProcessed : Z;
  pagesSuccessful : Z;
  pagesFailed : Z;
  currentUrl : option string;
  currentDepth : Z;
  currentPageNumber : Z;
  progressPercentage : float;
  estimatedTimeRemaining : option float;
  pagesPerMinute : float;
  urlsInQueue : Z;
  maxDepth : float;
  maxPages : float;
  status : Status;
  phase : Phase;
  errors : list ProgressError.t;
  warnings : list string;
  lastStdoutUpdate : Z;
  stdoutMessageCount : Z
}.

(** Assignments to one property of the snapshot. *)
Definition set_currentTime (v : Z) (p : t) : t :=
Build_t (jobId p) (startUrl p) (startTime p) v (totalPagesDiscovered p)
  (pagesProcessed p) (pagesSuccessful p) (pagesFailed p) (currentUrl p)
  (currentDepth p) (currentPageNumber p) (progressPercentage p)
  (estimatedTimeRemaining p) (pagesPerMinute p) (urlsInQueue p) (maxDepth p)
  (maxPages p) (status p) (phase p) (errors p) (warnings p) (lastStdoutUpdate p)
  (stdoutMessageCount p).
Definition set_totalPagesDiscovered (v : Z) (p : t) : t :=
Build_t (jobId p) (startUrl p) (startTime p) (currentTime p) v (pagesProcessed p)
  (pagesSuccessful p) (pagesFailed p) (currentUrl p) (currentDepth p)
  (currentPageNumber p) (progressPercentage p) (estimatedTimeRemaining p)
  (pagesPerMinute p) (urlsInQueue p) (maxDepth p) (maxPages p) (status p) (phase p)
  (errors p) (warnings p) (lastStdoutUpdate p) (stdoutMessageCount p).
Definition set_pagesProcessed (v : Z) (p : t) : t :=
Build_t (jobId p) (startUrl p) (startTime p) (currentTime p)
  (totalPagesDiscovered p) v (pagesSuccessful p) (pagesFailed p) (currentUrl p)
  (currentDepth p) (currentPageNumber p) (progressPercentage p)
  (estimatedTimeRemaining p) (pagesPerMinute p) (urlsInQueue p) (maxDepth p)
  (maxPages p) (status p) (phase p) (errors p) (warnings p) (lastStdoutUpdate p)
  (stdoutMessageCount p).
Definition set_pagesSuccessful (v : Z) (p : t) : t :=
Build_t (jobId p) (startUrl p) (startTime p) (currentTime p)
  (totalPagesDiscovered p) (pagesProcessed p) v (pagesFailed p) (currentUrl p)
  (currentDepth p) (currentPageNumber p) (progressPercentage p)
  (estimatedTimeRemaining p) (pagesPerMinute p) (urlsInQueue p) (maxDepth p)
  (maxPages p) (status p) (phase p) (errors p) (warnings p) (lastStdoutUpdate p)
  (stdoutMessageCount p).
Definition set_pagesFailed (v : Z) (p : t) : t :=
Build_t (jobId p) (startUrl p) (startTime p) (currentTime p)
  (totalPagesDiscovered p) (pagesProcessed p) (pagesSuccessful p) v (currentUrl p)
  (currentDepth p) (currentPageNumber p) (progressPercentage p)
  (estimatedTimeRemaining p) (pagesPerMinute p) (urlsInQueue p) (maxDepth p)
  (maxPages p) (status p) (phase p) (errors p) (warnings p) (lastStdoutUpdate p)
  (stdoutMessageCount p).
Definition set_currentUrl (v : option string) (p : t) : t :=
Build_t (jobId p) (startUrl p) (startTime p) (currentTime p)
  (totalPagesDiscovered p) (pagesProcessed p) (pagesSuccessful p) (pagesFailed p) v
  (currentDepth p) (currentPageNumber p) (progressPercentage p)
  (estimatedTimeRemaining p) (pagesPerMinute p) (urlsInQueue p) (maxDepth p)
  (maxPages p) (status p) (phase p) (errors p) (warnings p) (lastStdoutUpdate p)
  (stdoutMessageCount p).
Definition set_currentDepth (v : Z) (p : t) : t :=
Build_t (jobId p) (startUrl p) (startTime p) (currentTime p)
  (totalPagesDiscovered p) (pagesProcessed p) (pagesSuccessful p) (pagesFailed p)
  (currentUrl p) v (currentPageNumber p) (progressPercentage p)
  (estimatedTimeRemaining p) (pagesPerMinute p) (urlsInQueue p) (maxDepth p)
  (maxPages p) (status p) (phase p) (errors p) (warnings p) (lastStdoutUpdate p)
  (stdoutMessageCount p).
Definition set_currentPageNumber (v : Z) (p : t) : t :=
Build_t (jobId p) (startUrl p) (startTime p) (currentTime p)
  (totalPagesDiscovered p) (pagesProcessed p) (pagesSuccessful p) (pagesFailed p)
  (currentUrl p) (currentDepth p) v (progressPercentage p)
  (estimatedTimeRemaining p) (pagesPerMinute p) (urlsInQueue p) (maxDepth p)
  (maxPages p) (status p) (phase p) (errors p) (warnings p) (lastStdoutUpdate p)
  (stdoutMessageCount p).
Definition set_progressPercentage (v : float) (p : t) : t :=
Build_t (jobId p) (startUrl p) (startTime p) (currentTime p)
  (totalPagesDiscovered p) (pagesProcessed p) (pagesSuccessful p) (pagesFailed p)
  (currentUrl p) (currentDepth p) (currentPageNumber p) v (estimatedTimeRemaining p)
  (pagesPerMinute p) (urlsInQueue p) (maxDepth p) (maxPages p) (status p) (phase p)
  (errors p) (warnings p) (lastStdoutUpdate p) (stdoutMessageCount p).
Definition set_estimatedTimeRemaining (v : option float) (p : t) : t :=
Build_t (jobId p) (startUrl p) (startTime p) (currentTime p)
  (totalPagesDiscovered p) (pagesProcessed p) (pagesSuccessful p) (pagesFailed p)
  (currentUrl p) (currentDepth p) (currentPageNumber p) (progressPercentage p) v
  (pagesPerMinute p) (urlsInQueue p) (maxDepth p) (maxPages p) (status p) (phase p)
  (errors p) (warnings p) (lastStdoutUpdate p) (stdoutMessageCount p).
Definition set_pagesPerMinute (v : float) (p : t) : t :=
Build_t (jobId p) (startUrl p) (startTime p) (currentTime p)
  (totalPagesDiscovered p) (pagesProcessed p) (pagesSuccessful p) (pagesFailed p)
  (currentUrl p) (currentDepth p) (currentPageNumber p) (progressPercentage p)
  (estimatedTimeRemaining p) v (urlsInQueue p) (maxDepth p) (maxPages p) (status p)
  (phase p) (errors p) (warnings p) (lastStdoutUpdate p) (stdoutMessageCount p).
Definition set_urlsInQueue (v : Z) (p : t) : t :=
Build_t (jobId p) (startUrl p) (startTime p) (currentTime p)
  (totalPagesDiscovered p) (pagesProcessed p) (pagesSuccessful p) (pagesFailed p)
  (currentUrl p) (currentDepth p) (currentPageNumber p) (progressPercentage p)
  (estimatedTimeRemaining p) (pagesPerMinute p) v (maxDepth p) (maxPages p)
  (status p) (phase p) (errors p) (warnings p) (lastStdoutUpdate p)
  (stdoutMessageCount p).
Definition set_status (v : Status) (p : t) : t :=
Build_t (jobId p) (startUrl p) (startTime p) (currentTime p)
  (totalPagesDiscovered p) (pagesProcessed p) (pagesSuccessful p) (pagesFailed p)
  (currentUrl p) (currentDepth p) (currentPageNumber p) (progressPercentage p)
  (estimatedTimeRemaining p) (pagesPerMinute p) (urlsInQueue p) (maxDepth p)
  (maxPages p) v (phase p) (errors p) (warnings p) (lastStdoutUpdate p)
  (stdoutMessageCount p).
Definition set_phase (v : Phase) (p : t) : t :=
Build_t (jobId p) (startUrl p) (startTime p) (currentTime p)
  (totalPagesDiscovered p) (pagesProcessed p) (pagesSuccessful p) (pagesFailed p)
  (currentUrl p) (currentDepth p) (currentPageNumber p) (progressPercentage p)
  (estimatedTimeRemaining p) (pagesPerMinute p) (urlsInQueue p) (maxDepth p)
  (maxPages p) (status p) v (errors p) (warnings p) (lastStdoutUpdate p)
  (stdoutMessageCount p).
Definition set_errors (v : list ProgressError.t) (p : t) : t :=
Build_t (jobId p) (startUrl p) (startTime p) (currentTime p)
  (totalPagesDiscovered p) (pagesProcessed p) (pagesSuccessful p) (pagesFailed p)
  (currentUrl p) (currentDepth p) (currentPageNumber p) (progressPercentage p)
  (estimatedTimeRemaining p) (pagesPerMinute p) (urlsInQueue p) (maxDepth p)
  (maxPages p) (status p) (phase p) v (warnings p) (lastStdoutUpdate p)
  (stdoutMessageCount p).
Definition set_lastStdoutUpdate (v : Z) (p : t) : t :=
Build_t (jobId p) (startUrl p) (startTime p) (currentTime p)
  (totalPagesDiscovered p) (pagesProcessed p) (pagesSuccessful p) (pagesFailed p)
  (currentUrl p) (currentDepth p) (currentPageNumber p) (progressPercentage p)
  (estimatedTimeRemaining p) (pagesPerMinute p) (urlsInQueue p) (maxDepth p)
  (maxPages p) (status p) (phase p) (errors p) (warnings p) v
  (stdoutMessageCount p).
Definition set_stdoutMessageCount (v : Z) (p : t) : t :=
Build_t (jobId p) (startUrl p) (startTime p) (currentTime p)
  (totalPagesDiscovered p) (pagesProcessed p) (pagesSuccessful p) (pagesFailed p)
  (currentUrl p) (currentDepth p) (currentPageNumber p) (progressPercentage p)
  (estimatedTimeRemaining p) (pagesPerMinute p) (urlsInQueue p) (maxDepth p)
  (maxPages p) (status p) (phase p) (errors p) (warnings p) (lastStdoutUpdate p) v.

End CrawlProgress.

Module ProgressTracker.
Import CrawlProgress.

(** The tracker object.  [stdoutUpdateTimer] records whether the interval
    timer is armed.  The update listeners are callbacks run for their own
    effects and are not part of the model, nor is the asynchronous mirror of
    the snapshot to Redis and to [jobs.progress] ([updateJobProgress]). *)
Record t := mk {
  progress : CrawlProgress.t;
  options : ProgressTrackerOptions.t;
  stdoutUpdateTimer : bool
}.

Definition with_progress (p : CrawlProgress.t) (tr : t) : t :=
  mk p (options tr) (stdoutUpdateTimer tr).

Definition initializeProgress (o : ProgressTrackerOptions.t) (now : Z)
  : CrawlProgress.t :=
  {| jobId := ProgressTrackerOptions.jobId o;
     startUrl := ProgressTrackerOptions.startUrl o;
     startTime := now;
     currentTime := now;
     totalPagesDiscovered := 1;
     pagesProcessed := 0;
     pagesSuccessful := 0;
     pagesFailed := 0;
     currentUrl := None;
     currentDepth := 0;
     currentPageNumber := 0;
     progressPercentage := JS.of_Z 0;
     estimatedTimeRemaining := None;
     pagesPerMinute := JS.of_Z 0;
     urlsInQueue := 1;
     maxDepth := ProgressTrackerOptions.maxDepth o;
     maxPages := ProgressTrackerOptions.maxPages o;
     status := starting;
     phase := discovering;
     errors := [];
     warnings := [];
     lastStdoutUpdate := now;
     stdoutMessageCount := 0 |}.

(** [new ProgressTracker(options)] *)
Definition new (o : ProgressTrackerOptions.t) (now : Z) : t :=
  {| progress := initializeProgress o now;
     options := o;
     stdoutUpdateTimer := ProgressTrackerOptions.enableStdoutUpdates o |}.

Definition percentage_of (processed : Z) (maxPages : float) : float :=
  JS.min
    (JS.round (JS.mul (JS.div (JS.of_Z processed) maxPages) (JS.of_Z 100)))
    (JS.of_Z 100).

Definition elapsedMinutes_of (p : CrawlProgress.t) : float :=
  JS.div (JS.of_Z (currentTime p - startTime p)) (JS.of_Z (1000 * 60)).

Definition eta_of (processed : Z) (maxPages perMinute : float) : float :=
  let remainingPages := JS.sub maxPages (JS.of_Z processed) in
  let estimatedMinutes := JS.div remainingPages perMinute in
  JS.round (JS.mul (JS.mul estimatedMinutes (JS.of_Z 60)) (JS.of_Z 1000)).

Definition calculateProgress (tr : t) : t :=
  let p := progress tr in
  let processed := pagesProcessed p in
  let p := set_progressPercentage (percentage_of processed (maxPages p)) p in
  let elapsedMinutes := elapsedMinutes_of p in
  let p :=
    if JS.gt elapsedMinutes (JS.of_Z 0)
    then set_pagesPerMinute (JS.round (JS.div (JS.of_Z processed) elapsedMinutes)) p
    else p in
  let p :=
    if ProgressTrackerOptions.useSmartEstimation (options tr)
       && (ProgressTrackerOptions.minPagesForEstimation (options tr) <=? processed)
       && JS.gt (pagesPerMinute p) (JS.of_Z 0)
    then set_estimatedTimeRemaining
           (Some (eta_of processed (maxPages p) (pagesPerMinute p))) p
    else p in
  let p :=
    if JS.ge (progressPercentage p) (JS.of_Z 95) then set_phase finishing p
    else if (urlsInQueue p =? 0) && (0 <? processed) then set_phase finishing p
    else if 0 <? processed then set_phase processing p
    else set_phase discovering p in
  with_progress p tr.

Definition outputToStdout (tr : t) : t :=
  let p := progress tr in
  with_progress (set_stdoutMessageCount (stdoutMessageCount p + 1) p) tr.

Definition emitUpdate (shouldOutputToStdout : bool) (tr : t) : t :=
  if shouldOutputToStdout
     && ProgressTrackerOptions.enableStdoutUpdates (options tr)
  then outputToStdout tr
  else tr.

Definition stopStdoutUpdates (tr : t) : t :=
  mk (progress tr) (options tr) false.

Definition startProcessingPage (url : string) (depth : Z) (now : Z) (tr : t) : t :=
  let p := progress tr in
  let p := set_currentUrl (Some url) p in
  let p := set_currentDepth depth p in
  let p := set_currentPageNumber (currentPageNumber p + 1) p in
  let p := set_currentTime now p in
  let p := set_status crawling p in
  let p := set_phase processing p in
  emitUpdate true (calculateProgress (with_progress p tr)).

Definition pageCompleted (url : string) (linksFound : Z) (now : Z) (tr : t) : t :=
  let p := progress tr in
  let p := set_pagesProcessed (pagesProcessed p + 1) p in
  let p := set_pagesSuccessful (pagesSuccessful p + 1) p in
  let p := set_currentTime now p in
  let p :=
    if 0 <? linksFound
    then set_urlsInQueue (urlsInQueue p + linksFound)
           (set_totalPagesDiscovered (totalPagesDiscovered p + linksFound) p)
    else p in
  emitUpdate
    (match ProgressTrackerOptions.stdoutVerbosity (options tr) with
     | minimal => false
     | _ => true
     end)
    (calculateProgress (with_progress p tr)).

Definition pageFailed (url : string) (error : string) (now : Z) (tr : t) : t :=
  let p := progress tr in
  let p := set_pagesProcessed (pagesProcessed p + 1) p in
  let p := set_pagesFailed (pagesFailed p + 1) p in
  let p := set_currentTime now p in
  let progressError :=
    ProgressError.mk url error (currentTime p) (currentDepth p) in
  let p := set_errors (errors p ++ [progressError]) p in
  emitUpdate true (calculateProgress (with_progress p tr)).

Definition urlsDiscovered (urls : list string) (depth : Z) (now : Z) (tr : t) : t :=
  let p := progress tr in
  let newUrls := Z.of_nat (length urls) in
  let p := set_totalPagesDiscovered (totalPagesDiscovered p + newUrls) p in
  let p := set_urlsInQueue (urlsInQueue p + newUrls) p in
  let p := set_currentTime now p in
  emitUpdate
    (match ProgressTrackerOptions.stdoutVerbosity (options tr) with
     | verbose => true
     | _ => false
     end)
    (with_progress p tr).

Definition updateQueueStatus (urlsInQueue : Z) (now : Z) (tr : t) : t :=
  let p := progress tr in
  let p := set_urlsInQueue urlsInQueue p in
  let p := set_currentTime now p in
  calculateProgress (with_progress p tr).

Definition markCompleted (now : Z) (tr : t) : t :=
  let p := progress tr in
  let p := set_status completed p in
  let p := set_phase finishing p in
  let p := set_currentTime now p in
  let p := set_progressPercentage (JS.of_Z 100) p in
  stopStdoutUpdates (emitUpdate true (with_progress p tr)).

Definition markFailed (reason : string) (now : Z) (tr : t) : t :=
  let p := progress tr in
  let p := set_status failed p in
  let p := set_currentTime now p in
  stopStdoutUpdates (emitUpdate true (with_progress p tr)).

(** The body of the interval timer armed by [startStdoutUpdates]. *)
Definition stdoutTimerFired (now : Z) (tr : t) : t :=
  if stdoutUpdateTimer tr
     && (ProgressTrackerOptions.stdoutUpdateInterval (options tr)
           <=? now - lastStdoutUpdate (progress tr))
  then
    let tr := outputToStdout tr in
    with_progress (set_lastStdoutUpdate now (progress tr)) tr
  else tr.

Definition getProgress (tr : t) : CrawlProgress.t := progress tr.

Definition cleanup (tr : t) : t := stopStdoutUpdates tr.

(** The public mutators of a tracker, as events. *)
Inductive Event :=
| StartProcessingPage (url : string) (depth : Z)
| PageCompleted (url : string) (linksFound : Z)
| PageFailed (url : string) (error : string)
| UrlsDiscovered (urls : list string) (depth : Z)
| UpdateQueueStatus (urlsInQueue : Z)
| MarkCompleted
| MarkFailed (reason : string)
| StdoutTimerFired.

Definition handle (ev : Event) (now : Z) (tr : t) : t :=
  match ev with
  | StartProcessingPage url depth => startProcessingPage url depth now tr
  | PageCompleted url linksFound => pageCompleted url linksFound now tr
  | PageFailed url error => pageFailed url error now tr
  | UrlsDiscovered urls depth => urlsDiscovered urls depth now tr
  | UpdateQueueStatus n => updateQueueStatus n now tr
  | MarkCompleted => markCompleted now tr
  | MarkFailed reason => markFailed reason now tr
  | StdoutTimerFired => stdoutTimerFired now tr
  end.

(** A run: events in order, each with the clock reading it observes. *)
Fixpoint run (evs : list (Event * Z)) (tr : t) : t :=
  match evs with
  | [] => tr
  | (ev, now) :: evs => run evs (handle ev now tr)
  end.

End ProgressTracker.

(** ** link-extractor.ts *)

(** String helpers with the meaning of their JavaScript namesakes. *)
Module Str.

Definition startsWith (s p : string) : bool := String.prefix p s.

Fixpoint endsWithChar (s : string) (c : ascii) : bool :=
  match s with
  | EmptyString => false
  | String a EmptyString => Ascii.eqb a c
  | String _ r => endsWithChar r c
  end.

(** [s.slice(0, -1)] *)
Fixpoint dropLast (s : string) : string :=
  match s with
  | EmptyString => EmptyString
  | String _ EmptyString => EmptyString
  | String a r => String a (dropLast r)
  end.

(** The longest prefix without a character of [stop], and the rest. *)
Fixpoint break (stop : ascii -> bool) (s : string) : string * string :=
  match s with
  | EmptyString => (EmptyString, EmptyString)
  | String c r =>
      if stop c then (EmptyString, s)
      else let (a, b) := break stop r in (String c a, b)
  end.

(** [s.split(sep)] for a one-character separator. *)
Fixpoint split (sep : ascii) (s : string) : list string :=
  match s with
  | EmptyString => [EmptyString]
  | String c r =>
      if Ascii.eqb c sep then EmptyString :: split sep r
      else match split sep r with
           | [] => [String c EmptyString]
           | w :: ws => String c w :: ws
           end
  end.

(** [parts.join(sep)] *)
Fixpoint join (sep : string) (parts : list string) : string :=
  match parts with
  | [] => EmptyString
  | [w] => w
  | w :: ws => w ++ sep ++ join sep ws
  end.

(** [Array.prototype.sort()] on strings: ascending code-unit order. *)
Fixpoint insert (x : string) (l : list string) : list string :=
  match l with
  | [] => [x]
  | y :: l' => if String.ltb x y then x :: l else y :: insert x l'
  end.

Definition sort (l : list string) : list string := fold_right insert [] l.

(** [[...new Set(l)]]: the first occurrence of every element, in order. *)
Fixpoint unique_from (seen : gset string) (l : list string) : list string :=
  match l with
  | [] => []
  | x :: l' =>
      if decide (x ∈ seen) then unique_from seen l'
      else x :: unique_from ({[x]} ∪ seen) l'
  end.

Definition unique (l : list string) : list string := unique_from ∅ l.

End Str.

(** [URLSearchParams]: the list of name-value pairs of a query string.
    Percent-decoding and encoding are left out: they are the identity on
    names and values made of letters, digits, [*], [-], [_] and [.], and
    [URL.parse] below hands over no other query. *)
Module URLSearchParams.

Definition t := list (string * string).

Definition parse_pair (piece : string) : string * string :=
  let (name, rest) := Str.break (Ascii.eqb "=") piece in
  match rest with
  | String _ value => (name, value)
  | EmptyString => (name, EmptyString)
  end.

Definition parse (query : string) : t :=
  map parse_pair
    (filter (fun piece => piece ≠ EmptyString) (Str.split "&" query)).

Definition keys (ps : t) : list string := map fst ps.

Definition getAll (name : string) (ps : t) : list string :=
  map snd (filter (fun p => fst p = name) ps).

Definition append (name value : string) (ps : t) : t :=
  (ps ++ [(name, value)])%list.

Definition toString (ps : t) : string :=
  Str.join "&" (map (fun p => fst p ++ "=" ++ snd p) ps).

End URLSearchParams.

(** The WHATWG [URL] object, on the URLs that [new URL] only has to cut
    into their components: [http://] or [https://] in lower case; a host
    of lower-case letters, digits and dots, with no empty label and a last
    label that starts with a letter (so no port, no credentials, no IP
    address and nothing to lower-case or to convert); a path of letters,
    digits, [-], [.], [_], [~] and [/] without the segments [.] and [..];
    a query of letters, digits, [*], [-], [.], [_], [=] and [&]; a
    fragment of the path's characters.  On such a string [parse] gives
    the components [new URL] gives.  On every other string [parse] gives
    [None]: there [new URL] throws, or it accepts the string and does
    more than cutting it, which this model does not follow. *)
Module URL.

Record t := mk {
  protocol : string;            (* with the colon *)
  host : string;                (* with the port, if any *)
  pathname : string;
  query : option string;        (* without the question mark *)
  fragment : option string      (* without the hash sign *)
}.

Definition is_one_of (cs : list ascii) (c : ascii) : bool :=
  existsb (Ascii.eqb c) cs.

(** The components of what follows [scheme://], if it has a host. *)
Definition components (protocol rest : string) : option t :=
  let (host, rest) := Str.break (is_one_of ["/"; "?"; "#"]%char) rest in
  if decide (host = EmptyString) then None
  else
    let (path, rest) := Str.break (is_one_of ["?"; "#"]%char) rest in
    let pathname := if decide (path = EmptyString) then "/" else path in
    match rest with
    | String "?" rest =>
        let (q, rest) := Str.break (Ascii.eqb "#") rest in
        match rest with
        | String _ f => Some (mk protocol host pathname (Some q) (Some f))
        | EmptyString => Some (mk protocol host pathname (Some q) None)
        end
    | String _ f => Some (mk protocol host pathname None (Some f))
    | EmptyString => Some (mk protocol host pathname None None)
    end.

Definition is_lower (c : ascii) : bool :=
  let n := nat_of_ascii c in (97 <=? n)%nat && (n <=? 122)%nat.

Definition is_upper (c : ascii) : bool :=
  let n := nat_of_ascii c in (65 <=? n)%nat && (n <=? 90)%nat.

Definition is_digit (c : ascii) : bool :=
  let n := nat_of_ascii c in (48 <=? n)%nat && (n <=? 57)%nat.

Definition is_alphanumeric (c : ascii) : bool :=
  is_lower c || is_upper c || is_digit c.

Fixpoint all_chars (ok : ascii → bool) (s : string) : bool :=
  match s with
  | EmptyString => true
  | String c r => ok c && all_chars ok r
  end.

Definition host_char (c : ascii) : bool :=
  is_lower c || is_digit c || Ascii.eqb c ".".

Definition path_char (c : ascii) : bool :=
  is_alphanumeric c || is_one_of ["-"; "."; "_"; "~"; "/"]%char c.

Definition query_char (c : ascii) : bool :=
  is_alphanumeric c || is_one_of ["*"; "-"; "."; "_"; "="; "&"]%char c.

Definition starts_with_letter (label : string) : bool :=
  match label with
  | String c _ => is_lower c
  | EmptyString => false
  end.

Definition plain_host (host : string) : bool :=
  let labels := Str.split "." host in
  all_chars host_char host
  && forallb (fun label => negb (bool_decide (label = EmptyString))) labels
  && starts_with_letter (List.last labels EmptyString).

Definition plain_path (pathname : string) : bool :=
  all_chars path_char pathname
  && forallb (fun segment => negb (bool_decide (segment = ".") || bool_decide (segment = "..")))
       (Str.split "/" pathname).

(** Whether the components are those of a URL the parser only cuts. *)
Definition plain (u : t) : bool :=
  plain_host (host u)
  && plain_path (pathname u)
  && match query u with Some q => all_chars query_char q | None => true end
  && match fragment u with Some f => all_chars path_char f | None => true end.

Definition parse (s : string) : option t :=
  let cut :=
    if Str.startsWith s "http://"
    then components "http:" (String.substring 7 (String.length s - 7) s)
    else if Str.startsWith s "https://"
    then components "https:" (String.substring 8 (String.length s - 8) s)
    else None in
  match cut with
  | Some u => if plain u then Some u else None
  | None => None
  end.

Definition href (u : t) : string :=
  protocol u ++ "//" ++ host u ++ pathname u
    ++ match query u with Some q => "?" ++ q | None => "" end
    ++ match fragment u with Some f => "#" ++ f | None => "" end.

Definition hostname (u : t) : string :=
  fst (Str.break (Ascii.eqb ":") (host u)).

Definition search (u : t) : string :=
  match query u with
  | Some q => if decide (q = EmptyString) then "" else "?" ++ q
  | None => ""
  end.

Definition searchParams (u : t) : URLSearchParams.t :=
  match query u with
  | Some q => URLSearchParams.parse q
  | None => []
  end.

(** [u.hash = v] *)
Definition set_hash (v : string) (u : t) : t :=
  match v with
  | EmptyString => mk (protocol u) (host u) (pathname u) (query u) None
  | String "#" f => mk (protocol u) (host u) (pathname u) (query u) (Some f)
  | _ => mk (protocol u) (host u) (pathname u) (query u) (Some v)
  end.

(** [u.pathname = v] *)
Definition set_pathname (v : string) (u : t) : t :=
  mk (protocol u) (host u)
     (if Str.startsWith v "/" then v else "/" ++ v)
     (query u) (fragment u).

(** [u.search = v] *)
Definition set_search (v : string) (u : t) : t :=
  match v with
  | EmptyString => mk (protocol u) (host u) (pathname u) None (fragment u)
  | String "?" q => mk (protocol u) (host u) (pathname u) (Some q) (fragment u)
  | _ => mk (protocol u) (host u) (pathname u) (Some v) (fragment u)
  end.

End URL.

Module LinkExtractor.

(** The loop of [normalizeUrl] that rebuilds the query: one pass over the
    sorted [keys()], appending for each name all the values [getAll] finds. *)
Definition sortParams (params : URLSearchParams.t) : URLSearchParams.t :=
  let paramNames := Str.sort (URLSearchParams.keys params) in
  fold_left
    (fun sortedParams name =>
       fold_left
         (fun sortedParams value => URLSearchParams.append name value sortedParams)
         (URLSearchParams.getAll name params)
         sortedParams)
    paramNames
    [].

(** [normalizeUrl].  (On a string outside the fragment of [URL.parse]
    that [new URL] accepts, the function normalises too, where this one
    takes the branch of [catch].) *)
Definition normalizeUrl (url : string) : string :=
  match URL.parse url with
  | None => url
  | Some urlObj =>
      let urlObj := URL.set_hash "" urlObj in
      let urlObj :=
        if (1 <? Z.of_nat (String.length (URL.pathname urlObj)))
           && Str.endsWithChar (URL.pathname urlObj) "/"
        then URL.set_pathname (Str.dropLast (URL.pathname urlObj)) urlObj
        else urlObj in
      let sortedParams := sortParams (URL.searchParams urlObj) in
      let urlObj := URL.set_search (URLSearchParams.toString sortedParams) urlObj in
      URL.href urlObj
  end.

Definition deduplicateLinks (links : list string) : list string :=
  let normalized := map normalizeUrl links in
  Str.unique normalized.

End LinkExtractor.

(** ** scraping-service.ts: the browser pool *)

Module BrowserInstance.

(** What the pool observes of a Playwright [Browser]: whether [close()]
    throws and what [isConnected()] answers. *)
Record Browser := mkBrowser { closeThrows : bool; isConnected : bool }.

Record t := mk {
  browser : Browser;
  inUse : bool;
  createdAt : Z;
  lastUsed : Z
}.

End BrowserInstance.

Module BrowserManager.
Import BrowserInstance.

(** [instances] is a [Map] whose iteration order (insertion order) decides
    which idle instance is reused: an association list with unique keys. *)
Record t := mk {
  instances : list (string * BrowserInstance.t);
  maxInstances : Z
}.

Definition size (m : t) : Z := Z.of_nat (length (instances m)).

Definition with_instances (l : list (string * BrowserInstance.t)) (m : t) : t :=
  mk l (maxInstances m).

(** [Map.prototype.get], [set] and [delete]. *)
Fixpoint map_get (k : string) (l : list (string * BrowserInstance.t))
  : option BrowserInstance.t :=
  match l with
  | [] => None
  | (k', v) :: l' => if decide (k' = k) then Some v else map_get k l'
  end.

Fixpoint map_set (k : string) (v : BrowserInstance.t)
    (l : list (string * BrowserInstance.t)) : list (string * BrowserInstance.t) :=
  match l with
  | [] => [(k, v)]
  | (k', v') :: l' =>
      if decide (k' = k) then (k, v) :: l' else (k', v') :: map_set k v l'
  end.

Definition map_delete (k : string) (l : list (string * BrowserInstance.t))
  : list (string * BrowserInstance.t) :=
  filter (fun e => fst e ≠ k) l.

(** [closeBrowser]: the instance leaves the map unless [close()] throws. *)
Definition closeBrowser (browserId : string) (m : t) : t :=
  match map_get browserId (instances m) with
  | Some instance =>
      if closeThrows (browser instance) then m
      else with_instances (map_delete browserId (instances m)) m
  | None => m
  end.

Definition maxAge : Z := 30 * 60 * 1000.

(** [cleanupOldInstances], run to completion. *)
Definition cleanupOldInstances (now : Z) (m : t) : t :=
  fold_left
    (fun m e =>
       let age := now - lastUsed (snd e) in
       if negb (inUse (snd e)) && (maxAge <? age)
       then closeBrowser (fst e) m
       else m)
    (instances m) m.

(** The [for] loop of [getBrowser]: the first idle instance is taken. *)
Fixpoint reuse (now : Z) (l : list (string * BrowserInstance.t))
  : option (string * list (string * BrowserInstance.t)) :=
  match l with
  | [] => None
  | (browserId, instance) :: l' =>
      if negb (inUse instance)
      then Some (browserId,
                 (browserId,
                  BrowserInstance.mk (browser instance) true (createdAt instance) now)
                 :: l')
      else match reuse now l' with
           | Some (found, l'') => Some (found, (browserId, instance) :: l'')
           | None => None
           end
  end.

(** Where a call of [getBrowser] stands.  [getBrowser] is asynchronous: it
    is suspended while [createBrowser] awaits [chromium.launch] and
    [browser.newContext] ([Launching]), and once more between the moment
    [createBrowser] has stored the new instance and the moment its promise
    resumes the caller ([Created]).  Other calls run in between. *)
Inductive Call :=
| Entering
| Launching (browserId : string)
| Created (browserId : string)
| Returned (browserId : string)
| Threw (message : string).

(** What the environment decides for one call: the identifier
    [createBrowser] draws and whether the launch succeeds. *)
Record Launch := mkLaunch {
  browserId : string;
  launched : option Browser;    (* [None]: [chromium.launch] throws *)
  launchError : string
}.

Definition exhausted : string :=
  "No available browser instances and maximum limit reached".

(** From the entry of [getBrowser] to its first suspension or its end. *)
Definition enter (e : Launch) (now : Z) (m : t) : Call * t :=
  let m := if maxInstances m <=? size m then cleanupOldInstances now m else m in
  match reuse now (instances m) with
  | Some (found, l) => (Returned found, with_instances l m)
  | None =>
      if size m <? maxInstances m
      then (Launching (browserId e), m)
      else (Threw exhausted, m)
  end.

(** The end of [createBrowser]: the instance is stored, not yet in use. *)
Definition finish_launch (e : Launch) (id : string) (now : Z) (m : t) : Call * t :=
  match launched e with
  | Some b =>
      (Created id,
       with_instances
         (map_set id (BrowserInstance.mk b false now now) (instances m)) m)
  | None => (Threw (launchError e), m)
  end.

(** Back in [getBrowser]: [instances.get(browserId)!.inUse = true]. *)
Definition resume (id : string) (m : t) : Call * t :=
  match map_get id (instances m) with
  | Some instance =>
      (Returned id,
       with_instances
         (map_set id
            (BrowserInstance.mk (browser instance) true (createdAt instance)
               (lastUsed instance))
            (instances m)) m)
  | None => (Threw "Cannot set properties of undefined (setting 'inUse')", m)
  end.

(** One scheduling step of a call. *)
Definition step (e : Launch) (now : Z) (c : Call) (m : t) : Call * t :=
  match c with
  | Entering => enter e now m
  | Launching id => finish_launch e id now m
  | Created id => resume id m
  | Returned _ | Threw _ => (c, m)
  end.

(** [getBrowser] when nothing else runs while it is suspended. *)
Definition getBrowser (e : Launch) (now : Z) (m : t) : Call * t :=
  let (c, m) := step e now Entering m in
  let (c, m) := step e now c m in
  step e now c m.


Definition releaseBrowser (browserId : string) (now : Z) (m : t) : t :=
  match map_get browserId (instances m) with
  | Some instance =>
      with_instances
        (map_set browserId
           (BrowserInstance.mk (browser instance) false (createdAt instance) now)
           (instances m)) m
  | None => m
  end.

Definition healthCheck (m : t) : t :=
  with_instances
    (filter (fun e => isConnected (browser (snd e)) = true) (instances m)) m.

Definition inUseCount (m : t) : Z :=
  Z.of_nat (length (filter (fun e => inUse (snd e) = true) (instances m))).

End BrowserManager.

(** ** The [jobs] and [pages] tables *)

(** The store behind [database.query].  Only the columns the engine writes
    and reads back are kept ([result], [options] and the time stamps are
    not).  A job id is the text of a UUID; a string that is none has no
    row, and a query on it fails in the database, which the engine treats
    as it treats a missing row.  Apart from the constraint on
    [pages.job_id] no query fails. *)
Module Database.

Inductive JobType := scrape | crawl | search.

Inductive JobStatus := pending | processing | completed | failed | cancelled.

Record JobRow := mkJob {
  type : JobType;
  status : JobStatus;
  progress : float;
  current_url : option string;
  pages_crawled : Z;
  error_message : option string
}.

Record PageRow := mkPage {
  job_id : string;
  url : string;
  title : option string;
  depth : Z;
  status_code : Z;
  links_found : Z;
  processing_time_ms : Z;
  page_error_message : option string
}.

Record t := mk {
  jobs : gmap string JobRow;
  pages : list PageRow
}.

(** [UPDATE jobs SET ... WHERE id = $n]: no row, no change. *)
Definition update_job (id : string) (f : JobRow → JobRow) (db : t) : t :=
  mk (alter f id (jobs db)) (pages db).

(** [INSERT INTO pages]: [job_id] references [jobs(id)], so the row is
    refused ([None]) when the job has no row. *)
Definition insert_page (row : PageRow) (db : t) : option t :=
  match jobs db !! job_id row with
  | Some _ => Some (mk (jobs db) (pages db ++ [row]))
  | None => None
  end.

Definition status_of (id : string) (db : t) : option JobStatus :=
  status <$> jobs db !! id.

End Database.

(** ** job-manager.ts *)

Module JobManager.
Import Database.

(** A job as BullMQ holds it; [remove()] throws while a worker has the
    job locked. *)
Record BullJob := mkBullJob { locked : bool }.

Record t := mk {
  queues : gmap string (gmap string BullJob);
  db : Database.t
}.

Definition getQueueName (jobType : JobType) : string :=
  match jobType with
  | scrape => "scrape-queue"
  | crawl => "crawl-queue"
  | search => "search-queue"
  end.

Definition updateJobStatus (jobId : string) (status : JobStatus)
    (progress : option float) (errorMessage : option string) (s : t) : t :=
  mk (queues s)
     (update_job jobId
        (fun row =>
           mkJob (type row) status
             (match progress with Some p => p | None => Database.progress row end)
             (current_url row) (pages_crawled row)
             (match errorMessage with
              | Some e => Some e
              | None => error_message row
              end))
        (db s)).

Definition getJobStatus (jobId : string) (s : t) : option JobRow :=
  jobs (db s) !! jobId.

Definition cancelJob (jobId : string) (s : t) : bool * t :=
  match getJobStatus jobId s with
  | None => (false, s)
  | Some jobData =>
      match status jobData with
      | completed => (false, s)
      | _ =>
          let queueName := getQueueName (type jobData) in
          let removed : option t :=
            match queues s !! queueName with
            | Some queue =>
                match queue !! jobId with
                | Some job =>
                    if locked job then None
                    else Some (mk (<[queueName := delete jobId queue]> (queues s)) (db s))
                | None => Some s
                end
            | None => Some s
            end in
          match removed with
          | Some s => (true, updateJobStatus jobId cancelled None None s)
          | None => (false, s)
          end
      end
  end.

(** The side of the job processor that writes the status: [processing]
    on entry, then [completed] or [failed] by the handler's outcome. *)
Definition processor_begin (jobId : string) (s : t) : t :=
  updateJobStatus jobId processing (Some (JS.of_Z 0)) None s.

Definition processor_end (jobId : string) (success : bool) (error : option string)
    (s : t) : t :=
  if success
  then updateJobStatus jobId completed (Some (JS.of_Z 100)) None s
  else updateJobStatus jobId failed (Some (JS.of_Z 100)) error s.

Definition processor_threw (jobId : string) (errorMessage : string) (s : t) : t :=
  updateJobStatus jobId failed (Some (JS.of_Z 0)) (Some errorMessage) s.

End JobManager.

(** ** crawling-service.ts *)

Module ScrapeResult.
(** What the crawl loop reads of a [ScrapeResult]. *)
Record t := mk { title : string; statusCode : Z; responseTime : Z }.
End ScrapeResult.

Module PageResult.
Record t := mk {
  url : string;
  depth : Z;
  pageNumber : Z;
  success : bool;
  error : option string;
  scrapeResult : option ScrapeResult.t;
  linksFound : Z;
  processingTime : Z
}.
End PageResult.

Module CrawlOptions.

(** The options as the caller passes them: every property may be absent.
    The two limits are [number]s; nothing on the way to [crawlMultiPage]
    makes them whole. *)
Record Raw := mkRaw {
  raw_maxDepth : option Q;
  raw_maxPages : option Q;
  raw_delayBetweenRequests : option Z;
  raw_enableProgressTracking : option bool;
  raw_enableStdoutUpdates : option bool;
  raw_stdoutUpdateInterval : option Z;
  raw_stdoutVerbosity : option Verbosity
}.

(** [crawlOptions], after "Set defaults".  The options that only the
    scraper and the link filter read are part of the environment. *)
Record t := mk {
  maxDepth : Q;
  maxPages : Q;
  delayBetweenRequests : Z;
  enableProgressTracking : bool;
  enableStdoutUpdates : bool;
  stdoutUpdateInterval : Z;
  stdoutVerbosity : Verbosity
}.

Definition defaults (options : Raw) : t :=
  {| maxDepth := JS.or_default_Q (raw_maxDepth options) 2;
     maxPages := JS.or_default_Q (raw_maxPages options) 10;
     delayBetweenRequests := JS.or_default (raw_delayBetweenRequests options) 1000;
     enableProgressTracking :=
       match raw_enableProgressTracking options with Some false => false | _ => true end;
     enableStdoutUpdates :=
       match raw_enableStdoutUpdates options with Some b => b | None => false end;
     stdoutUpdateInterval := JS.or_default (raw_stdoutUpdateInterval options) 5000;
     stdoutVerbosity :=
       match raw_stdoutVerbosity options with Some v => v | None => normal end |}.

End CrawlOptions.

Module CrawlResult.
Record t := mk {
  jobId : string;
  startUrl : string;
  totalPages : Z;
  successfulPages : Z;
  failedPages : Z;
  maxDepth : Q;
  maxDepthReached : Z;
  totalProcessingTime : Z;
  results : list PageResult.t;
  domainsVisited : list string;
  avgProcessingTimePerPage : float;
  successRate : float;
  totalLinksDiscovered : Z
}.
End CrawlResult.

Module CrawlingService.
Import Database.

(** A value caught by [catch (error)]: an [Error] with its message, or
    anything else. *)
Inductive Thrown := ErrorObject (message : string) | OtherValue.

(** How one page attempt ends.  [Scraped sr links]: [scrapePage] resolved
    with [sr] and [extractAndFilterLinks] (which never throws) returned
    [links]; nothing is assumed of [links], duplicates included.
    [Threw e]: [scrapePage] rejected, whatever the cause (navigation,
    timeout, or the browser pool's exhaustion error). *)
Inductive Attempt :=
| Scraped (scrapeResult : ScrapeResult.t) (discoveredLinks : list string)
| Threw (e : Thrown).

(** The environment of a crawl: what the [n]-th page attempt yields for
    the URL it is given, and the successive readings of [Date.now()]. *)
Record Env := mkEnv {
  attempt : Z → string → Attempt;
  clock : nat → Z
}.

(** The argument of the legacy progress report (the interface
    [CrawlProgress] of crawling-service.ts). *)
Record ProgressData := mkProgressData {
  data_jobId : string;
  data_currentUrl : string;
  data_pagesCrawled : Z;
  data_pagesRemaining : Q;
  data_progress : float;
  data_currentDepth : Z
}.

(** The parameter [progressCallback], as far as the crawl can tell: for
    the data it is called with, the promise it returns is fulfilled
    ([None]) or rejected with a value.  No two calls of one crawl carry
    the same data, since [pagesCrawled] grows from call to call, so a
    function of the data describes any sequence of outcomes.  What else
    the callback does (the job processor's one writes the progress of the
    queue job) touches nothing the crawl reads. *)
Definition ProgressCallback := ProgressData → option Thrown.

(** The state shared by all activations of the service: the database, the
    [activeTrackers] map, the tracker objects it and the activations point
    to, and the number of clock readings taken so far. *)
Record World := mkWorld {
  db : Database.t;
  activeTrackers : gmap string nat;
  heap : gmap nat ProgressTracker.t;
  ticks : nat
}.

(** The local variables of one activation of [crawlMultiPage]. *)
Record Locals := mkLocals {
  jobId : string;
  startUrl : string;
  startTime : Z;
  crawlOptions : CrawlOptions.t;
  progressTracker : option nat;
  crawled : gset string;
  toCrawl : list (string * Z);
  results : list PageResult.t;
  failedUrls : list string;
  maxDepthReached : Z;
  domainsVisited : list string;
  totalLinksDiscovered : Z
}.

(** [Date.now()] *)
Definition now (env : Env) (w : World) : Z * World :=
  (clock env (ticks w), mkWorld (db w) (activeTrackers w) (heap w) (S (ticks w))).

Definition with_db (d : Database.t) (w : World) : World :=
  mkWorld d (activeTrackers w) (heap w) (ticks w).

(** A method call on the tracker an activation holds, if it holds one;
    every tracker method reads the clock once. *)
Definition tracker_call (env : Env) (ref : option nat)
    (method : Z → ProgressTracker.t → ProgressTracker.t) (w : World) : World :=
  match ref with
  | Some r =>
      let '(t, w) := now env w in
      mkWorld (db w) (activeTrackers w) (alter (method t) r (heap w)) (ticks w)
  | None => w
  end.

Definition updateJobStatus (jobId : string) (status : JobStatus) (progress : float)
    (errorMessage : option string) (w : World) : World :=
  with_db
    (update_job jobId
       (fun row =>
          mkJob (type row) status progress (current_url row) (pages_crawled row)
            (match errorMessage with
             | Some e => Some e
             | None => error_message row
             end))
       (db w))
    w.

Definition updateJobProgress (jobId : string) (progress : float) (currentUrl : string)
    (pagesCrawled : Z) (w : World) : World :=
  with_db
    (update_job jobId
       (fun row =>
          mkJob (type row) (status row) progress (Some currentUrl) pagesCrawled
            (error_message row))
       (db w))
    w.

(** [s || null] on an optional string: the empty string is falsy. *)
Definition nonempty (s : option string) : option string :=
  match s with
  | Some EmptyString => None
  | _ => s
  end.

Definition truthy (s : option string) : bool :=
  match nonempty s with Some _ => true | None => false end.

(** The [INSERT] runs inside [try]; when the database refuses it the
    [catch] logs the error and the table is as it was. *)
Definition storePageResult (jobId url : string) (depth : Z)
    (scrapeResult : option ScrapeResult.t) (linksFound : Z)
    (errorMessage : option string) (w : World) : World :=
  let statusCode :=
    match scrapeResult with
    | Some sr =>
        if ScrapeResult.statusCode sr =? 0
        then (if truthy errorMessage then 0 else 200)
        else ScrapeResult.statusCode sr
    | None => if truthy errorMessage then 0 else 200
    end in
  let title :=
    match scrapeResult with
    | Some sr => nonempty (Some (ScrapeResult.title sr))
    | None => None
    end in
  let processingTime :=
    match scrapeResult with
    | Some sr => ScrapeResult.responseTime sr
    | None => 0
    end in
  match
    insert_page
      (mkPage jobId url title depth statusCode linksFound processingTime
         (nonempty errorMessage))
      (db w)
  with
  | Some d => with_db d w
  | None => w
  end.

(** The loop over [discoveredLinks] that feeds the frontier. *)
Definition enqueue (crawled : gset string) (depth : Z) (discoveredLinks : list string)
    (toCrawl : list (string * Z)) : list (string * Z) * list string :=
  fold_left
    (fun (acc : list (string * Z) * list string) (link : string) =>
       let (toCrawl, newUrls) := acc in
       if negb (bool_decide (link ∈ crawled))
          && negb (existsb (fun item => bool_decide (fst item = link)) toCrawl)
       then ((toCrawl ++ [(link, depth + 1)])%list, (newUrls ++ [link])%list)
       else (toCrawl, newUrls))
    discoveredLinks
    (toCrawl, []).

(** [Set.prototype.add] on a set whose insertion order is read back. *)
Definition set_add (x : string) (l : list string) : list string :=
  if bool_decide (x ∈ l) then l else l ++ [x].

(** [error instanceof Error ? error.message : 'Unknown error'], in the
    [catch] of a page attempt. *)
Definition errorMessage_of (e : Thrown) : string :=
  match e with
  | ErrorObject message => message
  | OtherValue => "Unknown error"
  end.

(** From the entry of [crawlMultiPage] to the [while] loop.  With a
    tracker, [progressCallback] is handed to it as an update listener; the
    tracker calls its listeners inside [try] and does not await them, so
    the crawl never sees how they end. *)
Definition start (env : Env) (jobId startUrl : string) (options : CrawlOptions.Raw)
    (w : World) : Locals * World :=
  let '(startTime, w) := now env w in
  let crawlOptions := CrawlOptions.defaults options in
  let '(progressTracker, w) :=
    if CrawlOptions.enableProgressTracking crawlOptions then
      let trackerOptions :=
        ProgressTrackerOptions.mk jobId startUrl
          (JS.of_Q (CrawlOptions.maxPages crawlOptions))
          (JS.of_Q (CrawlOptions.maxDepth crawlOptions))
          (CrawlOptions.enableStdoutUpdates crawlOptions)
          (CrawlOptions.stdoutUpdateInterval crawlOptions)
          (CrawlOptions.stdoutVerbosity crawlOptions)
          true 3 in
      let '(t, w) := now env w in
      let r := size (heap w) in
      (Some r,
       mkWorld (db w) (<[jobId := r]> (activeTrackers w))
         (<[r := ProgressTracker.new trackerOptions t]> (heap w)) (ticks w))
    else (None, w) in
  let l :=
    {| jobId := jobId; startUrl := startUrl; startTime := startTime;
       crawlOptions := crawlOptions; progressTracker := progressTracker;
       crawled := ∅; toCrawl := [(startUrl, 0)]; results := []; failedUrls := [];
       maxDepthReached := 0; domainsVisited := []; totalLinksDiscovered := 0 |} in
  (l, updateJobStatus jobId processing (JS.of_Z 0) None w).

(** The loop condition. *)
Definition continues (l : Locals) : bool :=
  match toCrawl l with
  | [] => false
  | _ =>
      JS.lt_Q (inject_Z (Z.of_nat (length (results l))))
        (CrawlOptions.maxPages (crawlOptions l))
  end.

(** The first half of an iteration: up to the call of [scrapePage].  The
    entry is skipped; or the legacy progress report rejects, which is the
    one thing in the loop that throws outside the [try] of the page; or
    the page is in flight. *)
Inductive Begun :=
| Skipped (l : Locals)
| ReportRejected (e : Thrown) (l : Locals) (w : World)
| InFlight (url : string) (depth pageNumber pageStartTime : Z) (l : Locals) (w : World).

Definition begin_iteration (env : Env) (progressCallback : option ProgressCallback)
    (l : Locals) (w : World) : Begun :=
  match toCrawl l with
  | [] => Skipped l
  | (url, depth) :: rest =>
      let l :=
        mkLocals (jobId l) (startUrl l) (startTime l) (crawlOptions l) (progressTracker l)
          (crawled l) rest (results l) (failedUrls l) (maxDepthReached l)
          (domainsVisited l) (totalLinksDiscovered l) in
      if bool_decide (url ∈ crawled l)
         || JS.lt_Q (CrawlOptions.maxDepth (crawlOptions l)) (inject_Z depth)
      then Skipped l
      else
        let l :=
          mkLocals (jobId l) (startUrl l) (startTime l) (crawlOptions l)
            (progressTracker l)
            ({[url]} ∪ crawled l) (toCrawl l) (results l) (failedUrls l)
            (Z.max (maxDepthReached l) depth)
            (match URL.parse url with
             | Some u => set_add (URL.hostname u) (domainsVisited l)
             | None => domainsVisited l
             end)
            (totalLinksDiscovered l) in
        let w :=
          tracker_call env (progressTracker l)
            (ProgressTracker.startProcessingPage url depth) w in
        let pagesCrawled := Z.of_nat (length (results l)) in
        let progress :=
          JS.round
            (JS.mul
               (JS.div (JS.of_Z pagesCrawled)
                  (JS.of_Q (CrawlOptions.maxPages (crawlOptions l))))
               (JS.of_Z 100)) in
        let rejection :=
          match progressCallback, progressTracker l with
          | Some callback, None =>
              callback
                (mkProgressData (jobId l) url pagesCrawled
                   (CrawlOptions.maxPages (crawlOptions l) - inject_Z pagesCrawled)%Q
                   progress depth)
          | _, _ => None
          end in
        match rejection with
        | Some e => ReportRejected e l w
        | None =>
            let w := updateJobProgress (jobId l) progress url pagesCrawled w in
            let '(pageStartTime, w) := now env w in
            InFlight url depth (pagesCrawled + 1) pageStartTime l w
        end
  end.

(** The second half: from the outcome of [scrapePage] to the end of the
    loop body.  (The politeness delay changes no state.) *)
Definition finish_page (env : Env) (url : string) (depth pageNumber pageStartTime : Z)
    (a : Attempt) (l : Locals) (w : World) : Locals * World :=
  let '(t, w) := now env w in
  let processingTime := t - pageStartTime in
  match a with
  | Scraped scrapeResult discoveredLinks =>
      let linksFound := Z.of_nat (length discoveredLinks) in
      let '(toCrawl', newUrls) :=
        if JS.lt_Q (inject_Z depth) (CrawlOptions.maxDepth (crawlOptions l))
        then enqueue (crawled l) depth discoveredLinks (toCrawl l)
        else (toCrawl l, []) in
      let w :=
        tracker_call env (progressTracker l)
          (ProgressTracker.pageCompleted url linksFound) w in
      let w :=
        match newUrls with
        | [] => w
        | _ =>
            tracker_call env (progressTracker l)
              (ProgressTracker.urlsDiscovered newUrls (depth + 1)) w
        end in
      let w :=
        tracker_call env (progressTracker l)
          (ProgressTracker.updateQueueStatus (Z.of_nat (length toCrawl'))) w in
      let w :=
        storePageResult (jobId l) url depth (Some scrapeResult) linksFound None w in
      let pageResult :=
        PageResult.mk url depth pageNumber true None (Some scrapeResult) linksFound
          processingTime in
      (mkLocals (jobId l) (startUrl l) (startTime l) (crawlOptions l) (progressTracker l)
         (crawled l) toCrawl' (results l ++ [pageResult]) (failedUrls l)
         (maxDepthReached l) (domainsVisited l)
         (totalLinksDiscovered l + linksFound),
       w)
  | Threw e =>
      let errorMessage := errorMessage_of e in
      let w :=
        tracker_call env (progressTracker l)
          (ProgressTracker.pageFailed url errorMessage) w in
      let w :=
        tracker_call env (progressTracker l)
          (ProgressTracker.updateQueueStatus (Z.of_nat (length (toCrawl l)))) w in
      let w := storePageResult (jobId l) url depth None 0 (Some errorMessage) w in
      let pageResult :=
        PageResult.mk url depth pageNumber false (Some errorMessage) None 0
          processingTime in
      (mkLocals (jobId l) (startUrl l) (startTime l) (crawlOptions l) (progressTracker l)
         (crawled l) (toCrawl l) (results l ++ [pageResult]) (failedUrls l ++ [url])
         (maxDepthReached l) (domainsVisited l) (totalLinksDiscovered l),
       w)
  end.

(** How a piece of the function body ends: it runs to its end, or it
    throws. *)
Inductive Completion :=
| Normal (l : Locals) (w : World)
| Abrupt (e : Thrown) (l : Locals) (w : World).

(** One iteration of the [while] loop, with nothing else running while
    the page is in flight. *)
Definition iteration (env : Env) (progressCallback : option ProgressCallback)
    (l : Locals) (w : World) : Completion :=
  match begin_iteration env progressCallback l w with
  | Skipped l => Normal l w
  | ReportRejected e l w => Abrupt e l w
  | InFlight url depth pageNumber pageStartTime l w =>
      let '(l, w) :=
        finish_page env url depth pageNumber pageStartTime
          (attempt env pageNumber url) l w in
      Normal l w
  end.

Fixpoint loop (fuel : nat) (env : Env) (progressCallback : option ProgressCallback)
    (l : Locals) (w : World) : option Completion :=
  if continues l then
    match fuel with
    | O => None
    | S fuel =>
        match iteration env progressCallback l w with
        | Normal l w => loop fuel env progressCallback l w
        | Abrupt e l w => Some (Abrupt e l w)
        end
    end
  else Some (Normal l w).

Definition sum_processingTime (rs : list PageResult.t) : Z :=
  fold_left (fun sum r => sum + PageResult.processingTime r) rs 0.

(** The [finally] block. *)
Definition finally (l : Locals) (w : World) : World :=
  match progressTracker l with
  | Some r =>
      mkWorld (db w) (delete (jobId l) (activeTrackers w))
        (alter ProgressTracker.cleanup r (heap w)) (ticks w)
  | None => w
  end.

(** After the loop: the result, the tracker and the status are settled,
    and the [finally] block unregisters the tracker. *)
Definition finish (env : Env) (l : Locals) (w : World) : CrawlResult.t * World :=
  let '(t, w) := now env w in
  let totalProcessingTime := t - startTime l in
  let total := Z.of_nat (length (results l)) in
  let successfulPages :=
    Z.of_nat (length (filter (fun r => PageResult.success r = true) (results l))) in
  let failedPages :=
    Z.of_nat (length (filter (fun r => PageResult.success r = false) (results l))) in
  let crawlResult :=
    {| CrawlResult.jobId := jobId l;
       CrawlResult.startUrl := startUrl l;
       CrawlResult.totalPages := total;
       CrawlResult.successfulPages := successfulPages;
       CrawlResult.failedPages := failedPages;
       CrawlResult.maxDepth := CrawlOptions.maxDepth (crawlOptions l);
       CrawlResult.maxDepthReached := maxDepthReached l;
       CrawlResult.totalProcessingTime := totalProcessingTime;
       CrawlResult.results := results l;
       CrawlResult.domainsVisited := domainsVisited l;
       CrawlResult.avgProcessingTimePerPage :=
         if 0 <? total
         then JS.div (JS.of_Z (sum_processingTime (results l))) (JS.of_Z total)
         else JS.of_Z 0;
       CrawlResult.successRate :=
         if 0 <? total
         then JS.mul (JS.div (JS.of_Z successfulPages) (JS.of_Z total)) (JS.of_Z 100)
         else JS.of_Z 0;
       CrawlResult.totalLinksDiscovered := totalLinksDiscovered l |} in
  let w := tracker_call env (progressTracker l) ProgressTracker.markCompleted w in
  let w := updateJobStatus (jobId l) completed (JS.of_Z 100) None w in
  (crawlResult, finally l w).

(** [error instanceof Error ? error.message : 'Unknown crawl error'], in
    the [catch] around the whole crawl. *)
Definition crawlErrorMessage_of (e : Thrown) : string :=
  match e with
  | ErrorObject message => message
  | OtherValue => "Unknown crawl error"
  end.

(** The [catch] around the whole crawl, followed by the [finally] block;
    the caught value is thrown again. *)
Definition abort (env : Env) (e : Thrown) (l : Locals) (w : World) : World :=
  let errorMessage := crawlErrorMessage_of e in
  let w :=
    tracker_call env (progressTracker l) (ProgressTracker.markFailed errorMessage) w in
  let w := updateJobStatus (jobId l) failed (JS.of_Z 0) (Some errorMessage) w in
  finally l w.

(** How the promise of [crawlMultiPage] is settled. *)
Inductive Outcome :=
| Resolved (crawlResult : CrawlResult.t)
| Rejected (e : Thrown).

Definition crawlMultiPage (fuel : nat) (env : Env) (jobId startUrl : string)
    (options : CrawlOptions.Raw) (progressCallback : option ProgressCallback)
    (w : World) : option (Outcome * World) :=
  let '(l, w) := start env jobId startUrl options w in
  match loop fuel env progressCallback l w with
  | Some (Normal l w) =>
      let '(crawlResult, w) := finish env l w in Some (Resolved crawlResult, w)
  | Some (Abrupt e l w) => Some (Rejected e, abort env e l w)
  | None => None
  end.

Definition cancelCrawlJob (env : Env) (jobId : string) (w : World) : bool * World :=
  match activeTrackers w !! jobId with
  | Some r =>
      let '(t, w) := now env w in
      let w :=
        mkWorld (db w) (delete jobId (activeTrackers w))
          (alter
             (fun tracker =>
                ProgressTracker.cleanup
                  (ProgressTracker.markFailed "Cancelled by user" t tracker))
             r (heap w))
          (ticks w) in
      (true,
       updateJobStatus jobId cancelled (JS.of_Z 0) (Some "Cancelled by user") w)
  | None => (false, w)
  end.

End CrawlingService.

(** ** crawling-service.ts and link-extractor.ts: from the links of a page
    to the URLs offered to the frontier *)

Module LinkPipeline.
Import LinkExtractor.

(** [l.slice(0, n)] *)
Definition slice0 {A} (n : Z) (l : list A) : list A :=
  if n <? 0 then take (length l - Z.to_nat (- n)) l else take (Z.to_nat n) l.

Section Pipeline.

(** The parts of the extractor that work on the text of a URL are
    parameters here: [parses baseUrl] says whether [new URL(baseUrl)]
    succeeds; [candidate baseUrl href] is the body of the loop of
    [extractLinks] for one link (the href resolved against the page, kept
    if it is an http(s) URL that [shouldIncludeLink] accepts; [None] where
    the link is skipped or its processing throws); [matchesPattern] is the
    glob test and [isValidCrawlUrl] the final check. *)
Variable parses : string → bool.
Variable candidate : string → string → option string.
Variable matchesPattern : string → string → bool.
Variable isValidCrawlUrl : string → bool.

Definition extractLinks (links : list string) (baseUrl : string)
    (maxLinksPerPage : option Z) : list string :=
  if parses baseUrl then
    let extractedLinks := omap (candidate baseUrl) links in
    let maxLinks := JS.or_default maxLinksPerPage 50 in
    slice0 maxLinks extractedLinks
  else [].

Definition filterLinksByPatterns (links includePatterns excludePatterns : list string)
  : list string :=
  let filteredLinks := links in
  let filteredLinks :=
    match includePatterns with
    | [] => filteredLinks
    | _ =>
        filter
          (fun link => existsb (fun pattern => matchesPattern link pattern) includePatterns
                       = true)
          filteredLinks
    end in
  match excludePatterns with
  | [] => filteredLinks
  | _ =>
      filter
        (fun link => negb (existsb (fun pattern => matchesPattern link pattern)
                             excludePatterns) = true)
        filteredLinks
  end.

(** [respectsRobotsTxt]: not implemented, every URL is allowed. *)
Definition respectsRobotsTxt (url : string) : bool := true.

(** [extractAndFilterLinks]; [links] is [scrapeResult.links], [None] when it
    is undefined.  (Where the source catches an error it returns the empty
    list.) *)
Definition extractAndFilterLinks (links : option (list string)) (currentUrl : string)
    (includePatterns excludePatterns : list string) (respectRobots : bool)
  : list string :=
  match links with
  | None | Some [] => []
  | Some links =>
      let discoveredLinks := extractLinks links currentUrl (Some 20) in
      let discoveredLinks :=
        filterLinksByPatterns discoveredLinks includePatterns excludePatterns in
      let discoveredLinks := deduplicateLinks discoveredLinks in
      let discoveredLinks :=
        filter (fun url => isValidCrawlUrl url = true) discoveredLinks in
      if respectRobots
      then filter (fun link => respectsRobotsTxt link = true) discoveredLinks
      else discoveredLinks
  end.

End Pipeline.

End LinkPipeline.

(** ** scraping-service.ts: the rest of the pool and its user [scrapePage] *)

Module BrowserPool.
Import BrowserInstance BrowserManager.

Record Stats := mkStats {
  total : Z;
  stats_inUse : Z;
  available : Z;
  stats_maxInstances : Z
}.

Definition getStats (m : BrowserManager.t) : Stats :=
  fold_left
    (fun stats e =>
       if inUse (snd e)
       then mkStats (total stats) (stats_inUse stats + 1) (available stats)
              (stats_maxInstances stats)
       else mkStats (total stats) (stats_inUse stats) (available stats + 1)
              (stats_maxInstances stats))
    (instances m)
    (mkStats (size m) 0 0 (maxInstances m)).

(** [closeAllBrowsers]: every instance is closed, then the map is cleared,
    whether or not a [close()] threw. *)
Definition closeAllBrowsers (m : BrowserManager.t) : BrowserManager.t :=
  let m := fold_left (fun m id => closeBrowser id m) (map fst (instances m)) m in
  with_instances [] m.

(** What [createPage] gives back: the page and the identifier of its
    browser, or the error it throws. *)
Inductive PageHandle :=
| PageOf (browserId : string)
| NoPage (message : string).

(** [createPage(browserId?)].  [newPage] is [Some message] when
    [browser.newPage()] throws; [now] is the time of the acquisition,
    [later] the time at which a failed one is released. *)
Definition createPage (browserId : option string) (e : Launch)
    (newPage : option string) (now later : Z) (m : BrowserManager.t)
  : PageHandle * BrowserManager.t :=
  let '(acquired, m) :=
    match browserId with
    | Some (String _ _ as id) =>
        match map_get id (instances m) with
        | Some instance =>
            (Returned id,
             with_instances
               (map_set id
                  (BrowserInstance.mk (browser instance) (inUse instance)
                     (createdAt instance) now)
                  (instances m)) m)
        | None => getBrowser e now m
        end
    | _ => getBrowser e now m
    end in
  match acquired with
  | Returned id =>
      match newPage with
      | None => (PageOf id, m)
      | Some message => (NoPage message, releaseBrowser id later m)
      end
  | Threw message => (NoPage message, m)
  | _ => (NoPage EmptyString, m)
  end.

(** How a call of [scrapePage] goes, as far as the pool can tell. *)
Inductive Run :=
| VpnRefused                  (* [checkVpnRequirements] throws *)
| NoNewPage (message : string) (* [browser.newPage()] throws *)
| Worked (ok : bool).          (* the page exists; the scrape succeeds or throws *)

(** [ScrapingService.scrapePage], pool side: whether it resolves, and the
    pool after its [finally] block. *)
Definition scrapePage (e : Launch) (run : Run) (now later : Z) (m : BrowserManager.t)
  : bool * BrowserManager.t :=
  match run with
  | VpnRefused => (false, m)
  | NoNewPage message =>
      let '(_, m) := createPage None e (Some message) now later m in
      (false, m)
  | Worked ok =>
      match createPage None e None now later m with
      | (PageOf id, m) => (ok, releaseBrowser id later m)
      | (NoPage _, m) => (false, m)
      end
  end.

End BrowserPool.

(** ** job-manager.ts: adding a job; routes/crawl.ts *)

Module JobQueue.
Import Database JobManager.

(** How an asynchronous call ends. *)
Inductive Outcome (A : Type) :=
| Resolved (value : A)
| Rejected (message : string).
Arguments Resolved {A} value.
Arguments Rejected {A} message.

Definition duplicate_key : string :=
  "duplicate key value violates unique constraint jobs_pkey".

(** [INSERT INTO jobs (id, type, status, url, options, created_at)] with
    status [pending].  [id] is the primary key of the table (init-db.sql):
    a second row with the same id is refused, and [database.query] rethrows
    the error.  The other columns take their defaults. *)
Definition insert_job (id : string) (jobType : JobType) (d : Database.t)
  : option Database.t :=
  match jobs d !! id with
  | Some _ => None
  | None =>
      Some (Database.mk (<[id := mkJob jobType pending (JS.of_Z 0) None 0 None]> (jobs d))
              (pages d))
  end.

(** [queue.add(name, data, { jobId })]: BullMQ ignores a job whose id the
    queue already holds. *)
Definition queue_add (jobId : string) (queue : gmap string BullJob)
  : gmap string BullJob :=
  match queue !! jobId with
  | Some _ => queue
  | None => <[jobId := mkBullJob false]> queue
  end.

(** [payload.id || uuidv4()]: the empty string is falsy. *)
Definition jobId_of (payload_id uuid : string) : string :=
  match payload_id with
  | EmptyString => uuid
  | _ => payload_id
  end.

(** [addJob]; the priority and the delay of the queue entry are not
    modelled, and [queue.add] (Redis) is taken to succeed. *)
Definition addJob (payload_id : string) (jobType : JobType) (uuid : string)
    (s : JobManager.t) : Outcome string * JobManager.t :=
  let jobId := jobId_of payload_id uuid in
  let queueName := getQueueName jobType in
  match queues s !! queueName with
  | None => (Rejected ("Queue not found: " ++ queueName), s)
  | Some queue =>
      match insert_job jobId jobType (db s) with
      | None => (Rejected duplicate_key, s)
      | Some d =>
          (Resolved jobId,
           JobManager.mk (<[queueName := queue_add jobId queue]> (queues s)) d)
      end
  end.

(** [handleJobProgress], the worker's [progress] event. *)
Definition handleJobProgress (jobId : string) (progress : float) (s : JobManager.t)
  : JobManager.t :=
  updateJobStatus jobId processing (Some progress) None s.

End JobQueue.

Module CrawlRoutes.
Import Database JobManager JobQueue.

(** What the routes answer: the HTTP status and, for a job that was found,
    what the body says of it. *)
Record JobView := mkJobView {
  view_status : JobStatus;
  view_progress : float;
  totalPages : Z;
  successfulPages : Z;
  pages_listed : option (list PageRow)
}.

Record Response := mkResponse {
  code : Z;
  body : option JobView
}.

(** [POST /crawl], the request validated; [uuid] is what the route's
    [uuidv4()] draws, [uuid'] what the one of [addJob] would draw. *)
Definition post_crawl (uuid uuid' : string) (s : JobManager.t) : Response * JobManager.t :=
  match insert_job uuid crawl (db s) with
  | None => (mkResponse 500 None, s)
  | Some d =>
      let s := JobManager.mk (queues s) d in
      match addJob uuid crawl uuid' s with
      | (Resolved _, s) => (mkResponse 202 None, s)
      | (Rejected _, s) => (mkResponse 500 None, s)
      end
  end.

(** [GET /crawl/:jobId].  The rows are listed in the order of insertion,
    which is the order of [scraped_at]; of each row the route selects a
    subset of the columns. *)
Definition get_crawl (jobId : string) (d : Database.t) : Response :=
  match jobs d !! jobId with
  | None => mkResponse 404 None
  | Some job =>
      let rows := filter (fun p => job_id p = jobId) (pages d) in
      mkResponse 200
        (Some
           (mkJobView (status job) (progress job)
              (Z.of_nat (length rows))
              (Z.of_nat (length (filter (fun p => status_code p = 200) rows)))
              (match status job with
               | completed => Some rows
               | _ => None
               end)))
  end.

(** [DELETE /crawl/:jobId]:
    [UPDATE jobs SET status = 'cancelled' WHERE id = $2 AND status IN
    ('pending', 'processing') RETURNING *]. *)
Definition delete_crawl (jobId : string) (d : Database.t) : Response * Database.t :=
  match jobs d !! jobId with
  | Some job =>
      match status job with
      | pending | processing =>
          (mkResponse 200 None,
           update_job jobId
             (fun row =>
                mkJob (type row) cancelled (progress row) (current_url row)
                  (pages_crawled row) (error_message row))
             d)
      | _ => (mkResponse 404 None, d)
      end
  | None => (mkResponse 404 None, d)
  end.

End CrawlRoutes.

(* ===================================================================== *)
(** * Specifications                                                      *)
(* ===================================================================== *)

(** The predicates and observations in which the properties below are
    stated. *)

Module ProgressTrackerSpec.
Import CrawlProgress ProgressTracker.

(** The part of a snapshot that counts pages. *)
Definition counters (tr : ProgressTracker.t)
  : Z * Z * Z * list ProgressError.t :=
  let p := progress tr in
  (pagesProcessed p, pagesSuccessful p, pagesFailed p, errors p).

(** The part that [calculateProgress] derives. *)
Definition metrics (tr : ProgressTracker.t) : float * float * option float :=
  let p := progress tr in
  (progressPercentage p, pagesPerMinute p, estimatedTimeRemaining p).

(** What an event does to the page counters. *)
Definition count (ev : Event) (now : Z) (tr : ProgressTracker.t)
  : Z * Z * Z * list ProgressError.t :=
  let p := progress tr in
  match ev with
  | PageCompleted _ _ =>
      (pagesProcessed p + 1, pagesSuccessful p + 1, pagesFailed p, errors p)
  | PageFailed url error =>
      (pagesProcessed p + 1, pagesSuccessful p, pagesFailed p + 1,
       (errors p ++ [ProgressError.mk url error now (currentDepth p)])%list)
  | _ => counters tr
  end.

(** The page counters agree with each other and with the error list. *)
Definition consistent (tr : ProgressTracker.t) : Prop :=
  let p := progress tr in
  pagesProcessed p = pagesSuccessful p + pagesFailed p
  ∧ Z.of_nat (length (errors p)) = pagesFailed p.

(** What [calculateProgress] leaves in the snapshot of [tr'], given the
    snapshot [tr] it started from: the percentage is recomputed always,
    the rate only when some time has elapsed, the estimate only under its
    three conditions; what is not recomputed keeps its previous value. *)
Definition derived (tr tr' : ProgressTracker.t) : Prop :=
  let p := progress tr in
  let p' := progress tr' in
  let processed := pagesProcessed p' in
  progressPercentage p' = percentage_of processed (maxPages p')
  ∧ pagesPerMinute p' =
      (if JS.gt (elapsedMinutes_of p') (JS.of_Z 0)
       then JS.round (JS.div (JS.of_Z processed) (elapsedMinutes_of p'))
       else pagesPerMinute p)
  ∧ estimatedTimeRemaining p' =
      (if ProgressTrackerOptions.useSmartEstimation (options tr')
          && (ProgressTrackerOptions.minPagesForEstimation (options tr') <=? processed)
          && JS.gt (pagesPerMinute p') (JS.of_Z 0)
       then Some (eta_of processed (maxPages p') (pagesPerMinute p'))
       else estimatedTimeRemaining p).

(** The estimate exists only past the sample threshold. *)
Definition eta_guarded (tr : ProgressTracker.t) : Prop :=
  let p := progress tr in
  estimatedTimeRemaining p = None
  ∨ (ProgressTrackerOptions.useSmartEstimation (options tr) = true
     ∧ ProgressTrackerOptions.minPagesForEstimation (options tr) ≤ pagesProcessed p).

End ProgressTrackerSpec.

Module BrowserManagerSpec.
Import BrowserInstance BrowserManager.

(** The pool [getBrowser] works on once it has made room. *)
Definition after_cleanup (now : Z) (m : BrowserManager.t) : BrowserManager.t :=
  if maxInstances m <=? size m then cleanupOldInstances now m else m.

End BrowserManagerSpec.

Module CrawlingServiceSpec.
Import CrawlingService.

(** The states of the [while] loop, from a given one on: those reached by
    iterations that run to their end. *)
Inductive reachable (env : Env) (progressCallback : option ProgressCallback)
    (l0 : Locals) (w0 : World) : Locals → World → Prop :=
| reach_here : reachable env progressCallback l0 w0 l0 w0
| reach_iteration l w l' w' :
    reachable env progressCallback l0 w0 l w →
    continues l = true →
    iteration env progressCallback l w = Normal l' w' →
    reachable env progressCallback l0 w0 l' w'.

(** The state an iteration leaves when the legacy report does not reject:
    the report changes no state, so this is the iteration of a crawl
    without one. *)
Definition step (env : Env) (l : Locals) (w : World) : Locals * World :=
  match iteration env None l w with
  | Normal l' w' => (l', w')
  | Abrupt _ l' w' => (l', w')
  end.

Definition maxDepth_of (l : Locals) : Q := CrawlOptions.maxDepth (crawlOptions l).

Definition maxPages_of (l : Locals) : Q := CrawlOptions.maxPages (crawlOptions l).

Definition processed (l : Locals) : Z := Z.of_nat (length (results l)).

Definition urls_of (rs : list PageResult.t) : list string := map PageResult.url rs.

(** What never changes during a crawl. *)
Definition same_job (l l' : Locals) : Prop :=
  jobId l' = jobId l ∧ startUrl l' = startUrl l ∧ crawlOptions l' = crawlOptions l
  ∧ progressTracker l' = progressTracker l.

(** What one iteration does to the local variables: the front entry
    [(url, depth)] leaves the frontier; it is skipped, or it is crawled and
    gives exactly one page result. *)
Definition skipped (l l' : Locals) (url : string) (depth : Z)
    (rest : list (string * Z)) : Prop :=
  (url ∈ crawled l ∨ (maxDepth_of l < inject_Z depth)%Q)
  ∧ crawled l' = crawled l ∧ results l' = results l ∧ toCrawl l' = rest.

Definition crawled_page (a : Attempt) (l l' : Locals) (url : string) (depth : Z)
    (rest : list (string * Z)) : Prop :=
  (url ∉ crawled l) ∧ (inject_Z depth <= maxDepth_of l)%Q
  ∧ crawled l' = {[url]} ∪ crawled l
  ∧ ∃ pr, results l' = (results l ++ [pr])%list
      ∧ PageResult.url pr = url ∧ PageResult.depth pr = depth
      ∧ PageResult.pageNumber pr = processed l + 1
      ∧ match a with
        | Scraped sr links =>
            PageResult.success pr = true ∧ PageResult.error pr = None
            ∧ toCrawl l' =
                if JS.lt_Q (inject_Z depth) (maxDepth_of l)
                then (enqueue ({[url]} ∪ crawled l) depth links rest).1
                else rest
        | Threw e =>
            PageResult.success pr = false
            ∧ PageResult.error pr = Some (errorMessage_of e)
            ∧ toCrawl l' = rest
        end.

Record invariant (l : Locals) : Prop := {
  frontier_nodup : NoDup (toCrawl l).*1;
  frontier_fresh : ∀ u, u ∈ (toCrawl l).*1 → u ∉ crawled l;
  results_nodup : NoDup (urls_of (results l));
  results_crawled : ∀ u, u ∈ urls_of (results l) ↔ u ∈ crawled l;
  results_depth :
    Forall (fun r => (inject_Z (PageResult.depth r) <= maxDepth_of l)%Q) (results l);
  frontier_depth :
    Forall (fun e => e = (startUrl l, 0) ∨ (inject_Z (e.2 - 1) < maxDepth_of l)%Q)
      (toCrawl l);
  results_budget : processed l ≤ Z.max 0 (Qceiling (maxPages_of l))
}.

(** The row [storePageResult] inserts for a page. *)
Definition page_row (jobId0 : string) (pr : PageResult.t) : Database.PageRow :=
  Database.mkPage jobId0 (PageResult.url pr)
    (match PageResult.scrapeResult pr with
     | Some sr => nonempty (Some (ScrapeResult.title sr))
     | None => None
     end)
    (PageResult.depth pr)
    (match PageResult.scrapeResult pr with
     | Some sr =>
         if ScrapeResult.statusCode sr =? 0
         then (if truthy (PageResult.error pr) then 0 else 200)
         else ScrapeResult.statusCode sr
     | None => if truthy (PageResult.error pr) then 0 else 200
     end)
    (PageResult.linksFound pr)
    (match PageResult.scrapeResult pr with
     | Some sr => ScrapeResult.responseTime sr
     | None => 0
     end)
    (nonempty (PageResult.error pr)).

(** What the tracker of the crawl has counted once a page is done. *)
Definition page_counted (pr : PageResult.t) (tr tr' : ProgressTracker.t) : Prop :=
  let p := ProgressTracker.progress tr in
  let p' := ProgressTracker.progress tr' in
  CrawlProgress.pagesProcessed p' = CrawlProgress.pagesProcessed p + 1
  ∧ match PageResult.error pr with
    | None =>
        CrawlProgress.pagesFailed p' = CrawlProgress.pagesFailed p
        ∧ CrawlProgress.errors p' = CrawlProgress.errors p
    | Some message =>
        CrawlProgress.pagesFailed p' = CrawlProgress.pagesFailed p + 1
        ∧ ∃ t, CrawlProgress.errors p'
               = (CrawlProgress.errors p
                  ++ [ProgressError.mk (PageResult.url pr) message t
                        (PageResult.depth pr)])%list
    end.

(** The rows a crawl has inserted for its page results: one for each, if
    the job has a row in [jobs]; none otherwise. *)
Definition stored (jobs : gmap string Database.JobRow) (jobId0 : string)
    (rs : list PageResult.t) : list Database.PageRow :=
  match jobs !! jobId0 with
  | Some _ => map (page_row jobId0) rs
  | None => []
  end.

(** What holds of the shared state while a crawl started in [w0] runs: the
    rows it has inserted are those of its page results, and its tracker has
    counted as many pages as there are results. *)
Record world_invariant (pages0 : list Database.PageRow) (l : Locals) (w : World)
  : Prop := {
  pages_are_results :
    Database.pages (db w)
    = (pages0 ++ stored (Database.jobs (db w)) (jobId l) (results l))%list;
  tracker_counts :
    ∀ r, progressTracker l = Some r →
      ∃ tr, heap w !! r = Some tr
            ∧ CrawlProgress.pagesProcessed (ProgressTracker.progress tr) = processed l
}.

(** A site of three pages: the seed links to [/a] twice and to [/b]; [/a]
    times out; [/b] links back to the seed. *)
Definition demo_env : Env :=
  mkEnv
    (fun _ url =>
       if decide (url = "https://example.com/")
       then Scraped (ScrapeResult.mk "Home" 200 120)
              ["https://example.com/a"; "https://example.com/b"; "https://example.com/a"]
       else if decide (url = "https://example.com/a")
       then Threw (ErrorObject "Navigation timeout of 30000 ms exceeded")
       else Scraped (ScrapeResult.mk "B" 200 80) ["https://example.com/"])
    (fun n => 1000 * Z.of_nat n).

Definition demo_options : CrawlOptions.Raw :=
  CrawlOptions.mkRaw (Some 1%Q) (Some 5%Q) None None None None None.

Definition demo_world : World :=
  mkWorld
    (Database.mk
       {[ "job-1" :=
            Database.mkJob Database.crawl Database.pending (JS.of_Z 0) None 0 None ]}
       [])
    ∅ ∅ 0.

(** The same options with limits that are not whole numbers. *)
Definition fractional_budget : CrawlOptions.Raw :=
  CrawlOptions.mkRaw (Some 1%Q) (Some (5 # 2)%Q) None None None None None.

Definition fractional_depth : CrawlOptions.Raw :=
  CrawlOptions.mkRaw (Some (3 # 2)%Q) (Some 5%Q) None None None None None.

(** A site that is a chain: the seed links to [/a], [/a] to [/b], [/b] to
    nothing. *)
Definition chain_env : Env :=
  mkEnv
    (fun _ url =>
       if decide (url = "https://example.com/")
       then Scraped (ScrapeResult.mk "Home" 200 120) ["https://example.com/a"]
       else if decide (url = "https://example.com/a")
       then Scraped (ScrapeResult.mk "A" 200 90) ["https://example.com/b"]
       else Scraped (ScrapeResult.mk "B" 200 80) [])
    (fun n => 1000 * Z.of_nat n).




(** What a client sees of a crawl that is cancelled while its first page is
    in flight: the answer of [cancelCrawlJob], the job status right after
    it, then, once the crawl has returned, the number of page attempts made
    after the cancellation, the job status and the tracker's status. *)
Record Observed := mkObserved {
  cancel_returned : bool;
  status_after_cancel : option Database.JobStatus;
  attempts_after_cancel : Z;
  final_status : option Database.JobStatus;
  final_tracker_status : option CrawlProgress.Status
}.

Definition cancel_during_first_page (fuel : nat) (env : Env) (jobId0 startUrl0 : string)
    (options : CrawlOptions.Raw) (progressCallback : option ProgressCallback)
    (w : World) : option Observed :=
  let '(l, w) := start env jobId0 startUrl0 options w in
  match begin_iteration env progressCallback l w with
  | Skipped _ => None
  | ReportRejected _ _ _ => None
  | InFlight url depth pageNumber pageStartTime l w =>
      let '(answer, w) := cancelCrawlJob env jobId0 w in
      let status1 := Database.status_of jobId0 (db w) in
      let '(l, w) :=
        finish_page env url depth pageNumber pageStartTime
          (attempt env pageNumber url) l w in
      match loop fuel env progressCallback l w with
      | None => None
      | Some (Abrupt _ _ _) => None
      | Some (Normal l w) =>
          let '(result, w') := finish env l w in
          Some
            {| cancel_returned := answer;
               status_after_cancel := status1;
               attempts_after_cancel := CrawlResult.totalPages result - 1;
               final_status := Database.status_of jobId0 (db w');
               final_tracker_status :=
                 match progressTracker l with
                 | Some r =>
                     (fun tr => CrawlProgress.status (ProgressTracker.progress tr))
                       <$> heap w' !! r
                 | None => None
                 end |}
      end
  end.

End CrawlingServiceSpec.

(** ** Event logs of a tracker *)

Module TrackerLog.
Import CrawlProgress ProgressTracker.

Definition is_started (ev : Event) : bool :=
  match ev with StartProcessingPage _ _ => true | _ => false end.

Definition is_completed (ev : Event) : bool :=
  match ev with PageCompleted _ _ => true | _ => false end.

Definition is_failed (ev : Event) : bool :=
  match ev with PageFailed _ _ => true | _ => false end.

(** How many events of a kind a log holds. *)
Fixpoint occurrences (kind : Event → bool) (evs : list (Event * Z)) : Z :=
  match evs with
  | [] => 0
  | (ev, _) :: evs => (if kind ev then 1 else 0) + occurrences kind evs
  end.

(** The failures of a log, in order: URL, message and the time of the event. *)
Fixpoint failures (evs : list (Event * Z)) : list (string * string * Z) :=
  match evs with
  | [] => []
  | (PageFailed url error, now) :: evs => (url, error, now) :: failures evs
  | _ :: evs => failures evs
  end.

Definition reported (e : ProgressError.t) : string * string * Z :=
  (ProgressError.url e, ProgressError.error e, ProgressError.timestamp e).

(** The status an event leaves, given the one it finds. *)
Definition status_after (s : Status) (ev : Event) : Status :=
  match ev with
  | StartProcessingPage _ _ => crawling
  | MarkCompleted => completed
  | MarkFailed _ => failed
  | _ => s
  end.

(** A tracker that has not written to stdout and cannot. *)
Definition silent (tr : ProgressTracker.t) : Prop :=
  ProgressTrackerOptions.enableStdoutUpdates (options tr) = false
  ∧ stdoutUpdateTimer tr = false
  ∧ stdoutMessageCount (progress tr) = 0.

End TrackerLog.

(** ** Characters of a URL *)

Module UrlText.


(** The rebuilt query, name by name. *)
Definition regrouped (names : list string) (params : URLSearchParams.t)
  : URLSearchParams.t :=
  flat_map
    (fun name => map (fun value => (name, value)) (URLSearchParams.getAll name params))
    names.

End UrlText.

Module BrowserPoolSpec.
Import BrowserInstance BrowserManager BrowserPool.

Definition keys (m : BrowserManager.t) : list string := map fst (instances m).

(** The instances in use, in the order of the map. *)
Definition busy (m : BrowserManager.t) : list (string * BrowserInstance.t) :=
  filter (fun e => inUse (snd e) = true) (instances m).

(** An instance [cleanupOldInstances] closes and removes: idle, unused for
    more than 30 minutes, and with a [close()] that does not throw. *)
Definition closable (now : Z) (e : string * BrowserInstance.t) : bool :=
  negb (inUse (snd e)) && (maxAge <? now - lastUsed (snd e))
  && negb (closeThrows (browser (snd e))).

(** Whether the pass of [cleanupOldInstances] over [es] removes the entry
    with the key of [x]. *)
Definition doomed (now : Z) (es : list (string * BrowserInstance.t))
    (x : string * BrowserInstance.t) : bool :=
  existsb (fun e => closable now e && bool_decide (fst e = fst x)) es.

(** The operations of the pool, each run to its end before the next. *)
Inductive Op :=
| Get (e : Launch)
| Release (browserId : string)
| Close (browserId : string)
| HealthCheck
| Scrape (e : Launch) (run : Run) (later : Z)
| Page (browserId : option string) (e : Launch) (newPage : option string) (later : Z)
| CloseAll.

Definition apply (now : Z) (op : Op) (m : BrowserManager.t) : BrowserManager.t :=
  match op with
  | Get e => snd (getBrowser e now m)
  | Release id => releaseBrowser id now m
  | Close id => closeBrowser id m
  | HealthCheck => healthCheck m
  | Scrape e run later => snd (scrapePage e run now later m)
  | Page id e newPage later => snd (createPage id e newPage now later m)
  | CloseAll => closeAllBrowsers m
  end.

Definition run_ops (ops : list (Z * Op)) (m : BrowserManager.t) : BrowserManager.t :=
  fold_left (fun m op => apply (fst op) (snd op) m) ops m.

End BrowserPoolSpec.

Module JobStatusSpec.
Import Database.


End JobStatusSpec.

(** ** The figures and the order of a crawl *)

Module CrawlSummarySpec.
Import CrawlingService CrawlingServiceSpec.

Definition depths (rs : list PageResult.t) : list Z := map PageResult.depth rs.

Definition failed_urls (rs : list PageResult.t) : list string :=
  map PageResult.url (filter (fun r => PageResult.success r = false) rs).

Definition links_total (rs : list PageResult.t) : Z :=
  foldr (fun r sum => PageResult.linksFound r + sum) 0 rs.

Definition deepest (rs : list PageResult.t) : Z :=
  foldr (fun r d => Z.max (PageResult.depth r) d) 0 rs.

(** What the counters of an activation say of its page results. *)
Record summary (l : Locals) : Prop := {
  summary_numbers :
    ∀ (i : nat) r, results l !! i = Some r → PageResult.pageNumber r = Z.of_nat i + 1;
  summary_failed : failedUrls l = failed_urls (results l);
  summary_links : totalLinksDiscovered l = links_total (results l);
  summary_deepest : maxDepthReached l = deepest (results l);
  summary_outcomes :
    Forall
      (fun r =>
         if PageResult.success r
         then PageResult.error r = None ∧ is_Some (PageResult.scrapeResult r)
         else is_Some (PageResult.error r) ∧ PageResult.scrapeResult r = None
              ∧ PageResult.linksFound r = 0)
      (results l)
}.

(** The traversal is breadth first: [d] is the depth of the entry popped
    last. *)
Record breadth_first (d : Z) (l : Locals) : Prop := {
  bf_results : StronglySorted Z.le (depths (results l));
  bf_done : Forall (fun r => PageResult.depth r ≤ d) (results l);
  bf_frontier : StronglySorted Z.le (map snd (toCrawl l));
  bf_window : Forall (fun e => d ≤ snd e ≤ d + 1) (toCrawl l)
}.


End CrawlSummarySpec.

(* ===================================================================== *)
(** * Properties                                                          *)
(* ===================================================================== *)

(** ** The progress tracker *)

Module ProgressTrackerFacts.
Import CrawlProgress ProgressTracker.
Import ProgressTrackerSpec.

Lemma calculateProgress_counters tr :
  counters (calculateProgress tr) = counters tr.
Proof.
  unfold calculateProgress, counters. simpl.
  repeat match goal with |- context [if ?b then _ else _] => destruct b end;
    reflexivity.
Qed.

Lemma emitUpdate_counters b tr : counters (emitUpdate b tr) = counters tr.
Proof. unfold emitUpdate, outputToStdout. destruct (_ && _); reflexivity. Qed.

Lemma stopStdoutUpdates_counters tr : counters (stopStdoutUpdates tr) = counters tr.
Proof. reflexivity. Qed.

Lemma emitUpdate_metrics b tr : metrics (emitUpdate b tr) = metrics tr.
Proof. unfold emitUpdate, outputToStdout. destruct (_ && _); reflexivity. Qed.

Lemma emitUpdate_options b tr : options (emitUpdate b tr) = options tr.
Proof. unfold emitUpdate, outputToStdout. destruct (_ && _); reflexivity. Qed.

Lemma calculateProgress_options tr : options (calculateProgress tr) = options tr.
Proof. reflexivity. Qed.

Lemma stopStdoutUpdates_options tr : options (stopStdoutUpdates tr) = options tr.
Proof. reflexivity. Qed.

Lemma handle_options ev now tr : options (handle ev now tr) = options tr.
Proof.
  destruct ev; simpl;
    unfold startProcessingPage, pageCompleted, pageFailed, urlsDiscovered,
      updateQueueStatus, markCompleted, markFailed, stdoutTimerFired;
    rewrite ?stopStdoutUpdates_options, ?emitUpdate_options,
      ?calculateProgress_options;
    try reflexivity.
  destruct (_ && _); reflexivity.
Qed.

Lemma handle_counters ev now tr : counters (handle ev now tr) = count ev now tr.
Proof.
  destruct ev; simpl;
    unfold startProcessingPage, pageCompleted, pageFailed, urlsDiscovered,
      updateQueueStatus, markCompleted, markFailed, stdoutTimerFired;
    rewrite ?stopStdoutUpdates_counters, ?emitUpdate_counters,
      ?calculateProgress_counters;
    try reflexivity.
  - destruct (0 <? linksFound); reflexivity.
  - destruct (_ && _); reflexivity.
Qed.

Lemma new_consistent o now : consistent (new o now).
Proof. split; reflexivity. Qed.

Lemma handle_consistent ev now tr : consistent tr → consistent (handle ev now tr).
Proof.
  unfold consistent. intros [Hsum Herr].
  pose proof (handle_counters ev now tr) as H.
  unfold counters in H.
  remember (progress (handle ev now tr)) as p' eqn:Hp'. clear Hp'.
  destruct ev; simpl in H; injection H as H1 H2 H3 H4;
    rewrite H1, H2, H3, H4, ?length_app; simpl; lia.
Qed.

Lemma run_consistent evs tr : consistent tr → consistent (run evs tr).
Proof.
  revert tr. induction evs as [|[ev now] evs IH]; intros tr H; simpl.
  - exact H.
  - apply IH, handle_consistent, H.
Qed.

(** C10.  In every state of a tracker reached from its construction by any
    sequence of its events, the pages processed are the successful plus
    the failed ones, and the error list has one entry per failed page. *)
Theorem C10_processed_is_successful_plus_failed
    (o : ProgressTrackerOptions.t) (now0 : Z) (evs : list (Event * Z)) :
  let p := progress (run evs (new o now0)) in
  pagesProcessed p = pagesSuccessful p + pagesFailed p
  ∧ Z.of_nat (length (errors p)) = pagesFailed p.
Proof. apply run_consistent, new_consistent. Qed.

(** *** Derived metrics *)

Ltac split_ifs :=
  repeat match goal with
    | |- context [if ?b then _ else _] => destruct b eqn:?; simpl
    end.

(** [calculateProgress] writes the three metrics and the phase only. *)
Lemma calculateProgress_inputs tr :
  let p := progress tr in
  let p' := progress (calculateProgress tr) in
  pagesProcessed p' = pagesProcessed p ∧ maxPages p' = maxPages p
  ∧ elapsedMinutes_of p' = elapsedMinutes_of p.
Proof.
  unfold calculateProgress, elapsedMinutes_of. simpl. split_ifs; auto.
Qed.

Lemma calculateProgress_percentage tr :
  progressPercentage (progress (calculateProgress tr))
  = percentage_of (pagesProcessed (progress tr)) (maxPages (progress tr)).
Proof. unfold calculateProgress. simpl. split_ifs; reflexivity. Qed.

Lemma calculateProgress_rate tr :
  pagesPerMinute (progress (calculateProgress tr))
  = if JS.gt (elapsedMinutes_of (progress tr)) (JS.of_Z 0)
    then JS.round (JS.div (JS.of_Z (pagesProcessed (progress tr)))
                     (elapsedMinutes_of (progress tr)))
    else pagesPerMinute (progress tr).
Proof.
  unfold calculateProgress, elapsedMinutes_of. simpl.
  destruct (JS.gt (JS.div _ _) _); simpl; split_ifs; reflexivity.
Qed.

Lemma calculateProgress_estimate tr :
  estimatedTimeRemaining (progress (calculateProgress tr))
  = if ProgressTrackerOptions.useSmartEstimation (options tr)
       && (ProgressTrackerOptions.minPagesForEstimation (options tr)
             <=? pagesProcessed (progress tr))
       && JS.gt (pagesPerMinute (progress (calculateProgress tr))) (JS.of_Z 0)
    then Some (eta_of (pagesProcessed (progress tr)) (maxPages (progress tr))
                 (pagesPerMinute (progress (calculateProgress tr))))
    else estimatedTimeRemaining (progress tr).
Proof.
  rewrite calculateProgress_rate.
  unfold calculateProgress, elapsedMinutes_of. simpl.
  destruct (JS.gt (JS.div _ _) _); simpl;
    (destruct (_ && _ && _); simpl; split_ifs; reflexivity).
Qed.

Lemma calculateProgress_derived tr0 tr :
  metrics tr = metrics tr0 → derived tr0 (calculateProgress tr).
Proof.
  unfold metrics. intros H. injection H as _ Hppm Heta.
  unfold derived.
  destruct (calculateProgress_inputs tr) as (-> & -> & ->).
  rewrite calculateProgress_percentage, calculateProgress_estimate,
    calculateProgress_rate, calculateProgress_options, Hppm, Heta.
  auto.
Qed.
Lemma emitUpdate_derived b tr0 tr : derived tr0 tr → derived tr0 (emitUpdate b tr).
Proof. unfold emitUpdate, outputToStdout. destruct (_ && _); auto. Qed.

Lemma calculateProgress_eta_guarded tr :
  eta_guarded tr → eta_guarded (calculateProgress tr).
Proof.
  unfold eta_guarded, calculateProgress. simpl. intros H.
  destruct (_ && _ && _) eqn:Hc; simpl.
  - right. apply andb_prop in Hc as [Hc _]. apply andb_prop in Hc as [Hs Hm].
    split; [exact Hs|]. apply Z.leb_le in Hm.
    split_ifs; exact Hm.
  - split_ifs; exact H.
Qed.

Lemma emitUpdate_eta_guarded b tr : eta_guarded tr → eta_guarded (emitUpdate b tr).
Proof. unfold emitUpdate, outputToStdout. destruct (_ && _); auto. Qed.

Lemma eta_guarded_mono tr tr' :
  options tr' = options tr →
  estimatedTimeRemaining (progress tr') = estimatedTimeRemaining (progress tr) →
  pagesProcessed (progress tr) ≤ pagesProcessed (progress tr') →
  eta_guarded tr → eta_guarded tr'.
Proof.
  unfold eta_guarded. intros -> -> Hle [H|[H1 H2]]; [left|right]; auto.
  split; [exact H1|lia].
Qed.

Lemma handle_eta_guarded ev now tr : eta_guarded tr → eta_guarded (handle ev now tr).
Proof.
  intros H. destruct ev; simpl;
    unfold startProcessingPage, pageCompleted, pageFailed, urlsDiscovered,
      updateQueueStatus, markCompleted, markFailed, stdoutTimerFired.
  - apply emitUpdate_eta_guarded, calculateProgress_eta_guarded.
    revert H. apply eta_guarded_mono; simpl; auto; lia.
  - apply emitUpdate_eta_guarded, calculateProgress_eta_guarded.
    revert H. apply eta_guarded_mono; simpl; auto;
      destruct (0 <? linksFound); simpl; auto; lia.
  - apply emitUpdate_eta_guarded, calculateProgress_eta_guarded.
    revert H. apply eta_guarded_mono; simpl; auto; lia.
  - apply emitUpdate_eta_guarded.
    revert H. apply eta_guarded_mono; simpl; auto; lia.
  - apply calculateProgress_eta_guarded.
    revert H. apply eta_guarded_mono; simpl; auto; lia.
  - revert H. apply eta_guarded_mono; simpl;
      rewrite ?emitUpdate_options; auto;
      unfold emitUpdate, outputToStdout; destruct (_ && _); simpl; auto; lia.
  - revert H. apply eta_guarded_mono; simpl;
      rewrite ?emitUpdate_options; auto;
      unfold emitUpdate, outputToStdout; destruct (_ && _); simpl; auto; lia.
  - destruct (_ && _); auto;
      revert H; apply eta_guarded_mono; simpl; auto; lia.
Qed.

Lemma run_eta_guarded evs tr : eta_guarded tr → eta_guarded (run evs tr).
Proof.
  revert tr. induction evs as [|[ev now] evs IH]; intros tr H; simpl; auto.
  apply IH, handle_eta_guarded, H.
Qed.

(** C8, as the code has it.  After [startProcessingPage], [pageCompleted],
    [pageFailed] and [updateQueueStatus] the percentage is
    [min(round(processed / maxPages * 100), 100)]; the rate is
    [round(processed / elapsedMinutes)] when the elapsed time is positive
    and its previous value otherwise; the estimate is
    [round((maxPages - processed) / rate * 60 * 1000)] milliseconds when
    smart estimation is on, [processed] has reached
    [minPagesForEstimation] and the rate is positive, and its previous
    value otherwise.  [markCompleted] sets the percentage to 100 and, like
    the remaining events, recomputes nothing.  In every reachable state an
    estimate is present only if [processed >= minPagesForEstimation]. *)
Theorem C8_derived_metrics
    (o : ProgressTrackerOptions.t) (now0 : Z) (evs : list (Event * Z))
    (ev : Event) (now : Z) :
  let tr := run evs (new o now0) in
  let tr' := handle ev now tr in
  match ev with
  | StartProcessingPage _ _ | PageCompleted _ _ | PageFailed _ _
  | UpdateQueueStatus _ => derived tr tr'
  | MarkCompleted =>
      progressPercentage (progress tr') = JS.of_Z 100
      ∧ pagesPerMinute (progress tr') = pagesPerMinute (progress tr)
      ∧ estimatedTimeRemaining (progress tr')
        = estimatedTimeRemaining (progress tr)
  | UrlsDiscovered _ _ | MarkFailed _ | StdoutTimerFired => metrics tr' = metrics tr
  end
  ∧ (estimatedTimeRemaining (progress tr) = None
     ∨ (ProgressTrackerOptions.useSmartEstimation o = true
        ∧ ProgressTrackerOptions.minPagesForEstimation o
          ≤ pagesProcessed (progress tr))).
Proof.
  intros tr tr'. split.
  - subst tr'. generalize tr. clear tr. intros tr.
    destruct ev; simpl;
      unfold startProcessingPage, pageCompleted, pageFailed, urlsDiscovered,
        updateQueueStatus, markCompleted, markFailed, stdoutTimerFired.
    + apply emitUpdate_derived, calculateProgress_derived. reflexivity.
    + apply emitUpdate_derived, calculateProgress_derived.
      destruct (0 <? linksFound); reflexivity.
    + apply emitUpdate_derived, calculateProgress_derived. reflexivity.
    + rewrite emitUpdate_metrics. reflexivity.
    + apply calculateProgress_derived. reflexivity.
    + unfold emitUpdate, outputToStdout. destruct (_ && _); simpl; auto.
    + unfold emitUpdate, outputToStdout. destruct (_ && _); simpl; auto.
    + destruct (_ && _); reflexivity.
  - assert (Hopt : options tr = o).
    { subst tr. generalize (new o now0) (eq_refl : options (new o now0) = o).
      induction evs as [|[e t] evs IH]; intros tr0 H0; simpl; auto.
      apply IH. rewrite handle_options. exact H0. }
    pose proof (run_eta_guarded evs (new o now0)) as H.
    unfold eta_guarded in H. fold tr in H. rewrite Hopt in H.
    apply H. left. reflexivity.
Qed.

(** C8 as the specification words it fails on [markCompleted], which
    reports 100 percent whatever was processed, and on the rate, which is
    rounded to a whole number of pages. *)
Lemma C8_counterexample :
  let o :=
    ProgressTrackerOptions.mk "job-1" "https://example.com/" 10 2 false 5000 normal
      true 3 in
  let done := progress (run [(MarkCompleted, 60000)] (new o 0)) in
  let one := progress (run [(PageCompleted "https://example.com/" 0, 90000)] (new o 0)) in
  progressPercentage done ≠ percentage_of (pagesProcessed done) (maxPages done)
  ∧ pagesPerMinute one
    ≠ JS.div (JS.of_Z (pagesProcessed one)) (elapsedMinutes_of one).
Proof.
  split; intros H.
  - apply (f_equal (fun x => PrimFloat.eqb x (JS.of_Z 100))) in H.
    vm_compute in H. discriminate H.
  - apply (f_equal (fun x => PrimFloat.eqb x (JS.of_Z 1))) in H.
    vm_compute in H. discriminate H.
Qed.

(** The counters after each of the calls the crawl loop makes. *)
Lemma startProcessingPage_counters url depth now tr :
  counters (startProcessingPage url depth now tr) = counters tr.
Proof. exact (handle_counters (StartProcessingPage url depth) now tr). Qed.

Lemma startProcessingPage_currentDepth url depth now tr :
  currentDepth (progress (startProcessingPage url depth now tr)) = depth.
Proof.
  unfold startProcessingPage, emitUpdate, outputToStdout, calculateProgress. simpl.
  destruct (_ && _); simpl; split_ifs; reflexivity.
Qed.

Lemma urlsDiscovered_counters urls depth now tr :
  counters (urlsDiscovered urls depth now tr) = counters tr.
Proof. exact (handle_counters (UrlsDiscovered urls depth) now tr). Qed.

Lemma updateQueueStatus_counters n now tr :
  counters (updateQueueStatus n now tr) = counters tr.
Proof. exact (handle_counters (UpdateQueueStatus n) now tr). Qed.

Lemma pageCompleted_counters url linksFound now tr :
  counters (pageCompleted url linksFound now tr)
  = (pagesProcessed (progress tr) + 1, pagesSuccessful (progress tr) + 1,
     pagesFailed (progress tr), errors (progress tr)).
Proof. exact (handle_counters (PageCompleted url linksFound) now tr). Qed.

Lemma pageFailed_counters url error now tr :
  counters (pageFailed url error now tr)
  = (pagesProcessed (progress tr) + 1, pagesSuccessful (progress tr),
     pagesFailed (progress tr) + 1,
     (errors (progress tr)
      ++ [ProgressError.mk url error now (currentDepth (progress tr))])%list).
Proof. exact (handle_counters (PageFailed url error) now tr). Qed.

End ProgressTrackerFacts.

(** ** URL normalisation *)

Module LinkExtractorFacts.
Import LinkExtractor.

(** On URLs whose query names are all different the normaliser does what
    its comments say: the fragment goes, one trailing slash goes, the
    parameters are sorted by name. *)
Lemma normalizeUrl_examples :
  normalizeUrl "https://example.com/docs/?b=2&a=1#top"
  = "https://example.com/docs?a=1&b=2"
  ∧ normalizeUrl "https://example.com/docs?a=1&b=2" = "https://example.com/docs?a=1&b=2"
  ∧ normalizeUrl "https://example.com" = "https://example.com/"
  ∧ normalizeUrl "not a url" = "not a url".
Proof. repeat split; vm_compute; reflexivity. Qed.

(** C9.  [normalizeUrl] is not idempotent.  [keys()] lists a repeated
    parameter name once per occurrence and the loop appends [getAll(name)]
    for each of them, so a name that occurs k times comes out with k * k
    values, and the next pass squares the count again; [deduplicateLinks]
    inherits this. *)
Theorem C9_normalizeUrl_not_idempotent :
  let u := "https://example.com/search?tag=a&tag=b" in
  normalizeUrl u = "https://example.com/search?tag=a&tag=b&tag=a&tag=b"
  ∧ normalizeUrl (normalizeUrl u) ≠ normalizeUrl u
  ∧ deduplicateLinks (deduplicateLinks [u]) ≠ deduplicateLinks [u].
Proof.
  vm_compute. repeat split; [intros H; discriminate H ..].
Qed.

End LinkExtractorFacts.

(** ** The job status *)

Module JobManagerFacts.
Import Database JobManager.

(** The one guard of [cancelJob]: a completed job is left alone. *)
Lemma cancelJob_completed (jobId : string) (s : JobManager.t) (row : JobRow) :
  jobs (db s) !! jobId = Some row → status row = completed →
  cancelJob jobId s = (false, s).
Proof.
  intros Hrow Hst. unfold cancelJob, getJobStatus. rewrite Hrow, Hst. reflexivity.
Qed.

Lemma updateJobStatus_status jobId st pr err s row :
  jobs (db s) !! jobId = Some row →
  status_of jobId (db (updateJobStatus jobId st pr err s)) = Some st.
Proof.
  intros Hrow. unfold status_of, updateJobStatus, update_job. simpl.
  rewrite lookup_alter_eq, Hrow. reflexivity.
Qed.

(** Every other status is overwritten, the terminal ones included, unless
    BullMQ refuses to remove a job that a worker holds. *)
Lemma cancelJob_overwrites (jobId : string) (s : JobManager.t) (row : JobRow) :
  jobs (db s) !! jobId = Some row → status row ≠ completed →
  (∀ queue job, queues s !! getQueueName (type row) = Some queue →
                queue !! jobId = Some job → locked job = false) →
  ∃ s', cancelJob jobId s = (true, s') ∧ status_of jobId (db s') = Some cancelled.
Proof.
  intros Hrow Hst Hfree. unfold cancelJob, getJobStatus. rewrite Hrow.
  assert (Hgo : ∀ s0 : JobManager.t, db s0 = db s →
            status_of jobId (db (updateJobStatus jobId cancelled None None s0))
            = Some cancelled).
  { intros s0 E. apply (updateJobStatus_status _ _ _ _ _ row). rewrite E. exact Hrow. }
  destruct (queues s !! getQueueName (type row)) as [queue|] eqn:Hq.
  - destruct (queue !! jobId) as [job|] eqn:Hj.
    + rewrite (Hfree queue job eq_refl Hj).
      destruct (status row); try congruence; eexists; split; try reflexivity;
        apply Hgo; reflexivity.
    + destruct (status row); try congruence; eexists; split; try reflexivity;
        apply Hgo; reflexivity.
  - destruct (status row); try congruence; eexists; split; try reflexivity;
      apply Hgo; reflexivity.
Qed.

(** C2.  A job whose persisted status is the terminal [failed] does not keep
    it: [cancelJob] only spares [completed] and writes [cancelled] over
    [failed]. *)
Theorem C2_cancelJob_overwrites_failed :
  let row := mkJob crawl failed (JS.of_Z 100) None 0 (Some "Navigation timeout") in
  let s :=
    JobManager.mk {[ "crawl-queue" := {[ "job-1" := mkBullJob false ]} ]}
      (Database.mk {[ "job-1" := row ]} []) in
  status_of "job-1" (db s) = Some failed
  ∧ fst (cancelJob "job-1" s) = true
  ∧ status_of "job-1" (db (snd (cancelJob "job-1" s))) = Some cancelled.
Proof. vm_compute. repeat split. Qed.

End JobManagerFacts.

(** ** The browser pool *)

Module BrowserManagerFacts.
Import BrowserInstance BrowserManager.
Import BrowserManagerSpec.

Lemma map_set_length k v (l : list (string * BrowserInstance.t)) :
  (length (map_set k v l) ≤ S (length l))%nat.
Proof.
  induction l as [|[k' v'] l IH]; simpl; [lia|].
  destruct (decide (k' = k)); simpl; lia.
Qed.

Lemma map_set_length_present k v (l : list (string * BrowserInstance.t)) i :
  map_get k l = Some i → length (map_set k v l) = length l.
Proof.
  induction l as [|[k' v'] l IH]; simpl; [discriminate|].
  destruct (decide (k' = k)); simpl; auto.
Qed.

Lemma map_get_set k v (l : list (string * BrowserInstance.t)) :
  map_get k (map_set k v l) = Some v.
Proof.
  induction l as [|[k' v'] l IH]; simpl.
  - destruct (decide (k = k)); congruence.
  - destruct (decide (k' = k)) as [->|Hne]; simpl.
    + destruct (decide (k = k)); congruence.
    + destruct (decide (k' = k)); congruence.
Qed.

Lemma closeBrowser_size id m : size (closeBrowser id m) ≤ size m.
Proof.
  unfold closeBrowser, size.
  destruct (map_get id (instances m)); [|lia].
  destruct (closeThrows _); [lia|]. simpl. unfold map_delete.
  pose proof (length_filter (fun e => fst e ≠ id) (instances m)). lia.
Qed.

Lemma closeBrowser_maxInstances id m :
  maxInstances (closeBrowser id m) = maxInstances m.
Proof.
  unfold closeBrowser. destruct (map_get _ _); [|reflexivity].
  destruct (closeThrows _); reflexivity.
Qed.

Lemma cleanupOldInstances_size now m :
  size (cleanupOldInstances now m) ≤ size m
  ∧ maxInstances (cleanupOldInstances now m) = maxInstances m.
Proof.
  unfold cleanupOldInstances. generalize (instances m) as es. intros es.
  revert m. induction es as [|e es IH]; intros m; simpl; [split; [lia|reflexivity]|].
  destruct (negb (inUse (snd e)) && (maxAge <? now - lastUsed (snd e))).
  - destruct (IH (closeBrowser (fst e) m)) as [H1 H2].
    pose proof (closeBrowser_size (fst e) m).
    rewrite closeBrowser_maxInstances in H2. split; [lia|exact H2].
  - apply IH.
Qed.

(** What the reuse loop finds: the first idle entry, which it marks in use
    and stamps; the map keeps its length.  It finds nothing exactly when
    every instance is in use. *)
Lemma reuse_Some now l found l' :
  reuse now l = Some (found, l') →
  length l' = length l
  ∧ ∃ (before : list (string * BrowserInstance.t)) i after,
      l = (before ++ (found, i) :: after)%list
      ∧ Forall (fun e => inUse (snd e) = true) before
      ∧ inUse i = false
      ∧ l' = (before
              ++ (found, BrowserInstance.mk (browser i) true (createdAt i) now)
                 :: after)%list.
Proof.
  revert found l'. induction l as [|[id i] l IH]; intros found l'; simpl; [discriminate|].
  destruct (inUse i) eqn:Hi; simpl.
  - destruct (reuse now l) as [[f l'']|] eqn:Hr; [|discriminate].
    intros [= <- <-].
    destruct (IH f l'' eq_refl) as (Hlen & before & j & after & -> & Hb & Hj & ->).
    split; [simpl; lia|].
    exists ((id, i) :: before), j, after. repeat split; auto.
  - intros [= <- <-]. split; [reflexivity|].
    exists [], i, l. repeat split; auto.
Qed.

Lemma reuse_None now l :
  reuse now l = None → Forall (fun e => inUse (snd e) = true) l.
Proof.
  induction l as [|[id i] l IH]; simpl; [constructor|].
  destruct (inUse i) eqn:Hi; simpl; [|discriminate].
  destruct (reuse now l) as [[f l'']|]; [discriminate|].
  intros _. constructor; auto.
Qed.

Lemma inUseCount_le_size m : inUseCount m ≤ size m.
Proof.
  unfold inUseCount, size.
  pose proof (length_filter (fun e => inUse (snd e) = true) (instances m)). lia.
Qed.




End BrowserManagerFacts.

(** ** The crawl loop *)

Module CrawlingServiceFacts.
Import CrawlingService.
Import CrawlingServiceSpec.

(** *** Limits *)

Lemma lt_Q_true (a b : Q) : JS.lt_Q a b = true ↔ (a < b)%Q.
Proof.
  unfold JS.lt_Q. rewrite Qlt_alt. destruct (a ?= b)%Q; split; congruence.
Qed.

Lemma lt_Q_false (a b : Q) : JS.lt_Q a b = false ↔ (b <= a)%Q.
Proof.
  split.
  - intros H. apply Qnot_lt_le. intros Hlt. apply lt_Q_true in Hlt. congruence.
  - intros H. destruct (JS.lt_Q a b) eqn:E; [|reflexivity].
    apply lt_Q_true in E. exfalso. exact (Qle_not_lt _ _ H E).
Qed.

Lemma below_ceiling (a : Z) (q : Q) : (inject_Z a < q)%Q → a < Qceiling q.
Proof.
  intros H. rewrite Zlt_Qlt. eapply Qlt_le_trans; [exact H|apply Qle_ceiling].
Qed.

(** *** One iteration *)

Lemma step_locals env l w :
  continues l = true →
  let l' := (step env l w).1 in
  ∃ url depth rest,
    toCrawl l = (url, depth) :: rest ∧ same_job l l'
    ∧ (skipped l l' url depth rest
       ∨ crawled_page (attempt env (processed l + 1) url) l l' url depth rest).
Proof.
  unfold continues, step, iteration, begin_iteration.
  destruct (toCrawl l) as [|[url depth] rest] eqn:Hq; [discriminate|].
  intros _. exists url, depth, rest. split; [reflexivity|]. simpl.
  destruct (bool_decide (url ∈ crawled l)) eqn:Hc; simpl.
  { split; [repeat split|]. left. apply bool_decide_eq_true in Hc.
    repeat split; auto. }
  destruct (JS.lt_Q (CrawlOptions.maxDepth (crawlOptions l)) (inject_Z depth)) eqn:Hd;
    simpl.
  { split; [repeat split|]. left. apply lt_Q_true in Hd. repeat split; auto. }
  apply bool_decide_eq_false in Hc. apply lt_Q_false in Hd.
  unfold finish_page, processed. simpl.
  destruct (attempt env (Z.of_nat (length (results l)) + 1) url) as [sr links|e]; simpl.
  - destruct (JS.lt_Q (inject_Z depth) (CrawlOptions.maxDepth (crawlOptions l))) eqn:Hlt;
      simpl.
    + destruct (enqueue _ depth links rest) as [q new] eqn:He. simpl.
      split; [repeat split|]. right. repeat split; auto.
      eexists. repeat split; simpl; eauto.
      unfold maxDepth_of. rewrite Hlt, He. reflexivity.
    + split; [repeat split|]. right. repeat split; auto.
      eexists. repeat split; simpl; eauto.
      unfold maxDepth_of. rewrite Hlt. reflexivity.
  - split; [repeat split|]. right. repeat split; auto.
    eexists. repeat split; simpl; eauto.
Qed.

(** An iteration that runs to its end leaves the state of [step]. *)
Lemma iteration_normal env cb l w l' w' :
  iteration env cb l w = Normal l' w' → step env l w = (l', w').
Proof.
  unfold step, iteration, begin_iteration.
  destruct (toCrawl l) as [|[url depth] rest]; [intros [= <- <-]; reflexivity|].
  simpl.
  destruct (bool_decide (url ∈ crawled l) || JS.lt_Q _ (inject_Z depth));
    [intros [= <- <-]; reflexivity|].
  destruct cb as [callback|]; simpl; [|intros H; rewrite H; reflexivity].
  destruct (progressTracker l) as [r|]; simpl; [intros H; rewrite H; reflexivity|].
  destruct (callback _) as [e|]; [discriminate|].
  intros H; rewrite H; reflexivity.
Qed.

(** Only the legacy report makes an iteration throw: a callback was
    passed, the crawl has no tracker, and the callback, called for the
    front entry of the frontier, rejected. *)
Lemma iteration_abrupt env cb l w e l' w' :
  iteration env cb l w = Abrupt e l' w' →
  progressTracker l = None ∧ progressTracker l' = None ∧ jobId l' = jobId l ∧ w' = w
  ∧ ∃ callback data,
      cb = Some callback ∧ callback data = Some e
      ∧ data_pagesCrawled data = processed l
      ∧ ∃ depth rest, toCrawl l = (data_currentUrl data, depth) :: rest.
Proof.
  unfold iteration, begin_iteration, processed.
  destruct (toCrawl l) as [|[url depth] rest]; [discriminate|].
  simpl.
  destruct (bool_decide (url ∈ crawled l) || JS.lt_Q _ (inject_Z depth)); [discriminate|].
  destruct cb as [callback|]; simpl.
  2: { destruct (finish_page _ _ _ _ _ _ _ _); discriminate. }
  destruct (progressTracker l) as [r|] eqn:Hpt; simpl.
  { destruct (finish_page _ _ _ _ _ _ _ _); discriminate. }
  destruct (callback _) as [e'|] eqn:Hcall.
  2: { destruct (finish_page _ _ _ _ _ _ _ _); discriminate. }
  intros [= <- <- <-]. simpl. split_and!; try reflexivity; try assumption.
  eexists _, _. split; [reflexivity|]. split; [exact Hcall|]. simpl.
  split; [reflexivity|]. eauto.
Qed.

Lemma step_iteration env l w :
  iteration env None l w = Normal (step env l w).1 (step env l w).2.
Proof.
  unfold step. destruct (iteration env None l w) as [l' w'|e l' w'] eqn:E;
    [reflexivity|].
  apply iteration_abrupt in E as (_ & _ & _ & _ & c & d & [=] & _).
Qed.

(** Induction over the states of the loop, one [step] at a time. *)
Lemma reachable_step_ind env cb l0 w0 (P : Locals → World → Prop) :
  P l0 w0 →
  (∀ l w, reachable env cb l0 w0 l w → continues l = true → P l w →
     P (step env l w).1 (step env l w).2) →
  ∀ l w, reachable env cb l0 w0 l w → P l w.
Proof.
  intros H0 Hstep l w. induction 1 as [|l w l' w' Hreach IH Hgo Hit]; [exact H0|].
  apply iteration_normal in Hit.
  replace l' with (step env l w).1 by (rewrite Hit; reflexivity).
  replace w' with (step env l w).2 by (rewrite Hit; reflexivity).
  apply Hstep; assumption.
Qed.

(** *** The frontier *)

Lemma not_queued (link : string) (q : list (string * Z)) :
  existsb (fun item => bool_decide (item.1 = link)) q = false ↔ link ∉ q.*1.
Proof.
  induction q as [|[u d] q IH]; simpl.
  - split; [intros _; apply not_elem_of_nil|reflexivity].
  - rewrite orb_false_iff, IH, not_elem_of_cons, bool_decide_eq_false.
    split; intros [H1 H2]; split; auto.
Qed.

(** The links [enqueue] appends: in the order found, each once, none
    already crawled, none already queued; all at [depth + 1]. *)
Lemma enqueue_fold (seen : gset string) (depth : Z) (links : list string)
    (q : list (string * Z)) (newUrls : list string) :
  ∃ added : list string,
    fold_left
      (fun (acc : list (string * Z) * list string) (link : string) =>
         let (toCrawl, newUrls) := acc in
         if negb (bool_decide (link ∈ seen))
            && negb (existsb (fun item => bool_decide (item.1 = link)) toCrawl)
         then ((toCrawl ++ [(link, depth + 1)])%list, (newUrls ++ [link])%list)
         else (toCrawl, newUrls))
      links (q, newUrls)
    = ((q ++ map (fun u => (u, depth + 1)) added)%list, (newUrls ++ added)%list)
    ∧ NoDup added
    ∧ ∀ u, u ∈ added → u ∈ links ∧ (u ∉ seen) ∧ (u ∉ q.*1).
Proof.
  revert q newUrls. induction links as [|link links IH]; intros q newUrls; simpl.
  - exists []. rewrite !app_nil_r. split; [reflexivity|]. split; [constructor|].
    intros u Hu. inversion Hu.
  - destruct (negb (bool_decide (link ∈ seen))
              && negb (existsb (fun item => bool_decide (item.1 = link)) q)) eqn:Hc.
    + apply andb_prop in Hc as [Hs Hq].
      apply negb_true_iff, bool_decide_eq_false in Hs.
      apply negb_true_iff, not_queued in Hq.
      destruct (IH (q ++ [(link, depth + 1)])%list (newUrls ++ [link])%list)
        as (added & Heq & Hnd & Hin).
      exists (link :: added). rewrite Heq. simpl.
      rewrite <- !app_assoc. simpl. split; [reflexivity|].
      assert (Hfresh : ∀ u, u ∈ added → u ≠ link ∧ u ∉ q.*1).
      { intros u Hu. destruct (Hin u Hu) as (_ & _ & Hnq).
        rewrite fmap_app, not_elem_of_app in Hnq. destruct Hnq as [Hnq Hl].
        split; [|exact Hnq]. intros ->. apply Hl. simpl. left. }
      split.
      * constructor; [|exact Hnd]. intros Hl. destruct (Hfresh link Hl) as [Hne _].
        apply Hne. reflexivity.
      * intros u Hu. apply elem_of_cons in Hu as [->|Hu].
        -- split; [left|]. split; assumption.
        -- destruct (Hin u Hu) as (H1 & H2 & _). destruct (Hfresh u Hu) as [_ H3].
           split; [right; exact H1|]. split; assumption.
    + destruct (IH q newUrls) as (added & Heq & Hnd & Hin).
      exists added. split; [exact Heq|]. split; [exact Hnd|].
      intros u Hu. destruct (Hin u Hu) as (H1 & H2 & H3).
      split; [right; exact H1|]. split; assumption.
Qed.

Lemma enqueue_spec (seen : gset string) (depth : Z) (links : list string)
    (q : list (string * Z)) :
  ∃ added : list string,
    enqueue seen depth links q
    = ((q ++ map (fun u => (u, depth + 1)) added)%list, added)
    ∧ NoDup added
    ∧ ∀ u, u ∈ added → u ∈ links ∧ (u ∉ seen) ∧ (u ∉ q.*1).
Proof.
  destruct (enqueue_fold seen depth links q []) as (added & Heq & H).
  exists added. split; [|exact H]. unfold enqueue. exact Heq.
Qed.

(** *** The invariant of the traversal *)

Lemma start_locals env jobId0 startUrl0 options w :
  let l := (start env jobId0 startUrl0 options w).1 in
  jobId l = jobId0 ∧ startUrl l = startUrl0
  ∧ crawlOptions l = CrawlOptions.defaults options
  ∧ crawled l = ∅ ∧ toCrawl l = [(startUrl0, 0)] ∧ results l = [].
Proof.
  unfold start, now.
  destruct (CrawlOptions.enableProgressTracking (CrawlOptions.defaults options));
    repeat split.
Qed.

Lemma start_invariant env jobId0 startUrl0 options w :
  invariant (start env jobId0 startUrl0 options w).1.
Proof.
  destruct (start_locals env jobId0 startUrl0 options w)
    as (_ & Hs & _ & Hc & Hq & Hr).
  split; unfold urls_of, processed; rewrite ?Hq, ?Hr, ?Hc; simpl.
  - apply NoDup_singleton.
  - intros u _. apply not_elem_of_empty.
  - constructor.
  - intros u. split; intros H; [inversion H|]. exfalso. revert H. apply not_elem_of_empty.
  - constructor.
  - constructor; [|constructor]. left. rewrite Hs. reflexivity.
  - lia.
Qed.

Lemma continues_budget l :
  continues l = true → (inject_Z (processed l) < maxPages_of l)%Q.
Proof.
  unfold continues, processed, maxPages_of. destruct (toCrawl l); [discriminate|].
  apply lt_Q_true.
Qed.

Lemma step_invariant env l w :
  continues l = true → invariant l → invariant (step env l w).1.
Proof.
  intros Hgo Hinv.
  destruct (step_locals env l w Hgo) as (url & depth & rest & Hq & Hsame & Heff).
  set (l' := (step env l w).1) in *.
  destruct Hsame as (_ & Hstart & Hopt & _).
  destruct Hinv as [Hfn Hff Hrn Hrc Hrd Hfd Hrb].
  rewrite Hq in Hfn, Hff, Hfd. simpl in Hfn, Hff.
  apply NoDup_cons in Hfn as [Hurl Hfn].
  apply Forall_cons in Hfd as [_ Hfd].
  assert (Hmd : maxDepth_of l' = maxDepth_of l) by (unfold maxDepth_of; rewrite Hopt; auto).
  assert (Hmp : maxPages_of l' = maxPages_of l) by (unfold maxPages_of; rewrite Hopt; auto).
  pose proof (below_ceiling _ _ (continues_budget l Hgo)) as Hlt.
  destruct Heff as [(Hwhy & Hc & Hr & Ht)|(Hnew & Hd & Hc & pr & Hr & Hu & Hdp & Hpn & Ha)].
  - split; unfold processed; rewrite ?Hc, ?Hr, ?Ht, ?Hmd, ?Hmp, ?Hstart; auto.
    intros u Hin. apply Hff. right. exact Hin.
  - assert (Hrest : ∀ u, u ∈ rest.*1 → u ∉ crawled l').
    { intros u Hin. rewrite Hc. intros Hcr. apply elem_of_union in Hcr as [Hcr|Hcr].
      - apply elem_of_singleton in Hcr. subst u. exact (Hurl Hin).
      - apply (Hff u); [right; exact Hin|exact Hcr]. }
    assert (Hfrontier :
      NoDup (toCrawl l').*1 ∧ (∀ u, u ∈ (toCrawl l').*1 → u ∉ crawled l')
      ∧ Forall (fun e => e = (startUrl l, 0) ∨ (inject_Z (e.2 - 1) < maxDepth_of l)%Q)
          (toCrawl l')).
    { assert (Hkeep : toCrawl l' = rest →
        NoDup (toCrawl l').*1 ∧ (∀ u, u ∈ (toCrawl l').*1 → u ∉ crawled l')
        ∧ Forall (fun e => e = (startUrl l, 0) ∨ (inject_Z (e.2 - 1) < maxDepth_of l)%Q)
            (toCrawl l')).
      { intros ->. auto. }
      destruct (attempt env (processed l + 1) url) as [sr links|e].
      - destruct Ha as (_ & _ & Ht).
        destruct (JS.lt_Q (inject_Z depth) (maxDepth_of l)) eqn:Hdl; [|auto].
        apply lt_Q_true in Hdl.
        destruct (enqueue_spec ({[url]} ∪ crawled l) depth links rest)
          as (added & He & Hnd & Hadd).
        rewrite He in Ht. simpl in Ht. rewrite Ht.
        assert (Hfst : (map (fun u : string => (u, depth + 1)) added).*1 = added).
        { clear. induction added as [|a added IH]; simpl; [reflexivity|].
          f_equal. exact IH. }
        rewrite fmap_app, Hfst. split_and!.
        + apply NoDup_app. split; [exact Hfn|]. split; [|exact Hnd].
          intros u Hin Hin'. destruct (Hadd u Hin') as (_ & _ & Hnq). exact (Hnq Hin).
        + intros u Hin. apply elem_of_app in Hin as [Hin|Hin]; [auto|].
          destruct (Hadd u Hin) as (_ & Hns & _). rewrite Hc. exact Hns.
        + apply Forall_app. split; [exact Hfd|].
          apply Forall_forall. intros e Hin.
          apply list_elem_of_In, in_map_iff in Hin as (u & <- & _).
          right. simpl. replace (depth + 1 - 1) with depth by lia. exact Hdl.
      - destruct Ha as (_ & _ & Ht). auto. }
    destruct Hfrontier as (F1 & F2 & F3).
    split; unfold processed, urls_of; rewrite ?Hr, ?Hmd, ?Hmp, ?Hstart; auto.
    + rewrite map_app. simpl. apply NoDup_app. split; [exact Hrn|].
      split; [|apply NoDup_singleton].
      intros u Hin Hin'. apply list_elem_of_singleton in Hin'. subst u.
      apply Hnew. apply Hrc. rewrite <- Hu. exact Hin.
    + intros u. rewrite map_app, elem_of_app, Hc, elem_of_union. simpl.
      rewrite list_elem_of_singleton, elem_of_singleton, Hu.
      fold (urls_of (results l)). rewrite (Hrc u). tauto.
    + apply Forall_app. split; [exact Hrd|]. constructor; [|constructor].
      rewrite Hdp. exact Hd.
    + rewrite length_app. simpl. unfold processed in *. lia.
Qed.

Lemma reachable_same_job env cb l0 w0 l w :
  reachable env cb l0 w0 l w → same_job l0 l.
Proof.
  revert l w. apply reachable_step_ind; [repeat split|].
  intros l w _ Hgo IH.
  destruct (step_locals env l w Hgo) as (_ & _ & _ & _ & Hs & _).
  destruct IH as (A & B & C & D). destruct Hs as (A' & B' & C' & D').
  repeat split; congruence.
Qed.

Lemma reachable_invariant env cb l0 w0 l w :
  invariant l0 → reachable env cb l0 w0 l w → invariant l.
Proof.
  intros H0. revert l w. apply reachable_step_ind; [exact H0|].
  intros l w _ Hgo IH. apply step_invariant; assumption.
Qed.

(** *** The database and the tracker *)

Lemma tracker_call_db env ref method w : db (tracker_call env ref method w) = db w.
Proof. destruct ref; reflexivity. Qed.

Lemma tracker_call_activeTrackers env ref method w :
  activeTrackers (tracker_call env ref method w) = activeTrackers w.
Proof. destruct ref; reflexivity. Qed.

Lemma tracker_call_heap env r method w :
  heap (tracker_call env (Some r) method w) !! r
  = method (clock env (ticks w)) <$> heap w !! r.
Proof. simpl. apply lookup_alter_eq. Qed.

Lemma tracker_call_none env method w : tracker_call env None method w = w.
Proof. reflexivity. Qed.

Lemma tracker_call_heap_ne env ref method w r :
  ref ≠ Some r → heap (tracker_call env ref method w) !! r = heap w !! r.
Proof.
  unfold tracker_call. destruct ref as [r0|]; [|reflexivity]. intros Hne. simpl.
  apply lookup_alter_ne. congruence.
Qed.

(** What [storePageResult] does: the jobs, the registry and the trackers
    are as they were, and the row is appended if the job has a row. *)
Lemma storePageResult_world jobId0 url depth sr linksFound err w :
  let w' := storePageResult jobId0 url depth sr linksFound err w in
  Database.jobs (db w') = Database.jobs (db w)
  ∧ activeTrackers w' = activeTrackers w ∧ heap w' = heap w ∧ ticks w' = ticks w
  ∧ Database.pages (db w')
    = (Database.pages (db w)
       ++ match Database.jobs (db w) !! jobId0 with
          | Some _ =>
              [Database.mkPage jobId0 url
                 (match sr with
                  | Some sr => nonempty (Some (ScrapeResult.title sr))
                  | None => None
                  end)
                 depth
                 (match sr with
                  | Some sr =>
                      if ScrapeResult.statusCode sr =? 0
                      then (if truthy err then 0 else 200)
                      else ScrapeResult.statusCode sr
                  | None => if truthy err then 0 else 200
                  end)
                 linksFound
                 (match sr with
                  | Some sr => ScrapeResult.responseTime sr
                  | None => 0
                  end)
                 (nonempty err)]
          | None => []
          end)%list.
Proof.
  unfold storePageResult, Database.insert_page. cbn [Database.job_id].
  destruct (Database.jobs (db w) !! jobId0); simpl;
    rewrite ?app_nil_r; split_and!; reflexivity.
Qed.

Lemma stored_app jobs jobId0 rs rs' :
  stored jobs jobId0 (rs ++ rs') = (stored jobs jobId0 rs ++ stored jobs jobId0 rs')%list.
Proof. unfold stored. destruct (jobs !! jobId0); [apply map_app|reflexivity]. Qed.

Lemma stored_same jobs jobs' jobId0 rs :
  (is_Some (jobs' !! jobId0) ↔ is_Some (jobs !! jobId0)) →
  stored jobs' jobId0 rs = stored jobs jobId0 rs.
Proof.
  unfold stored. intros H.
  destruct (jobs' !! jobId0) as [a|] eqn:E1; destruct (jobs !! jobId0) as [b|] eqn:E2;
    try reflexivity.
  - destruct (proj1 H (ex_intro _ a eq_refl)) as [? [=]].
  - destruct (proj2 H (ex_intro _ b eq_refl)) as [? [=]].
Qed.

Lemma alter_is_Some {A} (f : A → A) (m : gmap string A) (i j : string) :
  is_Some (alter f i m !! j) ↔ is_Some (m !! j).
Proof.
  destruct (decide (i = j)) as [->|Hne].
  - rewrite lookup_alter_eq. destruct (m !! j); simpl; split; intros [? ?]; eauto;
      discriminate.
  - rewrite lookup_alter_ne by exact Hne. reflexivity.
Qed.

Lemma counters_inv (tr' : ProgressTracker.t) a b c d :
  ProgressTrackerSpec.counters tr' = (a, b, c, d) →
  CrawlProgress.pagesProcessed (ProgressTracker.progress tr') = a
  ∧ CrawlProgress.pagesFailed (ProgressTracker.progress tr') = c
  ∧ CrawlProgress.errors (ProgressTracker.progress tr') = d.
Proof. unfold ProgressTrackerSpec.counters. intros [= <- _ <- <-]. auto. Qed.

Lemma counted_completed url depth pn sr lf pt n links t1 t2 t3 tr :
  page_counted (PageResult.mk url depth pn true None (Some sr) lf pt) tr
    (ProgressTracker.updateQueueStatus n t3
       (ProgressTracker.pageCompleted url links t2
          (ProgressTracker.startProcessingPage url depth t1 tr))).
Proof.
  pose proof (ProgressTrackerFacts.startProcessingPage_counters url depth t1 tr) as H3.
  apply counters_inv in H3 as (H31 & H32 & H33).
  set (tr1 := ProgressTracker.startProcessingPage url depth t1 tr) in *.
  pose proof (ProgressTrackerFacts.pageCompleted_counters url links t2 tr1) as H2.
  set (tr2 := ProgressTracker.pageCompleted url links t2 tr1) in *.
  pose proof (ProgressTrackerFacts.updateQueueStatus_counters n t3 tr2) as H1.
  rewrite H2 in H1. apply counters_inv in H1 as (H11 & H12 & H13).
  unfold page_counted. cbn [PageResult.error]. rewrite H11, H12, H13, H31, H32, H33.
  auto.
Qed.

Lemma counted_completed_discovered url depth pn sr lf pt n links us d t1 t2 t3 t4 tr :
  page_counted (PageResult.mk url depth pn true None (Some sr) lf pt) tr
    (ProgressTracker.updateQueueStatus n t4
       (ProgressTracker.urlsDiscovered us d t3
          (ProgressTracker.pageCompleted url links t2
             (ProgressTracker.startProcessingPage url depth t1 tr)))).
Proof.
  pose proof (ProgressTrackerFacts.startProcessingPage_counters url depth t1 tr) as H3.
  apply counters_inv in H3 as (H31 & H32 & H33).
  set (tr1 := ProgressTracker.startProcessingPage url depth t1 tr) in *.
  pose proof (ProgressTrackerFacts.pageCompleted_counters url links t2 tr1) as H2.
  set (tr2 := ProgressTracker.pageCompleted url links t2 tr1) in *.
  pose proof (ProgressTrackerFacts.urlsDiscovered_counters us d t3 tr2) as H0.
  set (tr3 := ProgressTracker.urlsDiscovered us d t3 tr2) in *.
  pose proof (ProgressTrackerFacts.updateQueueStatus_counters n t4 tr3) as H1.
  rewrite H0, H2 in H1. apply counters_inv in H1 as (H11 & H12 & H13).
  unfold page_counted. cbn [PageResult.error]. rewrite H11, H12, H13, H31, H32, H33.
  auto.
Qed.

Lemma counted_failed url depth pn message pt n t1 t2 t3 tr :
  page_counted (PageResult.mk url depth pn false (Some message) None 0 pt) tr
    (ProgressTracker.updateQueueStatus n t3
       (ProgressTracker.pageFailed url message t2
          (ProgressTracker.startProcessingPage url depth t1 tr))).
Proof.
  pose proof (ProgressTrackerFacts.startProcessingPage_counters url depth t1 tr) as H3.
  pose proof (ProgressTrackerFacts.startProcessingPage_currentDepth url depth t1 tr) as H4.
  apply counters_inv in H3 as (H31 & H32 & H33).
  set (tr1 := ProgressTracker.startProcessingPage url depth t1 tr) in *.
  pose proof (ProgressTrackerFacts.pageFailed_counters url message t2 tr1) as H2.
  set (tr2 := ProgressTracker.pageFailed url message t2 tr1) in *.
  pose proof (ProgressTrackerFacts.updateQueueStatus_counters n t3 tr2) as H1.
  rewrite H2 in H1. apply counters_inv in H1 as (H11 & H12 & H13).
  unfold page_counted.
  cbn [PageResult.error PageResult.url PageResult.depth].
  rewrite H11, H12, H13, H31, H32, H33, H4.
  split; [reflexivity|]. split; [reflexivity|]. eexists. reflexivity.
Qed.

Local Arguments storePageResult : simpl never.

(** What one iteration does to the shared state: nothing if the entry is
    skipped; otherwise the progress columns of the job are written, the
    page gets its row (if the job has one), the tracker counts the page,
    and the registry and the other trackers are left alone. *)
Lemma step_effect env l w :
  continues l = true →
  let l' := (step env l w).1 in
  let w' := (step env l w).2 in
  (results l' = results l ∧ w' = w)
  ∨ ∃ pr progress cur n,
      results l' = (results l ++ [pr])%list
      ∧ Database.jobs (db w')
        = alter
            (fun row =>
               Database.mkJob (Database.type row) (Database.status row) progress
                 (Some cur) n (Database.error_message row))
            (jobId l) (Database.jobs (db w))
      ∧ Database.pages (db w')
        = (Database.pages (db w)
           ++ stored (Database.jobs (db w)) (jobId l) [pr])%list
      ∧ activeTrackers w' = activeTrackers w
      ∧ (∀ r, progressTracker l ≠ Some r → heap w' !! r = heap w !! r)
      ∧ ∀ r tr, progressTracker l = Some r → heap w !! r = Some tr →
          ∃ tr', heap w' !! r = Some tr' ∧ page_counted pr tr tr'.
Proof.
  unfold continues, step, iteration, begin_iteration.
  destruct (toCrawl l) as [|[url depth] rest] eqn:Hq; [discriminate|].
  intros _. simpl.
  destruct (bool_decide (url ∈ crawled l) || JS.lt_Q _ (inject_Z depth)); simpl;
    [left; auto|].
  right. unfold finish_page. simpl.
  assert (Hstored : ∀ (f : Database.JobRow → Database.JobRow) (row : Database.PageRow),
            match alter f (jobId l) (Database.jobs (db w)) !! jobId l with
            | Some _ => [row]
            | None => []
            end
            = match Database.jobs (db w) !! jobId l with
              | Some _ => [row]
              | None => []
              end).
  { intros f row. rewrite lookup_alter_eq.
    destruct (Database.jobs (db w) !! jobId l); reflexivity. }
  destruct (attempt env (Z.of_nat (length (results l)) + 1) url) as [sr links|e]; simpl.
  - destruct (if JS.lt_Q _ _ then _ else _) as [q new] eqn:He. simpl.
    match goal with |- context [storePageResult ?a ?b ?c ?d ?e ?f ?g] =>
      destruct (storePageResult_world a b c d e f g) as (Sj & Sa & Sh & _ & Sp)
    end.
    eexists _, _, _, _. split; [reflexivity|].
    rewrite Sj, Sp, Sa, Sh. clear Sj Sp Sa Sh. split_and!.
    + destruct new; rewrite !tracker_call_db; simpl; rewrite ?tracker_call_db;
        reflexivity.
    + destruct new; rewrite !tracker_call_db; simpl; rewrite ?tracker_call_db;
        simpl; rewrite Hstored; unfold stored;
        destruct (Database.jobs (db w) !! jobId l); reflexivity.
    + destruct new; rewrite !tracker_call_activeTrackers; simpl;
        rewrite ?tracker_call_activeTrackers; reflexivity.
    + intros r Hne. destruct new; rewrite !tracker_call_heap_ne by exact Hne; simpl;
        rewrite ?tracker_call_heap_ne by exact Hne; simpl;
        rewrite ?tracker_call_heap_ne by exact Hne; reflexivity.
    + intros r tr -> Htr.
      destruct new as [|u new]; simpl;
        rewrite !lookup_alter_eq, Htr; simpl; (eexists; split; [reflexivity|]).
      * apply counted_completed.
      * apply counted_completed_discovered.
  - match goal with |- context [storePageResult ?a ?b ?c ?d ?e ?f ?g] =>
      destruct (storePageResult_world a b c d e f g) as (Sj & Sa & Sh & _ & Sp)
    end.
    eexists _, _, _, _. split; [reflexivity|].
    rewrite Sj, Sp, Sa, Sh. clear Sj Sp Sa Sh. split_and!.
    + rewrite !tracker_call_db. reflexivity.
    + rewrite !tracker_call_db. simpl. rewrite ?tracker_call_db. simpl.
      rewrite Hstored. unfold stored.
      destruct (Database.jobs (db w) !! jobId l); reflexivity.
    + rewrite !tracker_call_activeTrackers. reflexivity.
    + intros r Hne. rewrite !tracker_call_heap_ne by exact Hne. simpl.
      rewrite !tracker_call_heap_ne by exact Hne. reflexivity.
    + intros r tr -> Htr. simpl.
      rewrite !lookup_alter_eq, Htr. simpl. eexists. split; [reflexivity|].
      apply counted_failed.
Qed.

(** The same, as the rest of the development uses it. *)
Lemma step_world env l w :
  continues l = true →
  let l' := (step env l w).1 in
  let w' := (step env l w).2 in
  (results l' = results l ∧ w' = w)
  ∨ ∃ pr,
      results l' = (results l ++ [pr])%list
      ∧ Database.pages (db w')
        = (Database.pages (db w)
           ++ stored (Database.jobs (db w)) (jobId l) [pr])%list
      ∧ (∀ j, Database.status_of j (db w') = Database.status_of j (db w))
      ∧ activeTrackers w' = activeTrackers w
      ∧ ∀ r tr, progressTracker l = Some r → heap w !! r = Some tr →
          ∃ tr', heap w' !! r = Some tr' ∧ page_counted pr tr tr'.
Proof.
  intros Hgo.
  destruct (step_effect env l w Hgo)
    as [H|(pr & progress & cur & n & Hr & Hj & Hp & Ha & _ & Ht)]; [left; exact H|].
  right. exists pr. split_and!; auto.
  intros j. unfold Database.status_of. rewrite Hj.
  destruct (decide (jobId l = j)) as [->|Hne].
  - rewrite lookup_alter_eq. destruct (Database.jobs (db w) !! j); reflexivity.
  - rewrite lookup_alter_ne by exact Hne. reflexivity.
Qed.

Lemma step_shared env l w :
  continues l = true →
  let w' := (step env l w).2 in
  (∀ j, j ≠ jobId l → Database.jobs (db w') !! j = Database.jobs (db w) !! j)
  ∧ (∀ j, is_Some (Database.jobs (db w') !! j) ↔ is_Some (Database.jobs (db w) !! j))
  ∧ (∀ row, Database.jobs (db w) !! jobId l = Some row →
       ∃ row', Database.jobs (db w') !! jobId l = Some row'
               ∧ Database.type row' = Database.type row
               ∧ Database.status row' = Database.status row
               ∧ Database.error_message row' = Database.error_message row)
  ∧ activeTrackers w' = activeTrackers w
  ∧ (∀ r, progressTracker l ≠ Some r → heap w' !! r = heap w !! r).
Proof.
  intros Hgo.
  destruct (step_effect env l w Hgo)
    as [[_ ->]|(pr & progress & cur & n & _ & Hj & _ & Ha & Hh & _)].
  { split_and!; eauto 6. }
  cbv zeta. rewrite Hj. split_and!; auto.
  - intros j Hne. apply lookup_alter_ne. congruence.
  - intros j. apply alter_is_Some.
  - intros row Hrow. rewrite lookup_alter_eq, Hrow. simpl. eauto 6.
Qed.

(** *** Running the loop *)

Lemma reachable_trans env cb l0 w0 l1 w1 l2 w2 :
  reachable env cb l0 w0 l1 w1 → reachable env cb l1 w1 l2 w2 →
  reachable env cb l0 w0 l2 w2.
Proof.
  intros H01. induction 1 as [|l w l' w' _ IH Hgo Hit]; [exact H01|].
  eapply reach_iteration; eassumption.
Qed.

Lemma loop_done fuel env cb l w :
  continues l = false → loop fuel env cb l w = Some (Normal l w).
Proof. intros H. destruct fuel; simpl; rewrite H; reflexivity. Qed.

Lemma loop_step fuel env cb l w l' w' :
  continues l = true → iteration env cb l w = Normal l' w' →
  loop (S fuel) env cb l w = loop fuel env cb l' w'.
Proof. intros H Hit. simpl. rewrite H, Hit. reflexivity. Qed.

Lemma loop_throw fuel env cb l w e l' w' :
  continues l = true → iteration env cb l w = Abrupt e l' w' →
  loop (S fuel) env cb l w = Some (Abrupt e l' w').
Proof. intros H Hit. simpl. rewrite H, Hit. reflexivity. Qed.

Lemma loop_reachable fuel env cb l w l' w' :
  loop fuel env cb l w = Some (Normal l' w') →
  reachable env cb l w l' w' ∧ continues l' = false.
Proof.
  revert l w. induction fuel as [|fuel IH]; intros l w.
  - simpl. destruct (continues l) eqn:Hgo; [discriminate|].
    intros [= <- <-]. split; [constructor|exact Hgo].
  - destruct (continues l) eqn:Hgo.
    + destruct (iteration env cb l w) as [l1 w1|e l1 w1] eqn:Hit.
      * rewrite (loop_step _ _ _ _ _ _ _ Hgo Hit). intros H.
        destruct (IH _ _ H) as [Hr Hc]. split; [|exact Hc].
        eapply reachable_trans; [|exact Hr].
        eapply reach_iteration; [constructor|exact Hgo|exact Hit].
      * rewrite (loop_throw _ _ _ _ _ _ _ _ Hgo Hit). discriminate.
    + rewrite loop_done by exact Hgo. intros [= <- <-]. split; [constructor|exact Hgo].
Qed.

(** A loop that throws was thrown out of by the legacy report. *)
Lemma loop_abrupt fuel env cb l w e l' w' :
  loop fuel env cb l w = Some (Abrupt e l' w') →
  ∃ l1 w1, reachable env cb l w l1 w1 ∧ continues l1 = true
           ∧ iteration env cb l1 w1 = Abrupt e l' w'.
Proof.
  revert l w. induction fuel as [|fuel IH]; intros l w.
  - simpl. destruct (continues l); discriminate.
  - destruct (continues l) eqn:Hgo.
    + destruct (iteration env cb l w) as [l1 w1|e1 l1 w1] eqn:Hit.
      * rewrite (loop_step _ _ _ _ _ _ _ Hgo Hit). intros H.
        destruct (IH _ _ H) as (l2 & w2 & Hr & Hc & Hthrow).
        exists l2, w2. split; [|auto].
        eapply reachable_trans; [|exact Hr].
        eapply reach_iteration; [constructor|exact Hgo|exact Hit].
      * rewrite (loop_throw _ _ _ _ _ _ _ _ Hgo Hit). intros [= <- <- <-].
        exists l, w. split; [constructor|auto].
    + rewrite loop_done by exact Hgo. discriminate.
Qed.

(** The loop ends: a skipped entry shortens the frontier and a crawled one
    uses up one page of the budget. *)
Lemma loop_total env cb l w :
  ∃ fuel c, loop fuel env cb l w = Some c.
Proof.
  remember (Z.to_nat (Qceiling (maxPages_of l) - processed l)) as n eqn:Hn.
  remember (length (toCrawl l)) as k eqn:Hk.
  revert k l w Hn Hk. induction n as [n IHn] using lt_wf_ind.
  induction k as [k IHk] using lt_wf_ind. intros l w Hn Hk.
  destruct (continues l) eqn:Hgo.
  2: { exists O, (Normal l w). apply loop_done, Hgo. }
  destruct (iteration env cb l w) as [l1 w1|e l1 w1] eqn:Hit.
  2: { exists 1%nat, (Abrupt e l1 w1). apply loop_throw; assumption. }
  destruct (step_locals env l w Hgo) as (url & depth & rest & Hq & Hsame & Heff).
  rewrite (iteration_normal _ _ _ _ _ _ Hit) in Hsame, Heff. cbn [fst] in Hsame, Heff.
  destruct Hsame as (_ & _ & Hopt & _).
  pose proof (below_ceiling _ _ (continues_budget l Hgo)) as Hlt.
  assert (Hnext : ∃ fuel c, loop fuel env cb l1 w1 = Some c).
  { destruct Heff as [(_ & _ & Hr & Ht)|(_ & _ & _ & pr & Hr & _)].
    - apply (IHk (length (toCrawl l1))) with (l := l1).
      + rewrite Ht, Hk, Hq. simpl. lia.
      + unfold maxPages_of, processed in *. rewrite Hopt, Hr. exact Hn.
      + reflexivity.
    - apply (IHn (Z.to_nat (Qceiling (maxPages_of l1) - processed l1)))
        with (k := length (toCrawl l1)) (l := l1); [|reflexivity|reflexivity].
      unfold maxPages_of, processed in *. rewrite Hopt, Hr, length_app. simpl. lia. }
  destruct Hnext as (fuel & c & Hloop).
  exists (S fuel), c. rewrite (loop_step _ _ _ _ _ _ _ Hgo Hit). exact Hloop.
Qed.

Lemma reachable_results env cb l w l' w' :
  reachable env cb l w l' w' → ∃ more, results l' = (results l ++ more)%list.
Proof.
  revert l' w'. apply reachable_step_ind; [exists []; rewrite app_nil_r; reflexivity|].
  intros l1 w1 _ Hgo [more IH].
  destruct (step_world env l1 w1 Hgo) as [[Hr _]|(pr & Hr & _)]; rewrite Hr, IH.
  - exists more. reflexivity.
  - exists (more ++ [pr])%list. rewrite app_assoc. reflexivity.
Qed.

(** *** The crawl as a whole *)

Lemma start_world env jobId0 startUrl0 options w0 :
  let s := start env jobId0 startUrl0 options w0 in
  world_invariant (Database.pages (db w0)) s.1 s.2.
Proof.
  unfold start, now.
  destruct (CrawlOptions.enableProgressTracking (CrawlOptions.defaults options));
    split; simpl; unfold stored; simpl;
    try (destruct (alter _ _ _ !! _)); rewrite ?app_nil_r; try reflexivity.
  - intros r [= <-]. eexists. rewrite lookup_insert_eq. split; reflexivity.
  - intros r [=].
Qed.

Lemma step_world_invariant env pages0 l w :
  continues l = true →
  world_invariant pages0 l w →
  world_invariant pages0 (step env l w).1 (step env l w).2.
Proof.
  intros Hgo [Hp Ht].
  destruct (step_locals env l w Hgo) as (_ & _ & _ & _ & (Hj & _ & _ & Hpt) & _).
  destruct (step_shared env l w Hgo) as (_ & Hsome & _).
  destruct (step_world env l w Hgo) as [[Hr ->]|(pr & Hr & Hpg & _ & _ & Htr)].
  - split.
    + rewrite Hj, Hr. exact Hp.
    + intros r Href. rewrite Hpt in Href. unfold processed. rewrite Hr. apply Ht, Href.
  - split.
    + rewrite Hj, Hr, Hpg, Hp, (stored_same _ _ _ _ (Hsome (jobId l))).
      rewrite stored_app, app_assoc. reflexivity.
    + intros r Href. rewrite Hpt in Href. destruct (Ht r Href) as (tr & Hh & Hc).
      destruct (Htr r tr Href Hh) as (tr' & Hh' & Hcount & _).
      exists tr'. split; [exact Hh'|].
      unfold processed in *. rewrite Hcount, Hc, Hr, length_app. simpl. lia.
Qed.

Lemma reachable_world_invariant env cb pages0 l0 w0 l w :
  world_invariant pages0 l0 w0 → reachable env cb l0 w0 l w → world_invariant pages0 l w.
Proof.
  intros H0. revert l w. apply reachable_step_ind; [exact H0|].
  intros l w _ Hgo IH. apply step_world_invariant; assumption.
Qed.

Lemma reachable_shared env cb l0 w0 l w :
  reachable env cb l0 w0 l w →
  (∀ j, j ≠ jobId l0 → Database.jobs (db w) !! j = Database.jobs (db w0) !! j)
  ∧ (∀ j, is_Some (Database.jobs (db w) !! j) ↔ is_Some (Database.jobs (db w0) !! j))
  ∧ (∀ row, Database.jobs (db w0) !! jobId l0 = Some row →
       ∃ row', Database.jobs (db w) !! jobId l0 = Some row'
               ∧ Database.type row' = Database.type row
               ∧ Database.status row' = Database.status row
               ∧ Database.error_message row' = Database.error_message row)
  ∧ activeTrackers w = activeTrackers w0
  ∧ (∀ r, progressTracker l0 ≠ Some r → heap w !! r = heap w0 !! r).
Proof.
  revert l w. apply reachable_step_ind; [split_and!; eauto 6|].
  intros l w Hreach Hgo (I1 & I2 & I3 & I4 & I5).
  destruct (reachable_same_job _ _ _ _ _ _ Hreach) as (Hj & _ & _ & Hpt).
  destruct (step_shared env l w Hgo) as (S1 & S2 & S3 & S4 & S5).
  split_and!.
  - intros j Hne. rewrite S1 by congruence. apply I1, Hne.
  - intros j. rewrite S2. apply I2.
  - intros row Hrow. destruct (I3 row Hrow) as (row1 & R1 & T1 & U1 & E1).
    rewrite <- Hj in R1. destruct (S3 row1 R1) as (row2 & R2 & T2 & U2 & E2).
    exists row2. rewrite <- Hj. split; [exact R2|]. split_and!; congruence.
  - rewrite S4. exact I4.
  - intros r Hne. rewrite S5 by congruence. apply I5, Hne.
Qed.

Lemma finish_pages env l w :
  Database.pages (db (finish env l w).2) = Database.pages (db w)
  ∧ Database.jobs (db (finish env l w).2)
    = alter
        (fun row =>
           Database.mkJob (Database.type row) Database.completed (JS.of_Z 100)
             (Database.current_url row) (Database.pages_crawled row)
             (Database.error_message row))
        (jobId l) (Database.jobs (db w))
  ∧ CrawlResult.results (finish env l w).1 = results l
  ∧ CrawlResult.totalPages (finish env l w).1 = processed l.
Proof.
  unfold finish, finally, now. simpl. destruct (progressTracker l); simpl; auto.
Qed.

Lemma finish_status env l w row :
  Database.jobs (db w) !! jobId l = Some row →
  Database.status_of (jobId l) (db (finish env l w).2) = Some Database.completed.
Proof.
  intros Hrow. unfold finish, finally, now, Database.status_of. simpl.
  destruct (progressTracker l); simpl; rewrite lookup_alter_eq, Hrow; reflexivity.
Qed.

Lemma start_reachable_invariant env cb jobId0 startUrl0 options w0 l w :
  let s := start env jobId0 startUrl0 options w0 in
  reachable env cb s.1 s.2 l w →
  invariant l ∧ world_invariant (Database.pages (db w0)) l w
  ∧ jobId l = jobId0 ∧ startUrl l = startUrl0
  ∧ crawlOptions l = CrawlOptions.defaults options.
Proof.
  intros s Hreach.
  destruct (start_locals env jobId0 startUrl0 options w0) as (Hj & Hs & Ho & _).
  destruct (reachable_same_job _ _ _ _ _ _ Hreach) as (Hj' & Hs' & Ho' & _).
  split; [eapply reachable_invariant; [apply start_invariant|exact Hreach]|].
  split; [eapply reachable_world_invariant; [apply start_world|exact Hreach]|].
  subst s. repeat split; congruence.
Qed.

(** An entry that is visited or too deep is dropped, whatever callback the
    crawl was given. *)
Lemma too_deep_is_skipped env cb l w url depth rest :
  toCrawl l = (url, depth) :: rest →
  url ∈ crawled l ∨ (maxDepth_of l < inject_Z depth)%Q →
  ∃ l', iteration env cb l w = Normal l' w
        ∧ results l' = results l ∧ toCrawl l' = rest ∧ crawled l' = crawled l.
Proof.
  intros Hq Hwhy. unfold iteration, begin_iteration. rewrite Hq. simpl.
  assert (Hc : bool_decide (url ∈ crawled l)
               || JS.lt_Q (CrawlOptions.maxDepth (crawlOptions l)) (inject_Z depth)
               = true).
  { apply orb_true_iff. destruct Hwhy as [H|H]; [left|right].
    - apply bool_decide_eq_true. exact H.
    - apply lt_Q_true. exact H. }
  rewrite Hc. eexists. split; [reflexivity|]. simpl. auto.
Qed.

Lemma start_shared env jobId0 startUrl0 options w0 :
  let s := start env jobId0 startUrl0 options w0 in
  (∀ j, j ≠ jobId0 → Database.jobs (db s.2) !! j = Database.jobs (db w0) !! j)
  ∧ (∀ j, is_Some (Database.jobs (db s.2) !! j) ↔ is_Some (Database.jobs (db w0) !! j))
  ∧ (∀ row, Database.jobs (db w0) !! jobId0 = Some row →
       ∃ row', Database.jobs (db s.2) !! jobId0 = Some row'
               ∧ Database.type row' = Database.type row
               ∧ Database.error_message row' = Database.error_message row)
  ∧ (if CrawlOptions.enableProgressTracking (CrawlOptions.defaults options)
     then ∃ r, progressTracker s.1 = Some r
               ∧ activeTrackers s.2 = <[jobId0 := r]> (activeTrackers w0)
     else progressTracker s.1 = None ∧ activeTrackers s.2 = activeTrackers w0
          ∧ heap s.2 = heap w0).
Proof.
  unfold start, now.
  assert (Hother : ∀ (w : World) j, j ≠ jobId0 →
            Database.jobs (db (updateJobStatus jobId0 Database.processing (JS.of_Z 0) None w))
              !! j = Database.jobs (db w) !! j).
  { intros w j Hne. unfold updateJobStatus. simpl. apply lookup_alter_ne. congruence. }
  assert (Hsome : ∀ (w : World) j,
            is_Some (Database.jobs
                       (db (updateJobStatus jobId0 Database.processing (JS.of_Z 0) None w))
                       !! j) ↔ is_Some (Database.jobs (db w) !! j)).
  { intros w j. unfold updateJobStatus. simpl. apply alter_is_Some. }
  assert (Hrow : ∀ (w : World) row, Database.jobs (db w) !! jobId0 = Some row →
            ∃ row', Database.jobs
                      (db (updateJobStatus jobId0 Database.processing (JS.of_Z 0) None w))
                      !! jobId0 = Some row'
                    ∧ Database.type row' = Database.type row
                    ∧ Database.error_message row' = Database.error_message row).
  { intros w row Hr. unfold updateJobStatus. simpl. rewrite lookup_alter_eq, Hr. simpl.
    eexists. split; [reflexivity|]. split; reflexivity. }
  destruct (CrawlOptions.enableProgressTracking (CrawlOptions.defaults options)); simpl.
  - split_and!.
    + intros j Hne. apply (Hother _ j Hne).
    + intros j. apply (Hsome _ j).
    + intros row Hr. apply (Hrow _ row Hr).
    + eexists. split; reflexivity.
  - split_and!; auto.
    + intros j Hne. apply (Hother _ j Hne).
    + intros j. apply (Hsome _ j).
    + intros row Hr. apply (Hrow _ row Hr).
Qed.

(** The rows of a running crawl, told from the state it started in. *)
Lemma reachable_pages env cb jobId0 startUrl0 options w0 l w :
  let s := start env jobId0 startUrl0 options w0 in
  reachable env cb s.1 s.2 l w →
  Database.pages (db w)
  = (Database.pages (db w0) ++ stored (Database.jobs (db w0)) jobId0 (results l))%list.
Proof.
  intros s Hreach.
  destruct (start_reachable_invariant _ _ _ _ _ _ _ _ Hreach) as (_ & [Hp _] & Hj & _).
  destruct (reachable_shared _ _ _ _ _ _ Hreach) as (_ & Hsome & _).
  destruct (start_shared env jobId0 startUrl0 options w0) as (_ & Hsome0 & _).
  rewrite Hp, Hj. f_equal. apply stored_same.
  rewrite Hsome. apply Hsome0.
Qed.

Lemma crawlMultiPage_total env jobId0 startUrl0 options cb w0 :
  ∃ fuel out w', crawlMultiPage fuel env jobId0 startUrl0 options cb w0 = Some (out, w').
Proof.
  unfold crawlMultiPage. destruct (start env jobId0 startUrl0 options w0) as [l0 w1].
  destruct (loop_total env cb l0 w1) as (fuel & [l w|e l w] & Hloop).
  - exists fuel, (Resolved (finish env l w).1), (finish env l w).2. rewrite Hloop.
    destruct (finish env l w). reflexivity.
  - exists fuel, (Rejected e), (abort env e l w). rewrite Hloop. reflexivity.
Qed.

Lemma crawlMultiPage_inv fuel env jobId0 startUrl0 options cb w0 res w' :
  crawlMultiPage fuel env jobId0 startUrl0 options cb w0 = Some (Resolved res, w') →
  let s := start env jobId0 startUrl0 options w0 in
  ∃ l w, loop fuel env cb s.1 s.2 = Some (Normal l w)
         ∧ reachable env cb s.1 s.2 l w ∧ continues l = false
         ∧ finish env l w = (res, w').
Proof.
  unfold crawlMultiPage. destruct (start env jobId0 startUrl0 options w0) as [l0 w1].
  cbn [fst snd].
  destruct (loop fuel env cb l0 w1) as [[l w|e l w]|] eqn:Hloop; [| |discriminate].
  - destruct (finish env l w) as [res1 w1'] eqn:Hfin. intros [= <- <-].
    exists l, w. destruct (loop_reachable _ _ _ _ _ _ _ Hloop) as [Hr Hc].
    split; [reflexivity|]. split; [exact Hr|]. split; [exact Hc|]. exact Hfin.
  - discriminate.
Qed.

(** C3.  The page budget.  The loop goes on only while fewer than
    [maxPages] pages have a result, so the pages processed (the entries of
    [results], which the tracker counts as [pagesProcessed]) never exceed
    [maxPages] rounded up, and never [maxPages] itself when that is a whole
    number.  When the budget is reached the loop stops, whatever the
    frontier still holds: those entries are in no page result, the [pages]
    table holds rows for the page results only (and none if the job has no
    row in [jobs]), and finishing the job inserts no row.  The crawl
    always ends, and its result holds no more pages than the budget
    allows. *)
Theorem C3_page_budget
    (env : Env) (progressCallback : option ProgressCallback)
    (jobId0 startUrl0 : string) (options : CrawlOptions.Raw)
    (w0 : World) (l : Locals) (w : World) :
  let s := start env jobId0 startUrl0 options w0 in
  let maxPages := CrawlOptions.maxPages (CrawlOptions.defaults options) in
  reachable env progressCallback s.1 s.2 l w →
  processed l ≤ Z.max 0 (Qceiling maxPages)
  ∧ (∀ n, maxPages == inject_Z n → 0 ≤ n → processed l ≤ n)
  ∧ (continues l = true → (inject_Z (processed l) < maxPages)%Q)
  ∧ (∀ r, progressTracker l = Some r →
       ∃ tr, heap w !! r = Some tr
             ∧ CrawlProgress.pagesProcessed (ProgressTracker.progress tr) = processed l)
  ∧ Database.pages (db w)
    = (Database.pages (db w0)
       ++ match Database.jobs (db w0) !! jobId0 with
          | Some _ => map (page_row jobId0) (results l)
          | None => []
          end)%list
  ∧ ((maxPages <= inject_Z (processed l))%Q →
       (∀ fuel, loop fuel env progressCallback l w = Some (Normal l w))
       ∧ CrawlResult.results (finish env l w).1 = results l
       ∧ Database.pages (db (finish env l w).2) = Database.pages (db w)
       ∧ ∀ u d, (u, d) ∈ toCrawl l → u ∉ urls_of (results l))
  ∧ ∃ fuel out w',
      crawlMultiPage fuel env jobId0 startUrl0 options progressCallback w0
      = Some (out, w')
      ∧ ∀ r, out = Resolved r →
          CrawlResult.totalPages r ≤ Z.max 0 (Qceiling maxPages)
          ∧ ∀ n, maxPages == inject_Z n → 0 ≤ n → CrawlResult.totalPages r ≤ n.
Proof.
  intros s maxPages Hreach.
  destruct (start_reachable_invariant _ _ _ _ _ _ _ _ Hreach)
    as (Hinv & [_ Htr] & Hj & _ & Ho).
  assert (Hbudget : ∀ l1 w1, reachable env progressCallback s.1 s.2 l1 w1 →
            processed l1 ≤ Z.max 0 (Qceiling maxPages)
            ∧ ∀ n, maxPages == inject_Z n → 0 ≤ n → processed l1 ≤ n).
  { intros l1 w1 H1.
    destruct (start_reachable_invariant _ _ _ _ _ _ _ _ H1) as (Hi & _ & _ & _ & Ho1).
    pose proof (results_budget _ Hi) as Hb. unfold maxPages_of in Hb.
    rewrite Ho1 in Hb. fold maxPages in Hb. split; [exact Hb|].
    intros n Hn Hpos. rewrite (Qceiling_comp _ _ Hn), Qceiling_Z in Hb. lia. }
  split; [exact (proj1 (Hbudget l w Hreach))|].
  split; [exact (proj2 (Hbudget l w Hreach))|].
  split.
  { intros Hgo. pose proof (continues_budget l Hgo) as Hlt.
    unfold maxPages_of in Hlt. rewrite Ho in Hlt. exact Hlt. }
  split; [exact Htr|].
  split; [exact (reachable_pages _ _ _ _ _ _ _ _ Hreach)|]. split.
  - intros Hfull.
    assert (Hstop : continues l = false).
    { unfold continues. destruct (toCrawl l); [reflexivity|].
      apply lt_Q_false. rewrite Ho. exact Hfull. }
    split; [intros fuel; apply loop_done, Hstop|].
    destruct (finish_pages env l w) as (H1 & _ & H2 & _).
    split; [exact H2|]. split; [exact H1|].
    intros u d Hin Hres. apply (results_crawled _ Hinv) in Hres.
    apply (frontier_fresh _ Hinv u); [|exact Hres].
    apply list_elem_of_fmap. exists (u, d). split; [reflexivity|exact Hin].
  - destruct (crawlMultiPage_total env jobId0 startUrl0 options progressCallback w0)
      as (fuel & out & w' & Hrun).
    exists fuel, out, w'. split; [exact Hrun|].
    intros r ->.
    destruct (crawlMultiPage_inv _ _ _ _ _ _ _ _ _ Hrun) as (l' & w1 & _ & Hr' & _ & Hfin).
    destruct (finish_pages env l' w1) as (_ & _ & _ & Htotal).
    rewrite Hfin in Htotal. simpl in Htotal. rewrite Htotal.
    apply (Hbudget l' w1 Hr').
Qed.

(** C4.  The depth limit.  No page result has a depth above [maxDepth],
    and an entry of the frontier that is too deep is dropped when it is
    popped.  Links are queued at [depth + 1] only from a page with
    [depth < maxDepth]: every frontier entry but the seed stands one level
    below such a page, a page at or beyond the limit queues nothing, and
    when [maxDepth] is a whole number every entry but the seed has a depth
    within the limit. *)
Theorem C4_depth_bound
    (env : Env) (progressCallback : option ProgressCallback)
    (jobId0 startUrl0 : string) (options : CrawlOptions.Raw)
    (w0 : World) (l : Locals) (w : World) :
  let s := start env jobId0 startUrl0 options w0 in
  let maxDepth := CrawlOptions.maxDepth (CrawlOptions.defaults options) in
  reachable env progressCallback s.1 s.2 l w →
  Forall (fun r => (inject_Z (PageResult.depth r) <= maxDepth)%Q) (results l)
  ∧ Forall (fun e => e = (startUrl0, 0) ∨ (inject_Z (e.2 - 1) < maxDepth)%Q) (toCrawl l)
  ∧ (∀ n, maxDepth == inject_Z n →
       Forall (fun e => e = (startUrl0, 0) ∨ e.2 ≤ n) (toCrawl l))
  ∧ (∀ url depth rest,
       toCrawl l = (url, depth) :: rest → (maxDepth < inject_Z depth)%Q →
       ∃ l', iteration env progressCallback l w = Normal l' w
             ∧ results l' = results l ∧ toCrawl l' = rest)
  ∧ ∀ url depth rest l' w',
      toCrawl l = (url, depth) :: rest → (maxDepth <= inject_Z depth)%Q →
      iteration env progressCallback l w = Normal l' w' →
      toCrawl l' = rest.
Proof.
  intros s maxDepth Hreach.
  destruct (start_reachable_invariant _ _ _ _ _ _ _ _ Hreach)
    as (Hinv & _ & _ & Hs & Ho).
  pose proof (results_depth _ Hinv) as Hrd. pose proof (frontier_depth _ Hinv) as Hfd.
  unfold maxDepth_of in *. rewrite Ho in Hrd, Hfd. rewrite Hs in Hfd.
  fold maxDepth in Hrd, Hfd.
  split; [exact Hrd|]. split; [exact Hfd|]. split; [|split].
  - intros n Hn. eapply Forall_impl; [exact Hfd|]. simpl.
    intros e [He|He]; [left; exact He|right].
    rewrite Hn, <- Zlt_Qlt in He. lia.
  - intros url depth rest Hq Hdeep.
    destruct (too_deep_is_skipped env progressCallback l w url depth rest Hq)
      as (l' & H1 & H2 & H3 & _).
    { right. unfold maxDepth_of. rewrite Ho. exact Hdeep. }
    exists l'. auto.
  - intros url depth rest l' w' Hq Hdeep Hit.
    assert (Hgo : continues l = true ∨ continues l = false)
      by (destruct (continues l); auto).
    apply iteration_normal in Hit.
    assert (Hl' : l' = (step env l w).1) by (rewrite Hit; reflexivity).
    clear Hgo. revert Hl'. unfold step, iteration, begin_iteration. rewrite Hq. simpl.
    destruct (bool_decide (url ∈ crawled l) || JS.lt_Q _ (inject_Z depth)); simpl;
      [intros ->; reflexivity|].
    unfold finish_page. simpl.
    destruct (attempt env (Z.of_nat (length (results l)) + 1) url) as [sr links|e];
      simpl; [|intros ->; reflexivity].
    assert (Hno : JS.lt_Q (inject_Z depth) (CrawlOptions.maxDepth (crawlOptions l))
                  = false).
    { apply lt_Q_false. rewrite Ho. exact Hdeep. }
    rewrite Hno. simpl. intros ->. reflexivity.
Qed.

(** C5.  No URL is crawled twice in a job: the page results have pairwise
    different URLs, which are exactly the visited ones; the frontier holds
    no URL twice and no visited URL, since [enqueue] adds a link only if it
    is neither visited nor queued, also when a page lists it several times;
    and an entry whose URL is visited would be dropped when popped. *)
Theorem C5_no_url_twice
    (env : Env) (progressCallback : option ProgressCallback)
    (jobId0 startUrl0 : string) (options : CrawlOptions.Raw)
    (w0 : World) (l : Locals) (w : World) :
  let s := start env jobId0 startUrl0 options w0 in
  reachable env progressCallback s.1 s.2 l w →
  NoDup (urls_of (results l))
  ∧ (∀ u, u ∈ urls_of (results l) ↔ u ∈ crawled l)
  ∧ NoDup (toCrawl l).*1
  ∧ (∀ u, u ∈ (toCrawl l).*1 → u ∉ crawled l)
  ∧ (∀ depth links,
       ∃ added,
         enqueue (crawled l) depth links (toCrawl l)
         = ((toCrawl l ++ map (fun u => (u, depth + 1)) added)%list, added)
         ∧ NoDup added
         ∧ ∀ u, u ∈ added → u ∈ links ∧ (u ∉ crawled l) ∧ (u ∉ (toCrawl l).*1))
  ∧ ∀ l2 w2 url depth rest,
      toCrawl l2 = (url, depth) :: rest → url ∈ crawled l2 →
      ∃ l3, iteration env progressCallback l2 w2 = Normal l3 w2
            ∧ results l3 = results l2 ∧ toCrawl l3 = rest.
Proof.
  intros s Hreach.
  destruct (start_reachable_invariant _ _ _ _ _ _ _ _ Hreach) as (Hinv & _).
  destruct Hinv as [Hfn Hff Hrn Hrc _ _ _].
  split; [exact Hrn|]. split; [exact Hrc|]. split; [exact Hfn|]. split; [exact Hff|].
  split; [intros depth links; apply enqueue_spec|].
  intros l2 w2 url depth rest Hq Hv.
  destruct (too_deep_is_skipped env progressCallback l2 w2 url depth rest Hq)
    as (l3 & H1 & H2 & H3 & _); [auto|].
  exists l3. auto.
Qed.







(** *** A crawl followed step by step *)

(** C1.  Cancellation does not stop a running crawl.  [cancelCrawlJob]
    answers [true] and writes [cancelled], but the loop never looks at
    anything it changed: after the page in flight it goes on to attempt the
    two remaining pages, and at the end the job and the tracker are
    [completed], whatever [progressCallback] the crawl was given. *)
Theorem C1_cancelled_crawl_runs_on (progressCallback : option ProgressCallback) :
  cancel_during_first_page 10 demo_env "job-1" "https://example.com/" demo_options
    progressCallback demo_world
  = Some
      {| cancel_returned := true;
         status_after_cancel := Some Database.cancelled;
         attempts_after_cancel := 2;
         final_status := Some Database.completed;
         final_tracker_status := Some CrawlProgress.completed |}.
Proof. destruct progressCallback as [callback|]; vm_compute; reflexivity. Qed.

(** With a budget of two pages and a half the demo crawl processes three
    pages. *)
Lemma C3_counterexample :
  ∃ res w',
    crawlMultiPage 10 demo_env "job-1" "https://example.com/" fractional_budget None
      demo_world = Some (Resolved res, w')
    ∧ CrawlResult.totalPages res = 3
    ∧ CrawlOptions.maxPages (CrawlOptions.defaults fractional_budget) = (5 # 2)%Q
    ∧ ¬ (inject_Z (CrawlResult.totalPages res)
         <= CrawlOptions.maxPages (CrawlOptions.defaults fractional_budget))%Q.
Proof.
  destruct (crawlMultiPage 10 demo_env "job-1" "https://example.com/" fractional_budget
              None demo_world) as [[[res|e] w']|] eqn:Hrun;
    [|vm_compute in Hrun; discriminate|vm_compute in Hrun; discriminate].
  exists res, w'. split; [reflexivity|].
  assert (Htotal : CrawlResult.totalPages res = 3).
  { vm_compute in Hrun. injection Hrun as <- _. reflexivity. }
  split; [exact Htotal|]. split; [reflexivity|].
  rewrite Htotal. intros H. vm_compute in H. apply H. reflexivity.
Qed.

(** The budget after the first page of the demo crawl. *)
Lemma C3_page_budget_witness :
  let s := start demo_env "job-1" "https://example.com/" demo_options demo_world in
  let l := (step demo_env s.1 s.2).1 in
  let w := (step demo_env s.1 s.2).2 in
  reachable demo_env None s.1 s.2 l w
  ∧ processed l ≤ 5.
Proof.
  intros s l w.
  assert (H2 : reachable demo_env None s.1 s.2 l w).
  { eapply reach_iteration; [apply reach_here|vm_compute; reflexivity|].
    apply step_iteration. }
  split; [exact H2|].
  exact (proj1 (C3_page_budget demo_env None "job-1" "https://example.com/" demo_options
                  demo_world l w H2)).
Defined.

(** With a depth limit of one and a half, the page at depth 1 of the chain
    queues its link at depth 2. *)
Lemma C4_counterexample :
  let s := start chain_env "job-1" "https://example.com/" fractional_depth demo_world in
  let s1 := step chain_env s.1 s.2 in
  let s2 := step chain_env s1.1 s1.2 in
  reachable chain_env None s.1 s.2 s2.1 s2.2
  ∧ map PageResult.depth (results s2.1) = [0; 1]
  ∧ toCrawl s2.1 = [("https://example.com/b", 2)]
  ∧ CrawlOptions.maxDepth (CrawlOptions.defaults fractional_depth) = (3 # 2)%Q
  ∧ ¬ (inject_Z (1 + 1)
       <= CrawlOptions.maxDepth (CrawlOptions.defaults fractional_depth))%Q.
Proof.
  intros s s1 s2. split_and!.
  - assert (H1 : reachable chain_env None s.1 s.2 s1.1 s1.2).
    { eapply reach_iteration; [apply reach_here|vm_compute; reflexivity|].
      apply step_iteration. }
    eapply (reach_iteration _ _ _ _ s1.1 s1.2); [exact H1|vm_compute; reflexivity|].
    apply step_iteration.
  - vm_compute. reflexivity.
  - vm_compute. reflexivity.
  - reflexivity.
  - intros H. vm_compute in H. apply H. reflexivity.
Qed.

(** The depth bound after the first page of the demo crawl. *)
Lemma C4_depth_bound_witness :
  let s := start demo_env "job-1" "https://example.com/" demo_options demo_world in
  let l := (step demo_env s.1 s.2).1 in
  let w := (step demo_env s.1 s.2).2 in
  reachable demo_env None s.1 s.2 l w
  ∧ Forall (fun r => (inject_Z (PageResult.depth r) <= 1)%Q) (results l).
Proof.
  intros s l w.
  assert (H : reachable demo_env None s.1 s.2 l w).
  { eapply reach_iteration; [apply reach_here|vm_compute; reflexivity|].
    apply step_iteration. }
  split; [exact H|].
  exact (proj1 (C4_depth_bound demo_env None "job-1" "https://example.com/" demo_options
                  demo_world l w H)).
Defined.

(** The seed lists [/a] twice; after it the frontier holds [/a] once. *)
Lemma C5_no_url_twice_witness :
  let s := start demo_env "job-1" "https://example.com/" demo_options demo_world in
  let l := (step demo_env s.1 s.2).1 in
  let w := (step demo_env s.1 s.2).2 in
  reachable demo_env None s.1 s.2 l w
  ∧ NoDup (urls_of (results l)) ∧ NoDup (toCrawl l).*1.
Proof.
  intros s l w.
  assert (H : reachable demo_env None s.1 s.2 l w).
  { eapply reach_iteration; [apply reach_here|vm_compute; reflexivity|].
    apply step_iteration. }
  split; [exact H|].
  destruct (C5_no_url_twice demo_env None "job-1" "https://example.com/" demo_options
              demo_world l w H) as (H1 & _ & H2 & _).
  split; [exact H1|exact H2].
Defined.



End CrawlingServiceFacts.

(** ** Lists *)

Module ListFacts.

Lemma filter_filter_iff {A} (P Q R : A → Prop)
    `{!∀ x, Decision (P x)} `{!∀ x, Decision (Q x)} `{!∀ x, Decision (R x)}
    (l : list A) :
  (∀ x, x ∈ l → (P x ∧ Q x ↔ R x)) → filter P (filter Q l) = filter R l.
Proof.
  induction l as [|x l IH]; intros Hall; [reflexivity|].
  assert (Hx := Hall x (list_elem_of_here x l)).
  assert (Hl : ∀ y, y ∈ l → (P y ∧ Q y ↔ R y)) by (intros y Hy; apply Hall; right; exact Hy).
  rewrite (filter_cons Q), (filter_cons R).
  destruct (decide (Q x)) as [q|q].
  - rewrite filter_cons. destruct (decide (P x)) as [p|p]; destruct (decide (R x)) as [r|r];
      rewrite ?IH by exact Hl; try reflexivity; tauto.
  - destruct (decide (R x)) as [r|r]; [tauto|]. apply IH, Hl.
Qed.

Lemma filter_iff_in {A} (P R : A → Prop)
    `{!∀ x, Decision (P x)} `{!∀ x, Decision (R x)} (l : list A) :
  (∀ x, x ∈ l → (P x ↔ R x)) → filter P l = filter R l.
Proof.
  induction l as [|x l IH]; intros Hall; [reflexivity|].
  assert (Hx := Hall x (list_elem_of_here x l)).
  rewrite !filter_cons.
  destruct (decide (P x)); destruct (decide (R x)); try tauto;
    rewrite IH; auto; intros y Hy; apply Hall; right; exact Hy.
Qed.

Lemma filter_all {A} (P : A → Prop) `{!∀ x, Decision (P x)} (l : list A) :
  (∀ x, x ∈ l → P x) → filter P l = l.
Proof.
  induction l as [|x l IH]; intros Hall; [reflexivity|].
  rewrite filter_cons. destruct (decide (P x)) as [p|p].
  - f_equal. apply IH. intros y Hy. apply Hall. right. exact Hy.
  - exfalso. apply p, Hall. left.
Qed.

Lemma filter_none {A} (P : A → Prop) `{!∀ x, Decision (P x)} (l : list A) :
  (∀ x, x ∈ l → ¬ P x) → filter P l = [].
Proof.
  induction l as [|x l IH]; intros Hall; [reflexivity|].
  rewrite filter_cons. destruct (decide (P x)) as [p|p].
  - exfalso. apply (Hall x); [left|exact p].
  - apply IH. intros y Hy. apply Hall. right. exact Hy.
Qed.

End ListFacts.

(** ** More on the progress tracker *)

Module ProgressTrackerMore.
Import CrawlProgress ProgressTracker ProgressTrackerSpec ProgressTrackerFacts TrackerLog.

Lemma min_100_not_above (a : float) :
  JS.gt (JS.min a (JS.of_Z 100)) (JS.of_Z 100) = false.
Proof.
  unfold JS.min, JS.gt.
  destruct (JS.is_nan a || JS.is_nan (JS.of_Z 100)); [reflexivity|].
  destruct (PrimFloat.ltb (JS.of_Z 100) a) eqn:E; [reflexivity|exact E].
Qed.

Lemma emitUpdate_percentage b tr :
  progressPercentage (progress (emitUpdate b tr)) = progressPercentage (progress tr).
Proof. unfold emitUpdate, outputToStdout. destruct (_ && _); reflexivity. Qed.

Lemma handle_percentage ev now tr :
  JS.gt (progressPercentage (progress tr)) (JS.of_Z 100) = false →
  JS.gt (progressPercentage (progress (handle ev now tr))) (JS.of_Z 100) = false.
Proof.
  intros H.
  destruct ev; unfold handle;
    unfold startProcessingPage, pageCompleted, pageFailed, urlsDiscovered,
      updateQueueStatus, markCompleted, markFailed, stdoutTimerFired, stopStdoutUpdates;
    cbn [progress];
    rewrite ?emitUpdate_percentage, ?calculateProgress_percentage;
    try apply min_100_not_above; try exact H; try reflexivity.
  destruct (_ && _); [|exact H]. exact H.
Qed.

(** X1.  The percentage of a snapshot is never above 100, whatever the events
    and however many pages were counted against [maxPages]. *)
Theorem percentage_never_above_100
    (o : ProgressTrackerOptions.t) (now0 : Z) (evs : list (Event * Z)) :
  JS.gt (progressPercentage (progress (run evs (new o now0)))) (JS.of_Z 100) = false.
Proof.
  assert (H : ∀ tr, JS.gt (progressPercentage (progress tr)) (JS.of_Z 100) = false →
            JS.gt (progressPercentage (progress (run evs tr))) (JS.of_Z 100) = false).
  { induction evs as [|[ev now] evs IH]; intros tr Htr; simpl; [exact Htr|].
    apply IH, handle_percentage, Htr. }
  apply H. reflexivity.
Qed.

(** *** A tracker that must stay silent *)

Lemma emitUpdate_silent b tr :
  ProgressTrackerOptions.enableStdoutUpdates (options tr) = false →
  emitUpdate b tr = tr.
Proof. intros H. unfold emitUpdate. rewrite H, andb_false_r. reflexivity. Qed.

Lemma calculateProgress_silent tr : silent tr → silent (calculateProgress tr).
Proof.
  unfold silent, calculateProgress. cbn [options stdoutUpdateTimer progress with_progress].
  intros (H1 & H2 & H3). split; [exact H1|]. split; [exact H2|].
  split_ifs; exact H3.
Qed.

Lemma handle_silent ev now tr : silent tr → silent (handle ev now tr).
Proof.
  intros H. pose proof H as (He & Ht & Hc).
  destruct ev; unfold handle;
    unfold startProcessingPage, pageCompleted, pageFailed, urlsDiscovered,
      updateQueueStatus, markCompleted, markFailed, stdoutTimerFired;
    rewrite ?emitUpdate_silent by exact He;
    try (apply calculateProgress_silent);
    try (split; [exact He|]; split; [try exact Ht; reflexivity|]; cbn; try exact Hc).
  - destruct (0 <? linksFound); exact Hc.
  - rewrite Ht. simpl. exact H.
Qed.

(** X2.  With [enableStdoutUpdates] off a tracker writes nothing to stdout: no
    event arms the timer or counts a message. *)
Theorem silent_tracker_never_prints
    (o : ProgressTrackerOptions.t) (now0 : Z) (evs : list (Event * Z)) :
  ProgressTrackerOptions.enableStdoutUpdates o = false →
  let tr := run evs (new o now0) in
  stdoutMessageCount (progress tr) = 0 ∧ stdoutUpdateTimer tr = false.
Proof.
  intros Ho.
  assert (H : ∀ tr, silent tr → silent (run evs tr)).
  { induction evs as [|[ev now] evs IH]; intros tr Htr; simpl; [exact Htr|].
    apply IH, handle_silent, Htr. }
  destruct (H (new o now0)) as (_ & H2 & H3).
  - split; [exact Ho|]. split; [exact Ho|reflexivity].
  - split; assumption.
Qed.

Lemma silent_tracker_never_prints_witness :
  let o :=
    ProgressTrackerOptions.mk "job-1" "https://example.com/" 10 2 false 5000 verbose
      true 3 in
  let evs :=
    [(StartProcessingPage "https://example.com/" 0, 10);
     (PageFailed "https://example.com/" "timeout", 20); (StdoutTimerFired, 9000);
     (MarkCompleted, 9100)] in
  ProgressTrackerOptions.enableStdoutUpdates o = false
  ∧ stdoutMessageCount (progress (run evs (new o 0))) = 0.
Proof.
  intros o evs. split; [reflexivity|].
  exact (proj1 (silent_tracker_never_prints o 0 evs eq_refl)).
Defined.

(** *** What the counters count *)

Lemma handle_pageNumber ev now tr :
  currentPageNumber (progress (handle ev now tr))
  = currentPageNumber (progress tr) + (if is_started ev then 1 else 0).
Proof.
  destruct ev; unfold handle;
    unfold startProcessingPage, pageCompleted, pageFailed, urlsDiscovered,
      updateQueueStatus, markCompleted, markFailed, stdoutTimerFired,
      stopStdoutUpdates, emitUpdate, outputToStdout, calculateProgress;
    cbn [progress with_progress options is_started];
    split_ifs; cbn; lia.
Qed.

(** X3.  The counters of a snapshot are counts of events: pages processed are the
    [pageCompleted] and [pageFailed] events, successes and failures each
    their own, the page number the [startProcessingPage] events; and the
    error list is the log of the failures, in order, each stamped with the
    time of its event. *)
Theorem counters_count_events
    (o : ProgressTrackerOptions.t) (now0 : Z) (evs : list (Event * Z)) :
  let p := progress (run evs (new o now0)) in
  pagesSuccessful p = occurrences is_completed evs
  ∧ pagesFailed p = occurrences is_failed evs
  ∧ pagesProcessed p = occurrences is_completed evs + occurrences is_failed evs
  ∧ currentPageNumber p = occurrences is_started evs
  ∧ map reported (errors p) = failures evs.
Proof.
  assert (H : ∀ tr,
    let p0 := progress tr in
    let p := progress (run evs tr) in
    pagesSuccessful p = pagesSuccessful p0 + occurrences is_completed evs
    ∧ pagesFailed p = pagesFailed p0 + occurrences is_failed evs
    ∧ pagesProcessed p
      = pagesProcessed p0 + occurrences is_completed evs + occurrences is_failed evs
    ∧ currentPageNumber p = currentPageNumber p0 + occurrences is_started evs
    ∧ map reported (errors p) = (map reported (errors p0) ++ failures evs)%list).
  { induction evs as [|[ev now] evs IH]; intros tr; simpl.
    - rewrite app_nil_r. split_and!; try lia; reflexivity.
    - destruct (IH (handle ev now tr)) as (H1 & H2 & H3 & H4 & H5).
      pose proof (handle_counters ev now tr) as Hc. unfold counters in Hc.
      pose proof (handle_pageNumber ev now tr) as Hn.
      rewrite H1, H2, H3, H4, H5, Hn. clear H1 H2 H3 H4 H5 Hn IH.
      remember (progress (handle ev now tr)) as p1 eqn:Hp1. clear Hp1.
      destruct ev; simpl in Hc; injection Hc as E1 E2 E3 E4;
        rewrite E1, E2, E3, E4; simpl;
        rewrite ?map_app, <- ?app_assoc; simpl; split_and!; try lia; reflexivity. }
  destruct (H (new o now0)) as (H1 & H2 & H3 & H4 & H5). simpl in *.
  split_and!; auto; lia.
Qed.

(** *** The status *)

(** X4.  The status of a tracker is the one its last status-setting event left:
    [startProcessingPage] makes it [crawling], also on a tracker that was
    [completed] or [failed]; no other page event touches it. *)
Theorem status_is_last_status_event
    (o : ProgressTrackerOptions.t) (now0 : Z) (evs : list (Event * Z)) :
  status (progress (run evs (new o now0)))
  = fold_left status_after (map fst evs) starting.
Proof.
  assert (Hstep : ∀ ev now tr,
    status (progress (handle ev now tr)) = status_after (status (progress tr)) ev).
  { intros ev now tr.
    destruct ev; unfold handle;
      unfold startProcessingPage, pageCompleted, pageFailed, urlsDiscovered,
        updateQueueStatus, markCompleted, markFailed, stdoutTimerFired,
        stopStdoutUpdates, emitUpdate, outputToStdout, calculateProgress;
      cbn [progress with_progress options status_after];
      split_ifs; reflexivity. }
  assert (H : ∀ tr, status (progress (run evs tr))
                    = fold_left status_after (map fst evs) (status (progress tr))).
  { induction evs as [|[ev now] evs IH]; intros tr; simpl; [reflexivity|].
    rewrite IH, Hstep. reflexivity. }
  apply H.
Qed.

End ProgressTrackerMore.

(** ** More on link normalisation *)

Module LinkExtractorMore.
Import LinkExtractor UrlText.

Lemma unique_from_spec (seen : gset string) (l : list string) :
  NoDup (Str.unique_from seen l)
  ∧ ∀ x, x ∈ Str.unique_from seen l ↔ x ∈ l ∧ x ∉ seen.
Proof.
  revert seen. induction l as [|a l IH]; intros seen; simpl.
  - split; [constructor|]. intros x. split; [intros H; inversion H|intros [H _]; inversion H].
  - destruct (decide (a ∈ seen)) as [Ha|Ha].
    + destruct (IH seen) as [Hnd Hin]. split; [exact Hnd|].
      intros x. rewrite Hin, elem_of_cons. split; [tauto|].
      intros [[->|H] Hs]; [contradiction|tauto].
    + destruct (IH ({[a]} ∪ seen)) as [Hnd Hin]. split.
      * constructor; [|exact Hnd]. rewrite Hin. set_solver.
      * intros x. rewrite !elem_of_cons, Hin.
        destruct (decide (x = a)) as [->|Hne]; set_solver.
Qed.

Lemma unique_from_length (seen : gset string) (l : list string) :
  (length (Str.unique_from seen l) ≤ length l)%nat.
Proof.
  revert seen. induction l as [|a l IH]; intros seen; simpl; [lia|].
  destruct (decide (a ∈ seen)); simpl; [specialize (IH seen)|specialize (IH ({[a]} ∪ seen))];
    lia.
Qed.

(** X5.  [deduplicateLinks] returns each normalised link once: no URL twice, and
    exactly the normal forms of the links it was given, never more of them
    than links. *)
Theorem deduplicateLinks_distinct_normal_forms (links : list string) :
  NoDup (deduplicateLinks links)
  ∧ (∀ u, u ∈ deduplicateLinks links ↔ ∃ link, link ∈ links ∧ u = normalizeUrl link)
  ∧ (length (deduplicateLinks links) ≤ length links)%nat.
Proof.
  unfold deduplicateLinks, Str.unique.
  destruct (unique_from_spec ∅ (map normalizeUrl links)) as [Hnd Hin].
  split; [exact Hnd|]. split.
  - intros u. rewrite Hin. split.
    + intros [H _]. apply list_elem_of_In, in_map_iff in H as (link & <- & H).
      exists link. split; [apply list_elem_of_In, H|reflexivity].
    + intros (link & H & ->). split; [|set_solver].
      apply list_elem_of_In, in_map_iff. exists link. split; [reflexivity|].
      apply list_elem_of_In, H.
  - pose proof (unique_from_length ∅ (map normalizeUrl links)) as H.
    rewrite length_map in H. exact H.
Qed.

(** *** The query parameters *)

Lemma append_all (name : string) (values : list string) (acc : URLSearchParams.t) :
  fold_left (fun sortedParams value => URLSearchParams.append name value sortedParams)
    values acc
  = (acc ++ map (fun value => (name, value)) values)%list.
Proof.
  revert acc. induction values as [|v values IH]; intros acc; simpl.
  - rewrite app_nil_r. reflexivity.
  - rewrite IH. unfold URLSearchParams.append. rewrite <- app_assoc. reflexivity.
Qed.

Lemma sortParams_regrouped (params : URLSearchParams.t) :
  sortParams params = regrouped (Str.sort (URLSearchParams.keys params)) params.
Proof.
  unfold sortParams, regrouped.
  generalize (Str.sort (URLSearchParams.keys params)) as names. intros names.
  assert (H : ∀ acc : URLSearchParams.t,
    fold_left
      (fun sortedParams name =>
         fold_left
           (fun sortedParams value => URLSearchParams.append name value sortedParams)
           (URLSearchParams.getAll name params) sortedParams)
      names acc
    = (acc
       ++ flat_map
            (fun name =>
               map (fun value => (name, value)) (URLSearchParams.getAll name params))
            names)%list).
  { induction names as [|n names IH]; intros acc; simpl.
    - rewrite app_nil_r. reflexivity.
    - rewrite append_all, IH, <- app_assoc. reflexivity. }
  apply (H []).
Qed.

Lemma insert_perm (x : string) (l : list string) : Str.insert x l ≡ₚ x :: l.
Proof.
  induction l as [|y l IH]; simpl; [reflexivity|].
  destruct (String.ltb x y); [reflexivity|].
  rewrite IH. apply Permutation_swap.
Qed.

Lemma sort_perm (l : list string) : Str.sort l ≡ₚ l.
Proof.
  induction l as [|x l IH]; simpl; [reflexivity|].
  unfold Str.sort in *. simpl. rewrite insert_perm, IH. reflexivity.
Qed.

Lemma getAll_elem (name value : string) (params : URLSearchParams.t) :
  value ∈ URLSearchParams.getAll name params ↔ (name, value) ∈ params.
Proof.
  unfold URLSearchParams.getAll, URLSearchParams.t in *.
  induction params as [|[n v] params IH].
  - simpl. split; intros H; inversion H.
  - rewrite filter_cons. simpl. destruct (decide (n = name)) as [->|Hne]; simpl.
    + rewrite !elem_of_cons, IH. split; intros [H|H]; auto; left; congruence.
    + rewrite IH, elem_of_cons. split; [auto|]. intros [H|H]; [congruence|exact H].
Qed.

Lemma sortParams_sub (params : URLSearchParams.t) (name value : string) :
  (name, value) ∈ sortParams params → (name, value) ∈ params.
Proof.
  rewrite sortParams_regrouped. unfold regrouped.
  rewrite list_elem_of_In, in_flat_map.
  intros (n & _ & H). apply in_map_iff in H as (v & [= <- <-] & H).
  apply getAll_elem, list_elem_of_In, H.
Qed.

(** X6.  Normalising the query invents no parameter and loses none: a name-value
    pair is in the rebuilt query exactly if it was in the original one.
    (How often it occurs is another matter.) *)
Theorem sortParams_same_parameters (params : URLSearchParams.t) (name value : string) :
  (name, value) ∈ sortParams params ↔ (name, value) ∈ params.
Proof.
  split; [apply sortParams_sub|]. intros H.
  rewrite sortParams_regrouped. unfold regrouped.
  rewrite list_elem_of_In, in_flat_map.
  exists name. split.
  - apply list_elem_of_In. rewrite sort_perm. unfold URLSearchParams.keys.
    apply list_elem_of_In, in_map_iff. exists (name, value).
    split; [reflexivity|apply list_elem_of_In, H].
  - apply in_map_iff. exists value. split; [reflexivity|].
    apply list_elem_of_In, getAll_elem, H.
Qed.

Lemma getAll_absent (name : string) (params : URLSearchParams.t) :
  name ∉ URLSearchParams.keys params → URLSearchParams.getAll name params = [].
Proof.
  intros H. destruct (URLSearchParams.getAll name params) as [|v vs] eqn:E; [reflexivity|].
  exfalso. apply H. unfold URLSearchParams.keys.
  apply list_elem_of_In, in_map_iff. exists (name, v). split; [reflexivity|].
  apply list_elem_of_In, getAll_elem. rewrite E. left.
Qed.

Lemma getAll_single (name value : string) (params : URLSearchParams.t) :
  NoDup (URLSearchParams.keys params) → (name, value) ∈ params →
  URLSearchParams.getAll name params = [value].
Proof.
  unfold URLSearchParams.keys.
  induction params as [|[n v] params IH]; intros Hnd Hin; [inversion Hin|].
  simpl in Hnd. apply NoDup_cons in Hnd as [Hn Hnd].
  assert (Hcons : URLSearchParams.getAll name ((n, v) :: params)
                  = if decide (n = name) then v :: URLSearchParams.getAll name params
                    else URLSearchParams.getAll name params).
  { unfold URLSearchParams.getAll, URLSearchParams.t in *. rewrite filter_cons. simpl.
    destruct (decide (n = name)); reflexivity. }
  rewrite Hcons. apply elem_of_cons in Hin as [[= -> ->]|Hin].
  - destruct (decide (n = n)); [|congruence]. rewrite getAll_absent; [reflexivity|exact Hn].
  - destruct (decide (n = name)) as [->|Hne]; [|apply IH; assumption].
    exfalso. apply Hn. apply list_elem_of_In, in_map_iff. exists (name, value).
    split; [reflexivity|apply list_elem_of_In, Hin].
Qed.

Lemma regrouped_keys (sub params : URLSearchParams.t) :
  NoDup (URLSearchParams.keys params) → (∀ p, p ∈ sub → p ∈ params) →
  regrouped (URLSearchParams.keys sub) params = sub.
Proof.
  intros Hnd. unfold regrouped, URLSearchParams.keys.
  induction sub as [|[n v] sub IH]; intros Hsub; simpl; [reflexivity|].
  rewrite (getAll_single n v params Hnd) by (apply Hsub; left). simpl.
  f_equal. apply IH. intros p Hp. apply Hsub. right. exact Hp.
Qed.

Lemma insert_sorted (x : string) (l : list string) :
  Sorted (fun a b => String.leb a b = true) l →
  Sorted (fun a b => String.leb a b = true) (Str.insert x l).
Proof.
  assert (Hflip : ∀ a b, String.ltb a b = false → String.leb b a = true).
  { intros a b. unfold String.ltb, String.leb. rewrite (String.compare_antisym a b).
    destruct (String.compare b a); simpl; congruence. }
  assert (Hlt : ∀ a b, String.ltb a b = true → String.leb a b = true).
  { intros a b. unfold String.ltb, String.leb. destruct (String.compare a b); congruence. }
  induction l as [|y l IH]; intros Hs; simpl.
  - constructor; constructor.
  - destruct (String.ltb x y) eqn:E.
    + constructor; [exact Hs|]. constructor. apply Hlt, E.
    + inversion Hs as [|? ? Hs' Hhd]; subst. constructor; [apply IH, Hs'|].
      destruct l as [|z l]; simpl.
      * constructor. apply Hflip, E.
      * destruct (String.ltb x z); constructor; [apply Hflip, E|].
        inversion Hhd; subst. assumption.
Qed.

Lemma sort_sorted (l : list string) :
  Sorted (fun a b => String.leb a b = true) (Str.sort l).
Proof.
  unfold Str.sort. induction l as [|x l IH]; simpl; [constructor|].
  apply insert_sorted, IH.
Qed.

(** X7.  When no parameter name is repeated, normalising the query only
    reorders it: the rebuilt query is a permutation of the original one and
    its names are in ascending order. *)
Theorem sortParams_sorts_distinct_names (params : URLSearchParams.t) :
  NoDup (URLSearchParams.keys params) →
  sortParams params ≡ₚ params
  ∧ Sorted (fun a b => String.leb a b = true) (URLSearchParams.keys (sortParams params)).
Proof.
  intros Hnd. rewrite sortParams_regrouped.
  assert (Hsorted : ∃ sub : URLSearchParams.t,
            sub ≡ₚ params ∧ URLSearchParams.keys sub = Str.sort (URLSearchParams.keys params)).
  { pose proof (sort_perm (URLSearchParams.keys params)) as Hp.
    unfold URLSearchParams.keys in *.
    apply Permutation_map_inv in Hp as (sub & Hk & Hs).
    exists sub. split; [symmetry; exact Hs|symmetry; exact Hk]. }
  destruct Hsorted as (sub & Hperm & Hkeys).
  rewrite <- Hkeys, regrouped_keys; [|exact Hnd|].
  - split; [exact Hperm|]. rewrite Hkeys. apply sort_sorted.
  - intros p Hp. rewrite <- Hperm. exact Hp.
Qed.

Lemma sortParams_sorts_distinct_names_witness :
  NoDup (URLSearchParams.keys [("page", "2"); ("lang", "en"); ("q", "rocq")])
  ∧ sortParams [("page", "2"); ("lang", "en"); ("q", "rocq")]
      ≡ₚ [("page", "2"); ("lang", "en"); ("q", "rocq")]
  ∧ Sorted (fun a b => String.leb a b = true)
      (URLSearchParams.keys (sortParams [("page", "2"); ("lang", "en"); ("q", "rocq")])).
Proof.
  assert (H : NoDup (URLSearchParams.keys [("page", "2"); ("lang", "en"); ("q", "rocq")])).
  { apply NoDup_ListNoDup. repeat constructor; simpl; intuition discriminate. }
  split; [exact H|]. exact (sortParams_sorts_distinct_names _ H).
Defined.

(** *** The fragment *)











End LinkExtractorMore.

(** ** The link pipeline *)

Module LinkPipelineFacts.
Import LinkExtractor LinkPipeline LinkExtractorMore ListFacts.
Import CrawlingService CrawlingServiceFacts.

Lemma slice0_length {A} (n : Z) (l : list A) :
  0 ≤ n → (length (slice0 n l) ≤ Z.to_nat n)%nat ∧ ∀ x, x ∈ slice0 n l → x ∈ l.
Proof.
  intros Hn. unfold slice0. destruct (n <? 0) eqn:Hneg; [apply Z.ltb_lt in Hneg; lia|].
  split.
  - rewrite length_take. lia.
  - intros x Hx. apply (subseteq_take (Z.to_nat n) l), Hx.
Qed.

Lemma filterLinksByPatterns_sub matchesPattern links includePatterns excludePatterns :
  (length (filterLinksByPatterns matchesPattern links includePatterns excludePatterns)
   ≤ length links)%nat
  ∧ ∀ x, x ∈ filterLinksByPatterns matchesPattern links includePatterns excludePatterns →
      x ∈ links
      ∧ (includePatterns = []
         ∨ existsb (fun pattern => matchesPattern x pattern) includePatterns = true)
      ∧ existsb (fun pattern => matchesPattern x pattern) excludePatterns = false.
Proof.
  unfold filterLinksByPatterns.
  destruct includePatterns as [|ip ips]; destruct excludePatterns as [|ep eps].
  - split; [lia|]. intros x Hx. auto.
  - split; [apply length_filter|]. intros x Hx.
    apply list_elem_of_filter in Hx as [Hx Hin]. apply negb_true_iff in Hx. auto.
  - split; [apply length_filter|]. intros x Hx.
    apply list_elem_of_filter in Hx as [Hx Hin]. auto.
  - split.
    + etrans; [apply length_filter|apply length_filter].
    + intros x Hx. apply list_elem_of_filter in Hx as [Hx Hin].
      apply list_elem_of_filter in Hin as [Hi Hin]. apply negb_true_iff in Hx. auto.
Qed.

(** X9.  What a page can offer the frontier.  [extractAndFilterLinks] returns at
    most 20 URLs, each once; each is valid for crawling and is the normal
    form of a link of the page that [extractLinks] kept, that matches an
    include pattern (if there are any) and no exclude pattern.  So one page
    makes the frontier grow by at most 20 entries. *)
Theorem extractAndFilterLinks_bounded
    (parses : string → bool) (candidate : string → string → option string)
    (matchesPattern : string → string → bool) (isValidCrawlUrl : string → bool)
    (links : option (list string)) (currentUrl : string)
    (includePatterns excludePatterns : list string) (respectRobots : bool)
    (crawled : gset string) (depth : Z) (toCrawl : list (string * Z)) :
  let discovered :=
    extractAndFilterLinks parses candidate matchesPattern isValidCrawlUrl links
      currentUrl includePatterns excludePatterns respectRobots in
  (length discovered ≤ 20)%nat
  ∧ NoDup discovered
  ∧ (∀ u, u ∈ discovered →
       isValidCrawlUrl u = true
       ∧ ∃ hrefs href link,
           links = Some hrefs ∧ href ∈ hrefs
           ∧ candidate currentUrl href = Some link ∧ u = normalizeUrl link
           ∧ (includePatterns = []
              ∨ existsb (fun pattern => matchesPattern link pattern) includePatterns = true)
           ∧ existsb (fun pattern => matchesPattern link pattern) excludePatterns = false)
  ∧ (length (enqueue crawled depth discovered toCrawl).1 ≤ length toCrawl + 20)%nat.
Proof.
  intros discovered.
  assert (Hmain : (length discovered ≤ 20)%nat ∧ NoDup discovered
    ∧ (∀ u, u ∈ discovered →
       isValidCrawlUrl u = true
       ∧ ∃ hrefs href link,
           links = Some hrefs ∧ href ∈ hrefs
           ∧ candidate currentUrl href = Some link ∧ u = normalizeUrl link
           ∧ (includePatterns = []
              ∨ existsb (fun pattern => matchesPattern link pattern) includePatterns = true)
           ∧ existsb (fun pattern => matchesPattern link pattern) excludePatterns = false)).
  { subst discovered. unfold extractAndFilterLinks.
    destruct links as [[|h hs]|].
    1,3: simpl; split; [lia|]; split; [constructor|]; intros u Hu; inversion Hu.
    set (hrefs := h :: hs).
    set (extracted := extractLinks parses candidate hrefs currentUrl (Some 20)).
    set (filtered := filterLinksByPatterns matchesPattern extracted includePatterns
                       excludePatterns).
    assert (Hext : (length extracted ≤ 20)%nat
                   ∧ ∀ x, x ∈ extracted → ∃ href, href ∈ hrefs
                                             ∧ candidate currentUrl href = Some x).
    { subst extracted. unfold extractLinks. destruct (parses currentUrl).
      - change (JS.or_default (Some 20) 50) with 20.
        destruct (slice0_length 20 (omap (candidate currentUrl) hrefs)) as [Hlen Hsub];
          [lia|].
        split; [exact Hlen|]. intros x Hx. apply Hsub in Hx.
        apply list_elem_of_omap in Hx as (href & Hin & Hc). eauto.
      - split; [simpl; lia|]. intros x Hx. inversion Hx. }
    destruct Hext as [Hlen Hfrom].
    destruct (filterLinksByPatterns_sub matchesPattern extracted includePatterns
                excludePatterns) as [Hflen Hfsub]. fold filtered in Hflen, Hfsub.
    destruct (unique_from_spec ∅ (map normalizeUrl filtered)) as [Hnd Hin].
    pose proof (unique_from_length ∅ (map normalizeUrl filtered)) as Hulen.
    rewrite length_map in Hulen.
    fold (Str.unique (map normalizeUrl filtered)) in Hnd, Hin, Hulen.
    fold (deduplicateLinks filtered) in Hnd, Hin, Hulen.
    set (valid := filter (fun url => isValidCrawlUrl url = true) (deduplicateLinks filtered)).
    assert (Hvalid : (length valid ≤ 20)%nat ∧ NoDup valid
                     ∧ ∀ u, u ∈ valid → isValidCrawlUrl u = true
                                        ∧ u ∈ deduplicateLinks filtered).
    { subst valid. split_and!.
      - etrans; [apply length_filter|]. lia.
      - apply NoDup_filter, Hnd.
      - intros u Hu. apply list_elem_of_filter in Hu. exact Hu. }
    destruct Hvalid as (Hvlen & Hvnd & Hvin).
    assert (Hfinal : ∀ u, u ∈ valid →
              isValidCrawlUrl u = true
              ∧ ∃ hrefs0 href link,
                  Some hrefs = Some hrefs0 ∧ href ∈ hrefs0
                  ∧ candidate currentUrl href = Some link ∧ u = normalizeUrl link
                  ∧ (includePatterns = []
                     ∨ existsb (fun pattern => matchesPattern link pattern) includePatterns
                       = true)
                  ∧ existsb (fun pattern => matchesPattern link pattern) excludePatterns
                    = false).
    { intros u Hu. destruct (Hvin u Hu) as [Hv Hd]. split; [exact Hv|].
      apply Hin in Hd as [Hd _].
      apply list_elem_of_In, in_map_iff in Hd as (link & <- & Hl).
      apply list_elem_of_In, Hfsub in Hl as (Hl & Hi & He).
      destruct (Hfrom link Hl) as (href & Hh & Hc).
      exists hrefs, href, link. split_and!; auto. }
    destruct respectRobots.
    - rewrite (filter_all (fun link => respectsRobotsTxt link = true) valid)
        by reflexivity.
      split_and!; assumption.
    - split_and!; assumption. }
  destruct Hmain as (Hlen & Hnd & Hall). split_and!; auto.
  destruct (enqueue_spec crawled depth discovered toCrawl) as (added & -> & Hand & Hadd).
  simpl. rewrite length_app, length_map.
  assert (length added ≤ length discovered)%nat; [|lia].
  apply submseteq_length, NoDup_submseteq; [exact Hand|].
  intros u Hu. apply Hadd, Hu.
Qed.

End LinkPipelineFacts.

(** ** The browser pool and its users *)

Module BrowserPoolFacts.
Import BrowserInstance BrowserManager BrowserManagerSpec BrowserPool BrowserPoolSpec.
Import BrowserManagerFacts ListFacts.

(** *** Lists of instances with distinct keys *)

Lemma map_get_elem k i (l : list (string * BrowserInstance.t)) :
  NoDup (map fst l) → (k, i) ∈ l → map_get k l = Some i.
Proof.
  induction l as [|[k' i'] l IH]; simpl; intros Hnd Hin; [inversion Hin|].
  apply NoDup_cons in Hnd as [Hk Hnd].
  apply elem_of_cons in Hin as [[= <- <-]|Hin].
  - destruct (decide (k = k)); congruence.
  - destruct (decide (k' = k)) as [->|Hne]; [|auto].
    exfalso. apply Hk. apply list_elem_of_In, in_map_iff. exists (k, i).
    split; [reflexivity|apply list_elem_of_In, Hin].
Qed.

Lemma map_set_middle k v i (before after : list (string * BrowserInstance.t)) :
  k ∉ map fst before →
  map_set k v (before ++ (k, i) :: after)%list = (before ++ (k, v) :: after)%list.
Proof.
  induction before as [|[k' i'] before IH]; simpl; intros Hk.
  - destruct (decide (k = k)); congruence.
  - apply not_elem_of_cons in Hk as [Hne Hk].
    destruct (decide (k' = k)); [congruence|]. rewrite IH; auto.
Qed.

Lemma map_get_middle k i (before after : list (string * BrowserInstance.t)) :
  k ∉ map fst before → map_get k (before ++ (k, i) :: after)%list = Some i.
Proof.
  induction before as [|[k' i'] before IH]; simpl; intros Hk.
  - destruct (decide (k = k)); congruence.
  - apply not_elem_of_cons in Hk as [Hne Hk].
    destruct (decide (k' = k)); [congruence|]. auto.
Qed.

Lemma map_set_fresh k v (l : list (string * BrowserInstance.t)) :
  k ∉ map fst l → map_set k v l = (l ++ [(k, v)])%list.
Proof.
  induction l as [|[k' i'] l IH]; simpl; intros Hk; [reflexivity|].
  apply not_elem_of_cons in Hk as [Hne Hk].
  destruct (decide (k' = k)); [congruence|]. rewrite IH; auto.
Qed.

Lemma keys_filter (P : string * BrowserInstance.t → Prop) `{!∀ x, Decision (P x)}
    (l : list (string * BrowserInstance.t)) :
  NoDup (map fst l) → NoDup (map fst (filter P l))
  ∧ ∀ k, k ∈ map fst (filter P l) → k ∈ map fst l.
Proof.
  induction l as [|x l IH]; simpl; intros Hnd; [split; [constructor|auto]|].
  apply NoDup_cons in Hnd as [Hk Hnd]. destruct (IH Hnd) as [IH1 IH2].
  rewrite filter_cons. destruct (decide (P x)); simpl.
  - split.
    + apply NoDup_cons. split; [|exact IH1]. intros Hx. apply Hk, IH2, Hx.
    + intros k Hin. apply elem_of_cons in Hin as [->|Hin]; [left|right; auto].
  - split; [exact IH1|]. intros k Hin. right. auto.
Qed.

(** *** cleanupOldInstances *)

Lemma closeBrowser_elem k i cur :
  NoDup (keys cur) → (k, i) ∈ instances cur →
  closeBrowser k cur
  = if closeThrows (browser i) then cur
    else with_instances (filter (fun x => fst x ≠ k) (instances cur)) cur.
Proof.
  intros Hnd Hin. unfold closeBrowser. rewrite (map_get_elem k i _ Hnd Hin). reflexivity.
Qed.

Lemma doomed_cons now e es x :
  doomed now (e :: es) x
  = closable now e && bool_decide (fst e = fst x) || doomed now es x.
Proof. reflexivity. Qed.

Lemma cleanup_fold now (es : list (string * BrowserInstance.t)) cur :
  NoDup (map fst es) → NoDup (keys cur) → (∀ x, x ∈ es → x ∈ instances cur) →
  let result :=
    fold_left
      (fun m e =>
         let age := now - lastUsed (snd e) in
         if negb (inUse (snd e)) && (maxAge <? age) then closeBrowser (fst e) m else m)
      es cur in
  instances result = filter (fun x => doomed now es x = false) (instances cur)
  ∧ maxInstances result = maxInstances cur.
Proof.
  revert cur. induction es as [|e es IH]; intros cur Hes Hcur Hsub; cbn zeta.
  - simpl. split; [|reflexivity]. symmetry. apply filter_all. reflexivity.
  - simpl in Hes. apply NoDup_cons in Hes as [He Hes].
    assert (Hein : e ∈ instances cur) by (apply Hsub; left).
    assert (Hrest : ∀ x, x ∈ es → x ∈ instances cur) by (intros x Hx; apply Hsub; right; exact Hx).
    cbn [fold_left].
    destruct (negb (inUse e.2) && (maxAge <? now - lastUsed e.2)) eqn:Hcond.
    + destruct e as [k i]. cbn [fst snd] in *.
      rewrite (closeBrowser_elem k i cur Hcur Hein).
      destruct (closeThrows (browser i)) eqn:Hthrows.
      * assert (Hc : closable now (k, i) = false).
        { unfold closable. cbn [fst snd]. rewrite Hthrows. apply andb_false_r. }
        destruct (IH cur Hes Hcur Hrest) as [IH1 IH2]. split; [|exact IH2].
        etrans; [exact IH1|]. apply filter_iff_in. intros x _. cbv beta.
        rewrite doomed_cons, Hc. simpl. tauto.
      * assert (Hc : closable now (k, i) = true).
        { unfold closable. cbn [fst snd]. rewrite Hthrows, Hcond. reflexivity. }
        set (cur' := with_instances (filter (fun x => x.1 ≠ k) (instances cur)) cur).
        assert (Hcur' : NoDup (keys cur')).
        { unfold keys, cur'. simpl. apply keys_filter. exact Hcur. }
        assert (Hsub' : ∀ x, x ∈ es → x ∈ instances cur').
        { intros x Hx. unfold cur'. simpl. apply list_elem_of_filter. split; [|auto].
          intros Hk. apply He. rewrite <- Hk. apply list_elem_of_In, in_map.
          apply list_elem_of_In, Hx. }
        destruct (IH cur' Hes Hcur' Hsub') as [IH1 IH2]. split; [|exact IH2].
        etrans; [exact IH1|]. unfold cur'. cbn [instances with_instances]. apply filter_filter_iff. intros x _. cbv beta.
        rewrite doomed_cons, Hc. cbn [fst snd]. simpl.
        destruct (bool_decide_reflect (k = x.1)) as [Hk|Hk]; simpl.
        -- split; [intros [_ Hne]; congruence|discriminate].
        -- split; [tauto|]. intros Hd. split; [exact Hd|congruence].
    + assert (Hc : closable now e = false).
      { unfold closable. rewrite Hcond. reflexivity. }
      destruct (IH cur Hes Hcur Hrest) as [IH1 IH2]. split; [|exact IH2].
      etrans; [exact IH1|]. apply filter_iff_in. intros x _. cbv beta.
      rewrite doomed_cons, Hc. simpl. tauto.
Qed.

Lemma cleanup_instances now m :
  NoDup (keys m) →
  instances (cleanupOldInstances now m)
  = filter (fun x => closable now x = false) (instances m).
Proof.
  intros Hnd. unfold cleanupOldInstances.
  destruct (cleanup_fold now (instances m) m Hnd Hnd (fun x Hx => Hx)) as [H1 _].
  etrans; [exact H1|]. apply filter_iff_in. intros x Hx. unfold doomed.
  destruct (closable now x) eqn:Hc.
  - split; [|discriminate]. intros Hd. exfalso.
    assert (Ht : existsb (fun e => closable now e && bool_decide (e.1 = x.1)) (instances m)
                 = true).
    { apply existsb_exists. exists x. split; [apply list_elem_of_In, Hx|].
      rewrite Hc. simpl. apply bool_decide_eq_true. reflexivity. }
    congruence.
  - split; [reflexivity|]. intros _.
    destruct (existsb _ (instances m)) eqn:Hex; [|reflexivity]. exfalso.
    apply existsb_exists in Hex as (e & Hin & He).
    apply andb_true_iff in He as [He Hk]. apply bool_decide_eq_true in Hk.
    assert (e = x); [|congruence].
    destruct e as [k i], x as [k' i']. simpl in Hk. subst k'.
    apply list_elem_of_In in Hin.
    pose proof (map_get_elem k i _ Hnd Hin). pose proof (map_get_elem k i' _ Hnd Hx).
    congruence.
Qed.

(** X10.  [cleanupOldInstances] on a pool with distinct identifiers removes
    exactly the instances that are idle, were last used more than 30
    minutes ago and whose [close()] does not throw.  So it never closes an
    instance in use, nor one used within the last 30 minutes. *)
Theorem cleanupOldInstances_spares_busy_and_recent (now : Z) (m : BrowserManager.t) :
  NoDup (keys m) →
  let m' := cleanupOldInstances now m in
  (∀ e, e ∈ instances m' ↔ e ∈ instances m ∧ closable now e = false)
  ∧ busy m' = busy m
  ∧ (∀ e, e ∈ instances m → now - lastUsed (snd e) ≤ maxAge → e ∈ instances m')
  ∧ NoDup (keys m')
  ∧ maxInstances m' = maxInstances m.
Proof.
  intros Hnd m'. pose proof (cleanup_instances now m Hnd) as Heq. fold m' in Heq.
  split_and!.
  - intros e. rewrite Heq, list_elem_of_filter. tauto.
  - unfold busy. rewrite Heq. apply filter_filter_iff. intros x _. cbv beta.
    split; [tauto|]. intros Hx. split; [exact Hx|].
    unfold closable. rewrite Hx. reflexivity.
  - intros e He Hage. rewrite Heq. apply list_elem_of_filter. split; [|exact He].
    unfold closable. replace (maxAge <? now - lastUsed e.2) with false
      by (symmetry; apply Z.ltb_ge; lia).
    rewrite andb_false_r. reflexivity.
  - unfold keys. rewrite Heq. apply keys_filter. exact Hnd.
  - apply cleanupOldInstances_size.
Qed.

Lemma cleanupOldInstances_spares_busy_and_recent_witness :
  let chrome := mkBrowser false true in
  let m :=
    BrowserManager.mk
      [("browser_1", BrowserInstance.mk chrome true 0 0);
       ("browser_2", BrowserInstance.mk chrome false 0 0);
       ("browser_3", BrowserInstance.mk chrome false 0 (maxAge + 1))] 3 in
  NoDup (keys m)
  ∧ busy (cleanupOldInstances (2 * maxAge) m) = busy m
  ∧ keys (cleanupOldInstances (2 * maxAge) m) = ["browser_1"; "browser_3"].
Proof.
  intros chrome m.
  assert (Hnd : NoDup (keys m)).
  { apply NoDup_ListNoDup. repeat constructor; simpl; intuition discriminate. }
  split; [exact Hnd|].
  split; [|reflexivity].
  exact (proj1 (proj2 (cleanupOldInstances_spares_busy_and_recent (2 * maxAge) m Hnd))).
Defined.

(** *** getBrowser, run without interleaving *)

Lemma getBrowser_eq e now m :
  getBrowser e now m
  = let m1 := after_cleanup now m in
    match reuse now (instances m1) with
    | Some (found, l) => (Returned found, with_instances l m1)
    | None =>
        if size m1 <? maxInstances m1
        then match launched e with
             | Some b =>
                 (Returned (browserId e),
                  with_instances
                    (map_set (browserId e) (BrowserInstance.mk b true now now)
                       (map_set (browserId e) (BrowserInstance.mk b false now now)
                          (instances m1))) m1)
             | None => (Threw (launchError e), m1)
             end
        else (Threw exhausted, m1)
    end.
Proof.
  unfold getBrowser. cbn [step]. unfold enter. fold (after_cleanup now m).
  cbv zeta. destruct (reuse now (instances (after_cleanup now m))) as [[found l]|].
  - reflexivity.
  - destruct (size _ <? maxInstances _); [|reflexivity].
    cbn [step]. unfold finish_launch. destruct (launched e) as [b|]; [|reflexivity].
    cbn [step]. unfold resume. cbn [instances with_instances].
    rewrite map_get_set. reflexivity.
Qed.

Lemma after_cleanup_facts now m :
  NoDup (keys m) →
  NoDup (keys (after_cleanup now m))
  ∧ busy (after_cleanup now m) = busy m
  ∧ (∀ e, e ∈ instances (after_cleanup now m) → e ∈ instances m)
  ∧ (∀ e, e ∈ instances m → now - lastUsed (snd e) ≤ maxAge →
       e ∈ instances (after_cleanup now m))
  ∧ maxInstances (after_cleanup now m) = maxInstances m
  ∧ size (after_cleanup now m) ≤ size m.
Proof.
  intros Hnd. unfold after_cleanup. destruct (maxInstances m <=? size m).
  - pose proof (cleanup_instances now m Hnd) as Heq.
    split_and!.
    + unfold keys. rewrite Heq. apply keys_filter. exact Hnd.
    + unfold busy. rewrite Heq. apply filter_filter_iff. intros x _. cbv beta.
      split; [tauto|]. intros Hx. split; [exact Hx|].
      unfold closable. rewrite Hx. reflexivity.
    + intros e. rewrite Heq, list_elem_of_filter. tauto.
    + intros e He Hage. rewrite Heq. apply list_elem_of_filter. split; [|exact He].
      unfold closable. replace (maxAge <? now - lastUsed e.2) with false
        by (symmetry; apply Z.ltb_ge; lia).
      rewrite andb_false_r. reflexivity.
    + apply cleanupOldInstances_size.
    + apply cleanupOldInstances_size.
  - split_and!; auto. lia.
Qed.

Lemma keys_elem k (l : list (string * BrowserInstance.t)) :
  k ∈ map fst l ↔ ∃ i, (k, i) ∈ l.
Proof.
  rewrite list_elem_of_In, in_map_iff. split.
  - intros ([k' i] & <- & Hin). exists i. apply list_elem_of_In, Hin.
  - intros (i & Hin). exists (k, i). split; [reflexivity|apply list_elem_of_In, Hin].
Qed.

Lemma busy_middle (before after : list (string * BrowserInstance.t)) k i j :
  inUse i = false → inUse j = false →
  filter (fun e => inUse (snd e) = true) (before ++ (k, i) :: after)%list
  = filter (fun e => inUse (snd e) = true) (before ++ (k, j) :: after)%list.
Proof.
  intros Hi Hj. rewrite !filter_app, !filter_cons. cbn [snd].
  destruct (decide (inUse i = true)); [congruence|].
  destruct (decide (inUse j = true)); [congruence|]. reflexivity.
Qed.

Lemma NoDup_keys_middle (before after : list (string * BrowserInstance.t)) k i :
  NoDup (map fst (before ++ (k, i) :: after)%list) → k ∉ map fst before.
Proof.
  rewrite map_app. simpl. intros Hnd Hk.
  apply NoDup_app in Hnd as (_ & Hdisj & _). apply (Hdisj k Hk). left.
Qed.

(** Acquiring an instance and releasing it again. *)
Lemma getBrowser_release e now later m id m2 :
  NoDup (keys m) → browserId e ∉ keys m →
  getBrowser e now m = (Returned id, m2) →
  busy (releaseBrowser id later m2) = busy m
  ∧ NoDup (keys (releaseBrowser id later m2))
  ∧ maxInstances (releaseBrowser id later m2) = maxInstances m
  ∧ (size m ≤ maxInstances m →
     size (releaseBrowser id later m2) ≤ maxInstances m).
Proof.
  intros Hnd Hfresh. rewrite getBrowser_eq. cbv zeta.
  destruct (after_cleanup_facts now m Hnd) as (Hnd1 & Hbusy1 & Hsub1 & _ & Hmax1 & Hsize1).
  set (m1 := after_cleanup now m) in *.
  assert (Hfresh1 : browserId e ∉ keys m1).
  { intros Hk. apply Hfresh. apply keys_elem in Hk as [i Hi]. apply keys_elem.
    exists i. apply Hsub1, Hi. }
  destruct (reuse now (instances m1)) as [[found l]|] eqn:Hr.
  - intros [= <- <-].
    destruct (reuse_Some _ _ _ _ Hr) as (Hlen & before & i & after & Hl & _ & Hi & ->).
    assert (Hk : found ∉ map fst before).
    { apply (NoDup_keys_middle before after found i). rewrite <- Hl. exact Hnd1. }
    unfold releaseBrowser. cbn [instances with_instances].
    rewrite (map_get_middle _ _ _ _ Hk), (map_set_middle _ _ _ _ _ Hk).
    cbn [browser createdAt].
    split_and!.
    + rewrite <- Hbusy1. unfold busy. cbn [instances with_instances].
      rewrite Hl. symmetry. apply busy_middle; [exact Hi|reflexivity].
    + unfold keys. cbn [instances with_instances].
      unfold keys in Hnd1. rewrite Hl in Hnd1. rewrite map_app in *. exact Hnd1.
    + exact Hmax1.
    + intros Hle. unfold size in *. cbn [instances with_instances].
      rewrite Hl in Hsize1. rewrite length_app in *. simpl in *. lia.
  - destruct (size m1 <? maxInstances m1) eqn:Hlt; [|discriminate].
    destruct (launched e) as [b|]; [|discriminate].
    intros [= <- <-]. apply Z.ltb_lt in Hlt.
    rewrite (map_set_fresh _ _ _ Hfresh1).
    rewrite (map_set_middle _ _ _ _ [] Hfresh1).
    unfold releaseBrowser. cbn [instances with_instances].
    rewrite (map_get_middle _ _ _ _ Hfresh1), (map_set_middle _ _ _ _ _ Hfresh1).
    cbn [browser createdAt].
    split_and!.
    + rewrite <- Hbusy1. unfold busy. cbn [instances with_instances].
      rewrite filter_app, filter_cons. cbn [snd inUse].
      destruct (decide (false = true)); [discriminate|]. rewrite filter_nil.
      apply app_nil_r.
    + unfold keys. cbn [instances with_instances]. rewrite map_app. simpl.
      apply NoDup_app. split; [exact Hnd1|]. split.
      * intros k Hk Hin. apply list_elem_of_singleton in Hin. subst k. auto.
      * apply NoDup_singleton.
    + exact Hmax1.
    + intros _. unfold size in *. cbn [instances with_instances].
      rewrite length_app. simpl. lia.
Qed.

Lemma getBrowser_threw e now m message m2 :
  getBrowser e now m = (Threw message, m2) → m2 = after_cleanup now m.
Proof.
  rewrite getBrowser_eq. cbv zeta.
  destruct (reuse now _) as [[found l]|]; [discriminate|].
  destruct (_ <? _); [|intros [= _ <-]; reflexivity].
  destruct (launched e); [discriminate|]. intros [= _ <-]. reflexivity.
Qed.

Lemma getBrowser_ends e now m :
  (∃ id, (getBrowser e now m).1 = Returned id)
  ∨ (∃ message, (getBrowser e now m).1 = Threw message).
Proof.
  rewrite getBrowser_eq. cbv zeta.
  destruct (reuse now _) as [[found l]|]; [left; eauto|].
  destruct (_ <? _); [|right; eauto].
  destruct (launched e); [left|right]; eauto.
Qed.

(** X11.  [scrapePage] leaks no browser.  On a pool with distinct identifiers,
    and a fresh identifier for the instance it may launch, a call that runs
    alone leaves in use exactly the instances that were in use before it,
    however it ends: refused by the VPN check, without a browser, without a
    page, by an error of the scrape, or with a result. *)
Theorem scrapePage_returns_its_browser
    (e : Launch) (run : Run) (now later : Z) (m : BrowserManager.t) :
  NoDup (keys m) → browserId e ∉ keys m →
  let m' := (scrapePage e run now later m).2 in
  busy m' = busy m
  ∧ inUseCount m' = inUseCount m
  ∧ NoDup (keys m')
  ∧ maxInstances m' = maxInstances m
  ∧ (size m ≤ maxInstances m → size m' ≤ maxInstances m').
Proof.
  intros Hnd Hfresh m'.
  assert (Hgoal : busy m' = busy m ∧ NoDup (keys m') ∧ maxInstances m' = maxInstances m
                  ∧ (size m ≤ maxInstances m → size m' ≤ maxInstances m)).
  { subst m'. unfold scrapePage, createPage.
    destruct (after_cleanup_facts now m Hnd) as (Hnd1 & Hbusy1 & _ & _ & Hmax1 & Hsize1).
    destruct run as [|message|ok].
    - simpl. split_and!; auto.
    - destruct (getBrowser e now m) as [c m2] eqn:Hget.
      destruct (getBrowser_ends e now m) as [[id Hc]|[msg Hc]];
        rewrite Hget in Hc; simpl in Hc; subst c; cbn [snd].
      + apply (getBrowser_release e now later m id m2 Hnd Hfresh Hget).
      + rewrite (getBrowser_threw _ _ _ _ _ Hget). split_and!; auto. intros; lia.
    - destruct (getBrowser e now m) as [c m2] eqn:Hget.
      destruct (getBrowser_ends e now m) as [[id Hc]|[msg Hc]];
        rewrite Hget in Hc; simpl in Hc; subst c; cbn [snd].
      + apply (getBrowser_release e now later m id m2 Hnd Hfresh Hget).
      + rewrite (getBrowser_threw _ _ _ _ _ Hget). split_and!; auto. intros; lia. }
  destruct Hgoal as (Hb & Hk & Hm & Hs).
  split_and!; auto.
  - unfold inUseCount. fold (busy m') (busy m). rewrite Hb. reflexivity.
  - rewrite Hm. exact Hs.
Qed.

Lemma scrapePage_returns_its_browser_witness :
  let chrome := mkBrowser false true in
  let m := BrowserManager.mk [("browser_1", BrowserInstance.mk chrome true 0 0)] 2 in
  let e := mkLaunch "browser_2" (Some chrome) "" in
  (NoDup (keys m) ∧ browserId e ∉ keys m)
  ∧ busy (scrapePage e (Worked false) 5 9 m).2 = busy m
  ∧ keys (scrapePage e (Worked false) 5 9 m).2 = ["browser_1"; "browser_2"].
Proof.
  intros chrome m e.
  assert (Hnd : NoDup (keys m)).
  { apply NoDup_ListNoDup. repeat constructor; simpl; intuition discriminate. }
  assert (Hfresh : browserId e ∉ keys m).
  { intros H. apply list_elem_of_singleton in H. discriminate. }
  split; [split; assumption|].
  split; [|reflexivity].
  exact (proj1 (scrapePage_returns_its_browser e (Worked false) 5 9 m Hnd Hfresh)).
Defined.

Lemma map_get_split k i (l : list (string * BrowserInstance.t)) :
  map_get k l = Some i →
  ∃ before after, l = (before ++ (k, i) :: after)%list ∧ k ∉ map fst before.
Proof.
  induction l as [|[k' i'] l IH]; simpl; [discriminate|].
  destruct (decide (k' = k)) as [->|Hne].
  - intros [= ->]. exists [], l. split; [reflexivity|]. simpl. intros H. inversion H.
  - intros H. destruct (IH H) as (before & after & -> & Hk).
    exists ((k', i') :: before), after. split; [reflexivity|].
    simpl. apply not_elem_of_cons. auto.
Qed.

(** X12.  A browser that has been released is there for the next caller.  If
    [getBrowser] is called within 30 minutes of a [releaseBrowser], it
    returns an instance of the pool: it launches nothing and does not
    throw, however full the pool is; and when every other instance is in
    use it returns the very instance that was released, marked in use. *)
Theorem releaseBrowser_then_getBrowser_reuses
    (e : Launch) (id : string) (i : BrowserInstance.t) (t t' : Z)
    (m : BrowserManager.t) :
  NoDup (keys m) → map_get id (instances m) = Some i → t' - t ≤ maxAge →
  ∃ found m2,
    getBrowser e t' (releaseBrowser id t m) = (Returned found, m2)
    ∧ found ∈ keys m
    ∧ size m2 ≤ size m
    ∧ ((∀ k j, (k, j) ∈ instances m → k ≠ id → inUse j = true) →
       found = id
       ∧ map_get id (instances m2)
         = Some (BrowserInstance.mk (browser i) true (createdAt i) t')).
Proof.
  intros Hnd Hget Hage.
  destruct (map_get_split _ _ _ Hget) as (before & after & Hm & Hk).
  set (i0 := BrowserInstance.mk (browser i) false (createdAt i) t).
  assert (Hrel : releaseBrowser id t m
                 = with_instances (before ++ (id, i0) :: after)%list m).
  { unfold releaseBrowser. rewrite Hget, Hm, (map_set_middle _ _ _ _ _ Hk). reflexivity. }
  rewrite Hrel. set (m1 := with_instances _ m).
  assert (Hkeys1 : keys m1 = keys m).
  { unfold keys, m1. cbn [instances with_instances]. rewrite Hm, !map_app. reflexivity. }
  assert (Hnd1 : NoDup (keys m1)) by (rewrite Hkeys1; exact Hnd).
  destruct (after_cleanup_facts t' m1 Hnd1) as (Hnd1' & _ & Hsub & Hkept & _ & Hsize).
  assert (Hin0 : (id, i0) ∈ instances (after_cleanup t' m1)).
  { apply Hkept.
    - unfold m1. cbn [instances with_instances]. apply elem_of_app. right. left.
    - simpl. exact Hage. }
  rewrite getBrowser_eq. cbv zeta.
  destruct (reuse t' (instances (after_cleanup t' m1))) as [[found l]|] eqn:Hr.
  - destruct (reuse_Some _ _ _ _ Hr) as (Hlen & b & i' & a & Hl & _ & Hi' & ->).
    assert (Hfound : (found, i') ∈ instances m1).
    { apply Hsub. rewrite Hl. apply elem_of_app. right. left. }
    exists found, (with_instances (b ++ (found, BrowserInstance.mk (browser i') true
                                             (createdAt i') t') :: a)%list
                     (after_cleanup t' m1)).
    split; [reflexivity|]. split_and!.
    + rewrite <- Hkeys1. apply keys_elem. exists i'. exact Hfound.
    + unfold size in *. cbn [instances with_instances] in *. rewrite Hlen.
      unfold m1 in Hsize at 2. cbn [instances with_instances] in Hsize.
      rewrite Hm. rewrite !length_app in *. simpl in *. lia.
    + intros Hbusy.
      assert (Heq : (found, i') = (id, i0)).
      { unfold m1 in Hfound. cbn [instances with_instances] in Hfound.
        assert (Hother : (found, i') ∈ instances m → found ≠ id → False).
        { intros Hin Hne. rewrite (Hbusy found i' Hin Hne) in Hi'. discriminate. }
        apply elem_of_app in Hfound as [Hin|Hin].
        - exfalso. apply Hother.
          + rewrite Hm. apply elem_of_app. left. exact Hin.
          + intros ->. apply Hk. apply keys_elem. exists i'. exact Hin.
        - apply elem_of_cons in Hin as [Heq|Hin]; [exact Heq|].
          exfalso. apply Hother.
          + rewrite Hm. apply elem_of_app. right. right. exact Hin.
          + intros ->. unfold keys in Hnd. rewrite Hm, map_app in Hnd. simpl in Hnd.
            apply NoDup_app in Hnd as (_ & _ & Hnd). apply NoDup_cons in Hnd as [Hnd _].
            apply Hnd. apply keys_elem. exists i'. exact Hin. }
      injection Heq as -> ->. split; [reflexivity|].
      cbn [instances with_instances]. apply map_get_middle.
      apply (NoDup_keys_middle b a id i0). rewrite <- Hl. exact Hnd1'.
  - exfalso. pose proof (reuse_None _ _ Hr) as Hall.
    rewrite Forall_forall in Hall. specialize (Hall _ Hin0). discriminate.
Qed.

Lemma releaseBrowser_then_getBrowser_reuses_witness :
  let chrome := mkBrowser false true in
  let m :=
    BrowserManager.mk
      [("browser_1", BrowserInstance.mk chrome true 0 0);
       ("browser_2", BrowserInstance.mk chrome true 0 0)] 2 in
  let e := mkLaunch "browser_3" (Some chrome) "" in
  (NoDup (keys m)
   ∧ map_get "browser_2" (instances m) = Some (BrowserInstance.mk chrome true 0 0)
   ∧ 70 - 60 ≤ maxAge)
  ∧ ∃ found m2,
      getBrowser e 70 (releaseBrowser "browser_2" 60 m) = (Returned found, m2)
      ∧ found ∈ keys m.
Proof.
  intros chrome m e.
  assert (Hnd : NoDup (keys m)).
  { apply NoDup_ListNoDup. repeat constructor; simpl; intuition discriminate. }
  assert (Hget : map_get "browser_2" (instances m)
                 = Some (BrowserInstance.mk chrome true 0 0)) by reflexivity.
  assert (Hage : 70 - 60 ≤ maxAge) by (unfold maxAge; lia).
  split; [split_and!; assumption|].
  destruct (releaseBrowser_then_getBrowser_reuses e "browser_2" _ 60 70 m Hnd Hget Hage)
    as (found & m2 & H1 & H2 & _).
  exists found, m2. split; assumption.
Defined.

(** *** The size of the pool *)

Lemma getBrowser_size e now m :
  size m ≤ maxInstances m →
  size (getBrowser e now m).2 ≤ maxInstances m
  ∧ maxInstances (getBrowser e now m).2 = maxInstances m.
Proof.
  intros Hle. rewrite getBrowser_eq. cbv zeta.
  assert (H1 : size (after_cleanup now m) ≤ maxInstances m
               ∧ maxInstances (after_cleanup now m) = maxInstances m).
  { unfold after_cleanup. destruct (maxInstances m <=? size m); [|auto].
    destruct (cleanupOldInstances_size now m) as [Hs Hm]. split; [lia|auto]. }
  destruct H1 as [Hs1 Hm1]. set (m1 := after_cleanup now m) in *.
  destruct (reuse now (instances m1)) as [[found l]|] eqn:Hr.
  - destruct (reuse_Some _ _ _ _ Hr) as (Hlen & _).
    cbn [snd]. unfold size in *. cbn [instances with_instances maxInstances].
    rewrite Hlen. auto.
  - destruct (size m1 <? maxInstances m1) eqn:Hlt; [|auto].
    destruct (launched e) as [b|]; [|auto].
    apply Z.ltb_lt in Hlt. cbn [snd]. unfold size in *.
    cbn [instances with_instances maxInstances]. split; [|exact Hm1].
    rewrite (map_set_length_present _ _ _ _ (map_get_set _ _ _)).
    pose proof (map_set_length (browserId e) (BrowserInstance.mk b false now now)
                  (instances m1)). lia.
Qed.

Lemma releaseBrowser_size id now m :
  size (releaseBrowser id now m) = size m
  ∧ maxInstances (releaseBrowser id now m) = maxInstances m.
Proof.
  unfold releaseBrowser. destruct (map_get id (instances m)) as [i|] eqn:Hget; [|auto].
  unfold size. cbn [instances with_instances maxInstances].
  rewrite (map_set_length_present _ _ _ _ Hget). auto.
Qed.

Lemma createPage_size id e newPage now later m :
  size m ≤ maxInstances m →
  size (createPage id e newPage now later m).2 ≤ maxInstances m
  ∧ maxInstances (createPage id e newPage now later m).2 = maxInstances m.
Proof.
  intros Hle. unfold createPage.
  assert (Hfinish : ∀ c m2, size m2 ≤ maxInstances m ∧ maxInstances m2 = maxInstances m →
    size (match c with
          | Returned id0 =>
              match newPage with
              | None => (PageOf id0, m2)
              | Some message => (NoPage message, releaseBrowser id0 later m2)
              end
          | Threw message => (NoPage message, m2)
          | _ => (NoPage EmptyString, m2)
          end).2 ≤ maxInstances m
    ∧ maxInstances (match c with
          | Returned id0 =>
              match newPage with
              | None => (PageOf id0, m2)
              | Some message => (NoPage message, releaseBrowser id0 later m2)
              end
          | Threw message => (NoPage message, m2)
          | _ => (NoPage EmptyString, m2)
          end).2 = maxInstances m).
  { intros c m2 [Hs Hm]. destruct c; cbn [snd]; auto.
    destruct newPage; cbn [snd]; auto.
    destruct (releaseBrowser_size browserId0 later m2) as [-> ->]. auto. }
  assert (Hget : ∀ c m2, getBrowser e now m = (c, m2) →
            size m2 ≤ maxInstances m ∧ maxInstances m2 = maxInstances m).
  { intros c m2 Heq. pose proof (getBrowser_size e now m Hle) as H.
    rewrite Heq in H. exact H. }
  destruct id as [[|a id]|].
  - destruct (getBrowser e now m) as [c m2] eqn:Heq. apply Hfinish, (Hget c), eq_refl.
  - destruct (map_get (String a id) (instances m)) as [instance|] eqn:Hi.
    + refine (Hfinish (Returned (String a id))
                (with_instances
                   (map_set (String a id)
                      (BrowserInstance.mk (browser instance) (inUse instance)
                         (createdAt instance) now) (instances m)) m) _).
      unfold size. cbn [instances with_instances maxInstances].
      rewrite (map_set_length_present _ _ _ _ Hi). auto.
    + destruct (getBrowser e now m) as [c m2] eqn:Heq. apply Hfinish, (Hget c), eq_refl.
  - destruct (getBrowser e now m) as [c m2] eqn:Heq. apply Hfinish, (Hget c), eq_refl.
Qed.

Lemma scrapePage_size e run now later m :
  size m ≤ maxInstances m →
  size (scrapePage e run now later m).2 ≤ maxInstances m
  ∧ maxInstances (scrapePage e run now later m).2 = maxInstances m.
Proof.
  intros Hle. unfold scrapePage. destruct run as [|message|ok].
  - auto.
  - pose proof (createPage_size None e (Some message) now later m Hle) as H.
    destruct (createPage None e (Some message) now later m) as [h m2]. exact H.
  - pose proof (createPage_size None e None now later m Hle) as H.
    destruct (createPage None e None now later m) as [[id|msg] m2]; cbn [snd] in *; auto.
    destruct (releaseBrowser_size id later m2) as [-> ->]. exact H.
Qed.

Lemma closeAllBrowsers_size m :
  size (closeAllBrowsers m) = 0 ∧ maxInstances (closeAllBrowsers m) = maxInstances m.
Proof.
  unfold closeAllBrowsers. split; [reflexivity|]. cbn [maxInstances with_instances].
  generalize (map fst (instances m)). intros ids. revert m.
  induction ids as [|id ids IH]; intros m; simpl; [reflexivity|].
  rewrite IH. apply closeBrowser_maxInstances.
Qed.

Lemma apply_size now op m :
  size m ≤ maxInstances m →
  size (apply now op m) ≤ maxInstances m ∧ maxInstances (apply now op m) = maxInstances m.
Proof.
  intros Hle. destruct op; cbn [apply].
  - apply getBrowser_size, Hle.
  - destruct (releaseBrowser_size browserId0 now m) as [-> ->]. auto.
  - split; [|apply closeBrowser_maxInstances].
    pose proof (closeBrowser_size browserId0 m). lia.
  - unfold healthCheck, size in *. cbn [instances with_instances maxInstances].
    split; [|reflexivity].
    pose proof (length_filter (fun e => isConnected (browser e.2) = true) (instances m)). lia.
  - apply scrapePage_size, Hle.
  - apply createPage_size, Hle.
  - destruct (closeAllBrowsers_size m) as [-> ->]. split; [|reflexivity].
    unfold size in Hle. lia.
Qed.

(** X13.  The pool stays within its limit.  Whatever the pool is asked to do
    ([getBrowser], [releaseBrowser], [closeBrowser], [healthCheck],
    [createPage], [scrapePage], [closeAllBrowsers]), in any order and at any
    times, as long as each operation ends before the next one starts, it
    never holds more than [maxInstances] instances, and [maxInstances] does
    not change. *)
Theorem pool_stays_within_maxInstances (ops : list (Z * Op)) (m : BrowserManager.t) :
  size m ≤ maxInstances m →
  let m' := run_ops ops m in
  size m' ≤ maxInstances m'
  ∧ inUseCount m' ≤ maxInstances m'
  ∧ maxInstances m' = maxInstances m.
Proof.
  intros Hle m'.
  assert (H : size m' ≤ maxInstances m ∧ maxInstances m' = maxInstances m).
  { subst m'. unfold run_ops. revert m Hle.
    induction ops as [|[now op] ops IH]; intros m Hle; simpl; [auto|].
    destruct (apply_size now op m Hle) as [Hs Hm].
    rewrite <- Hm in Hs. destruct (IH _ Hs) as [IH1 IH2].
    split; [lia|congruence]. }
  destruct H as [Hs Hm]. rewrite Hm. split_and!; auto.
  pose proof (inUseCount_le_size m'). lia.
Qed.

Lemma pool_stays_within_maxInstances_witness :
  let chrome := mkBrowser false true in
  let m := BrowserManager.mk [] 1 in
  let ops :=
    [(0, Get (mkLaunch "browser_1" (Some chrome) ""));
     (1, Scrape (mkLaunch "browser_2" (Some chrome) "") (Worked true) 2);
     (3, Release "browser_1");
     (4, Get (mkLaunch "browser_3" (Some chrome) ""))] in
  size m ≤ maxInstances m
  ∧ size (run_ops ops m) ≤ maxInstances (run_ops ops m)
  ∧ keys (run_ops ops m) = ["browser_1"].
Proof.
  intros chrome m ops.
  assert (H : size m ≤ maxInstances m) by (apply Z.leb_le; reflexivity).
  split; [exact H|].
  split; [|reflexivity].
  exact (proj1 (pool_stays_within_maxInstances ops m H)).
Defined.

(** *** getStats *)

Lemma getStats_fold (l : list (string * BrowserInstance.t)) (stats : Stats) :
  let result :=
    fold_left
      (fun stats e =>
         if inUse (snd e)
         then mkStats (total stats) (stats_inUse stats + 1) (available stats)
                (stats_maxInstances stats)
         else mkStats (total stats) (stats_inUse stats) (available stats + 1)
                (stats_maxInstances stats))
      l stats in
  total result = total stats
  ∧ stats_inUse result
    = stats_inUse stats
      + Z.of_nat (length (filter (fun e => inUse (snd e) = true) l))
  ∧ stats_inUse result + available result
    = stats_inUse stats + available stats + Z.of_nat (length l)
  ∧ stats_maxInstances result = stats_maxInstances stats.
Proof.
  revert stats. induction l as [|e l IH]; intros stats; cbn zeta.
  - simpl. split_and!; auto; lia.
  - cbn [fold_left]. rewrite filter_cons.
    destruct (inUse e.2) eqn:He.
    + destruct (IH (mkStats (total stats) (stats_inUse stats + 1) (available stats)
                      (stats_maxInstances stats))) as (H1 & H2 & H3 & H4).
      cbn [total stats_inUse available stats_maxInstances] in *.
      destruct (decide (true = true)); [|congruence].
      cbn [length]. split_and!; [exact H1| |lia|exact H4].
      etrans; [exact H2|]. lia.
    + destruct (IH (mkStats (total stats) (stats_inUse stats) (available stats + 1)
                      (stats_maxInstances stats))) as (H1 & H2 & H3 & H4).
      cbn [total stats_inUse available stats_maxInstances] in *.
      destruct (decide (false = true)); [congruence|].
      cbn [length]. split_and!; [exact H1|exact H2| |exact H4].
      etrans; [exact H3|]. lia.
Qed.

(** X14.  The figures of [getStats] add up: [total] is the number of instances,
    [inUse] the number of those in use, and [inUse + available = total];
    at most [total] instances are in use. *)
Theorem getStats_adds_up (m : BrowserManager.t) :
  total (getStats m) = size m
  ∧ stats_inUse (getStats m) = inUseCount m
  ∧ stats_inUse (getStats m) + available (getStats m) = total (getStats m)
  ∧ 0 ≤ available (getStats m)
  ∧ stats_maxInstances (getStats m) = maxInstances m.
Proof.
  unfold getStats.
  destruct (getStats_fold (instances m) (mkStats (size m) 0 0 (maxInstances m)))
    as (H1 & H2 & H3 & H4).
  cbn [total stats_inUse available stats_maxInstances] in *.
  rewrite H1, H2, H4. unfold inUseCount, size in *.
  pose proof (length_filter (fun e => inUse e.2 = true) (instances m)).
  split_and!; auto; lia.
Qed.

End BrowserPoolFacts.

(** ** Adding and cancelling jobs *)

Module JobQueueFacts.
Import Database JobManager JobQueue CrawlRoutes JobStatusSpec.

Lemma addJob_Resolved payload_id jobType uuid s id s' :
  addJob payload_id jobType uuid s = (Resolved id, s') →
  id = jobId_of payload_id uuid
  ∧ jobs (db s) !! id = None
  ∧ ∃ queue, queues s !! getQueueName jobType = Some queue
     ∧ queues s' = <[getQueueName jobType := queue_add id queue]> (queues s)
     ∧ db s' = Database.mk (<[id := mkJob jobType pending (JS.of_Z 0) None 0 None]>
                              (jobs (db s))) (pages (db s)).
Proof.
  unfold addJob, insert_job.
  destruct (queues s !! getQueueName jobType) as [queue|] eqn:Hq; [|discriminate].
  destruct (jobs (db s) !! jobId_of payload_id uuid) eqn:Hrow; [discriminate|].
  intros [= <- <-]. split_and!; auto. exists queue. simpl. auto.
Qed.

Lemma queue_add_present jobId queue : is_Some (queue_add jobId queue !! jobId).
Proof.
  unfold queue_add. destruct (queue !! jobId) eqn:E.
  - rewrite E. eauto.
  - rewrite lookup_insert_eq. eauto.
Qed.

(** X15.  A job that [addJob] accepted can be looked up and cancelled: it is
    [pending] with progress 0 right after [addJob], and, as long as no
    worker holds it, [cancelJob] answers [true], takes it out of its queue
    and leaves it [cancelled]. *)
Theorem addJob_then_cancelJob payload_id jobType uuid s id s' :
  addJob payload_id jobType uuid s = (Resolved id, s') →
  (∀ queue job, queues s !! getQueueName jobType = Some queue →
                queue !! id = Some job → locked job = false) →
  getJobStatus id s' = Some (mkJob jobType pending (JS.of_Z 0) None 0 None)
  ∧ (∃ queue, queues s' !! getQueueName jobType = Some queue ∧ is_Some (queue !! id))
  ∧ ∃ s'', cancelJob id s' = (true, s'')
      ∧ status_of id (db s'') = Some cancelled
      ∧ (∃ queue, queues s'' !! getQueueName jobType = Some queue ∧ queue !! id = None).
Proof.
  intros Hadd Hfree.
  destruct (addJob_Resolved _ _ _ _ _ _ Hadd) as (_ & Hfresh & queue & Hq & Hqs & Hdb).
  assert (Hrow : getJobStatus id s' = Some (mkJob jobType pending (JS.of_Z 0) None 0 None)).
  { unfold getJobStatus. rewrite Hdb. simpl. apply lookup_insert_eq. }
  assert (Hq' : queues s' !! getQueueName jobType = Some (queue_add id queue)).
  { rewrite Hqs. apply lookup_insert_eq. }
  split; [exact Hrow|]. split; [exists (queue_add id queue); split; [exact Hq'|apply queue_add_present]|].
  unfold cancelJob. rewrite Hrow. cbn [status type]. rewrite Hq'.
  destruct (queue_add_present id queue) as [job Hjob]. rewrite Hjob.
  assert (Hl : locked job = false).
  { unfold queue_add in Hjob. destruct (queue !! id) as [job0|] eqn:E.
    - rewrite E in Hjob. injection Hjob as <-. exact (Hfree queue job0 Hq E).
    - rewrite lookup_insert_eq in Hjob. injection Hjob as <-. reflexivity. }
  rewrite Hl. eexists. split; [reflexivity|]. split.
  - unfold status_of, updateJobStatus, update_job. simpl.
    rewrite lookup_alter_eq. unfold getJobStatus in Hrow. rewrite Hrow. reflexivity.
  - exists (delete id (queue_add id queue)). simpl. split.
    + apply lookup_insert_eq.
    + apply lookup_delete_eq.
Qed.

Lemma addJob_then_cancelJob_witness :
  let s := JobManager.mk {[ "scrape-queue" := ∅ ]} (Database.mk ∅ []) in
  let s' :=
    JobManager.mk {[ "scrape-queue" := {[ "6f1c" := mkBullJob false ]} ]}
      (Database.mk {[ "6f1c" := mkJob scrape pending (JS.of_Z 0) None 0 None ]} []) in
  addJob "" scrape "6f1c" s = (Resolved "6f1c", s')
  ∧ ∃ s'', cancelJob "6f1c" s' = (true, s'')
      ∧ status_of "6f1c" (db s'') = Some cancelled.
Proof.
  intros s s'.
  assert (Hadd : addJob "" scrape "6f1c" s = (Resolved "6f1c", s')).
  { vm_compute. reflexivity. }
  split; [exact Hadd|].
  assert (Hfree : ∀ queue job, queues s !! getQueueName scrape = Some queue →
                    queue !! "6f1c" = Some job → locked job = false).
  { intros queue job Hq Hj. vm_compute in Hq. injection Hq as <-. discriminate. }
  destruct (addJob_then_cancelJob "" scrape "6f1c" s "6f1c" s' Hadd Hfree)
    as (_ & _ & s'' & Hc & Hst & _).
  exists s''. split; [exact Hc|exact Hst].
Defined.

(** X16.  [POST /crawl] never queues a job.  The route inserts the [jobs] row
    itself and then calls [addJob] with the same id, whose own [INSERT] is
    refused by the primary key: whatever the state, the answer is 500 and
    no queue has changed; if the id was new, its [pending] row stays behind
    and no queue holds the job. *)
Theorem post_crawl_always_fails (uuid uuid' : string) (s : JobManager.t) :
  uuid ≠ EmptyString →
  let '(response, s') := post_crawl uuid uuid' s in
  code response = 500
  ∧ queues s' = queues s
  ∧ (jobs (db s) !! uuid = None →
     jobs (db s') !! uuid = Some (mkJob crawl pending (JS.of_Z 0) None 0 None))
  ∧ (is_Some (jobs (db s) !! uuid) → s' = s).
Proof.
  intros Hne. unfold post_crawl, insert_job.
  destruct (jobs (db s) !! uuid) as [row|] eqn:Hrow.
  - simpl. split_and!; auto. discriminate.
  - unfold addJob. cbn [queues db].
    assert (Hid : jobId_of uuid uuid' = uuid) by (destruct uuid; [congruence|reflexivity]).
    rewrite Hid.
    destruct (queues s !! getQueueName crawl) as [queue|].
    + unfold insert_job. cbn [jobs]. rewrite lookup_insert_eq. simpl.
      split_and!; auto.
      * intros _. apply lookup_insert_eq.
      * intros [? [=]].
    + simpl. split_and!; auto.
      * intros _. apply lookup_insert_eq.
      * intros [? [=]].
Qed.

Lemma post_crawl_always_fails_witness :
  let s := JobManager.mk {[ "crawl-queue" := ∅ ]} (Database.mk ∅ []) in
  "6f1c" ≠ EmptyString
  ∧ code (post_crawl "6f1c" "77aa" s).1 = 500
  ∧ queues (post_crawl "6f1c" "77aa" s).2 = queues s.
Proof.
  intros s.
  assert (Hne : "6f1c" ≠ EmptyString) by discriminate.
  split; [exact Hne|].
  pose proof (post_crawl_always_fails "6f1c" "77aa" s Hne) as H.
  destruct (post_crawl "6f1c" "77aa" s) as [response s']. simpl.
  destruct H as (H1 & H2 & _). split; assumption.
Defined.


(** X18.  Cancelling through [DELETE /crawl/:jobId] does not stop the job.  The
    route only writes [cancelled] into the row; the job stays in its queue.
    When the worker takes it, the processor sets the row to [processing]
    again, every progress event does the same, and the end of the handler
    makes it [completed]: the cancellation is lost. *)
Theorem route_cancellation_is_overwritten
    (jobId : string) (s : JobManager.t) (row : JobRow) (progress : float) :
  jobs (db s) !! jobId = Some row →
  status row = pending ∨ status row = processing →
  let '(response, d) := delete_crawl jobId (db s) in
  let s1 := JobManager.mk (queues s) d in
  code response = 200
  ∧ status_of jobId (db s1) = Some cancelled
  ∧ status_of jobId (db (processor_begin jobId s1)) = Some processing
  ∧ status_of jobId (db (handleJobProgress jobId progress s1)) = Some processing
  ∧ status_of jobId (db (processor_end jobId true None (processor_begin jobId s1)))
    = Some completed.
Proof.
  intros Hrow Hst. unfold delete_crawl. rewrite Hrow.
  assert (Hupd : ∀ st pr err (s0 : JobManager.t),
            is_Some (jobs (db s0) !! jobId) →
            status_of jobId (db (updateJobStatus jobId st pr err s0)) = Some st
            ∧ is_Some (jobs (db (updateJobStatus jobId st pr err s0)) !! jobId)).
  { intros st pr err s0 [row0 Hr0]. unfold status_of, updateJobStatus, update_job. simpl.
    rewrite lookup_alter_eq, Hr0. simpl. eauto. }
  assert (Hgoal : ∀ d, is_Some (jobs d !! jobId) → status_of jobId d = Some cancelled →
            let s1 := JobManager.mk (queues s) d in
            (200 : Z) = 200
            ∧ status_of jobId (db s1) = Some cancelled
            ∧ status_of jobId (db (processor_begin jobId s1)) = Some processing
            ∧ status_of jobId (db (handleJobProgress jobId progress s1)) = Some processing
            ∧ status_of jobId (db (processor_end jobId true None (processor_begin jobId s1)))
              = Some completed).
  { intros d Hsome Hc s1. split; [reflexivity|]. split; [exact Hc|].
    unfold processor_begin, handleJobProgress, processor_end.
    destruct (Hupd processing (Some (JS.of_Z 0)) None s1 Hsome) as [H1 H1'].
    destruct (Hupd processing (Some progress) None s1 Hsome) as [H2 _].
    destruct (Hupd completed (Some (JS.of_Z 100)) None _ H1') as [H3 _].
    auto. }
  assert (Hd : is_Some (jobs (update_job jobId
                  (fun row0 => mkJob (type row0) cancelled (Database.progress row0)
                                 (current_url row0) (pages_crawled row0)
                                 (error_message row0)) (db s)) !! jobId)
               ∧ status_of jobId (update_job jobId
                  (fun row0 => mkJob (type row0) cancelled (Database.progress row0)
                                 (current_url row0) (pages_crawled row0)
                                 (error_message row0)) (db s)) = Some cancelled).
  { unfold status_of, update_job. simpl. rewrite lookup_alter_eq, Hrow. simpl. eauto. }
  destruct Hd as [Hd1 Hd2].
  destruct Hst as [-> | ->]; simpl; apply (Hgoal _ Hd1 Hd2).
Qed.

Lemma route_cancellation_is_overwritten_witness :
  let row := mkJob crawl pending (JS.of_Z 0) None 0 None in
  let s :=
    JobManager.mk {[ "crawl-queue" := {[ "job-1" := mkBullJob false ]} ]}
      (Database.mk {[ "job-1" := row ]} []) in
  (jobs (db s) !! "job-1" = Some row ∧ (status row = pending ∨ status row = processing))
  ∧ status_of "job-1"
      (db (processor_begin "job-1"
             (JobManager.mk (queues s) (delete_crawl "job-1" (db s)).2)))
    = Some processing.
Proof.
  intros row s.
  assert (Hrow : jobs (db s) !! "job-1" = Some row) by reflexivity.
  assert (Hst : status row = pending ∨ status row = processing) by (left; reflexivity).
  split; [split; assumption|].
  pose proof (route_cancellation_is_overwritten "job-1" s row (JS.of_Z 50) Hrow Hst) as H.
  destruct (delete_crawl "job-1" (db s)) as [response d]. simpl.
  destruct H as (_ & _ & H & _). exact H.
Defined.

End JobQueueFacts.

(** ** The crawl as a whole *)

Module CrawlingServiceMore.
Import CrawlingService CrawlingServiceSpec CrawlingServiceFacts CrawlSummarySpec.

(** *** The counters of the crawl *)

Lemma step_counters env l w :
  continues l = true →
  let l' := (step env l w).1 in
  (results l' = results l ∧ failedUrls l' = failedUrls l
   ∧ totalLinksDiscovered l' = totalLinksDiscovered l
   ∧ maxDepthReached l' = maxDepthReached l)
  ∨ ∃ pr,
      results l' = (results l ++ [pr])%list
      ∧ PageResult.pageNumber pr = processed l + 1
      ∧ maxDepthReached l' = Z.max (maxDepthReached l) (PageResult.depth pr)
      ∧ totalLinksDiscovered l' = totalLinksDiscovered l + PageResult.linksFound pr
      ∧ failedUrls l'
        = (failedUrls l ++ if PageResult.success pr then [] else [PageResult.url pr])%list
      ∧ (if PageResult.success pr
         then PageResult.error pr = None ∧ is_Some (PageResult.scrapeResult pr)
         else is_Some (PageResult.error pr) ∧ PageResult.scrapeResult pr = None
              ∧ PageResult.linksFound pr = 0).
Proof.
  unfold continues, step, iteration, begin_iteration.
  destruct (toCrawl l) as [|[url depth] rest] eqn:Hq; [discriminate|].
  intros _. simpl.
  destruct (bool_decide (url ∈ crawled l)); simpl; [left; auto|].
  destruct (JS.lt_Q (CrawlOptions.maxDepth (crawlOptions l)) (inject_Z depth)); simpl;
    [left; auto|].
  right. unfold finish_page, processed. simpl.
  destruct (attempt env (Z.of_nat (length (results l)) + 1) url) as [sr links|e]; simpl.
  - destruct (JS.lt_Q (inject_Z depth) (CrawlOptions.maxDepth (crawlOptions l))); simpl.
    + destruct (enqueue _ depth links rest) as [q new]. simpl.
      eexists. split; [reflexivity|]. simpl. rewrite app_nil_r. split_and!; eauto.
    + eexists. split; [reflexivity|]. simpl. rewrite app_nil_r. split_and!; eauto.
  - eexists. split; [reflexivity|]. simpl. split_and!; eauto. lia.
Qed.

Lemma deepest_nonneg rs : 0 ≤ deepest rs.
Proof. unfold deepest. induction rs; simpl; lia. Qed.

Lemma deepest_app rs r :
  deepest (rs ++ [r]) = Z.max (deepest rs) (PageResult.depth r).
Proof.
  pose proof (deepest_nonneg rs) as Hn. revert Hn.
  unfold deepest. induction rs as [|x rs IH]; simpl; intros Hn; [lia|].
  pose proof (deepest_nonneg rs) as Hn'. unfold deepest in Hn'.
  rewrite (IH Hn'). lia.
Qed.

Lemma links_total_app rs r :
  links_total (rs ++ [r]) = links_total rs + PageResult.linksFound r.
Proof. unfold links_total. induction rs as [|x rs IH]; simpl; lia. Qed.

Lemma failed_urls_app rs r :
  failed_urls (rs ++ [r])
  = (failed_urls rs ++ if PageResult.success r then [] else [PageResult.url r])%list.
Proof.
  unfold failed_urls. rewrite filter_app, map_app. f_equal.
  rewrite filter_cons, filter_nil.
  destruct (PageResult.success r); destruct (decide _); simpl; congruence.
Qed.

Lemma start_summary env jobId0 startUrl0 options w :
  summary (start env jobId0 startUrl0 options w).1 ∧
  breadth_first 0 (start env jobId0 startUrl0 options w).1.
Proof.
  unfold start, now.
  destruct (CrawlOptions.enableProgressTracking (CrawlOptions.defaults options));
    simpl; (split; [split; simpl; auto; try (intros i r Hi; destruct i; discriminate)|]);
    (split; simpl;
     [ apply SSorted_nil
     | apply Forall_nil_2
     | apply SSorted_cons; [apply SSorted_nil|apply Forall_nil_2]
     | apply Forall_cons; split; [simpl; lia|apply Forall_nil_2] ]).
Qed.

Lemma step_summary env l w :
  continues l = true → summary l → summary (step env l w).1.
Proof.
  intros Hgo [Hn Hf Hl Hd Ho].
  destruct (step_counters env l w Hgo)
    as [(Hr & Hf' & Hl' & Hd')|(pr & Hr & Hpn & Hd' & Hl' & Hf' & Hshape)].
  - split; rewrite ?Hr, ?Hf', ?Hl', ?Hd'; auto.
  - split; rewrite ?Hr, ?Hf', ?Hl', ?Hd'.
    + intros i r Hi. apply lookup_app_Some in Hi as [Hi|[Hlen Hi]]; [auto|].
      destruct (i - length (results l))%nat eqn:Hk; [|destruct n; discriminate].
      injection Hi as <-. rewrite Hpn. unfold processed. lia.
    + rewrite failed_urls_app, Hf. reflexivity.
    + rewrite links_total_app, Hl. reflexivity.
    + rewrite deepest_app, Hd. reflexivity.
    + apply Forall_app. split; [exact Ho|]. constructor; [exact Hshape|constructor].
Qed.

Lemma reachable_summary env cb l0 w0 l w :
  summary l0 → reachable env cb l0 w0 l w → summary l.
Proof.
  intros H0. revert l w. apply reachable_step_ind; [exact H0|].
  intros l w _ Hgo IH. apply step_summary; assumption.
Qed.

(** *** Breadth first *)

Lemma sorted_snoc (zs : list Z) (z : Z) :
  StronglySorted Z.le zs → Forall (fun x => x ≤ z) zs → StronglySorted Z.le (zs ++ [z]).
Proof.
  induction 1 as [|x zs Hs IH Hx]; intros Hall; simpl.
  - repeat constructor.
  - apply Forall_cons in Hall as [Hxz Hall]. constructor; [auto|].
    apply Forall_app. split; [exact Hx|]. repeat constructor. exact Hxz.
Qed.

Lemma sorted_app_const (zs : list Z) (z : Z) (n : nat) :
  StronglySorted Z.le zs → Forall (fun x => x ≤ z) zs →
  StronglySorted Z.le (zs ++ replicate n z).
Proof.
  intros Hs Hall. induction n as [|n IH]; simpl; [rewrite app_nil_r; exact Hs|].
  replace (zs ++ z :: replicate n z)%list with ((zs ++ replicate n z) ++ [z])%list.
  - apply sorted_snoc; [exact IH|]. apply Forall_app. split; [exact Hall|].
    apply Forall_forall. intros x Hx. apply elem_of_replicate in Hx as [-> _]. lia.
  - rewrite <- app_assoc. f_equal. clear. induction n; simpl; [reflexivity|].
    f_equal. exact IHn.
Qed.

Lemma step_breadth_first env l w d :
  continues l = true → breadth_first d l →
  ∃ d', d ≤ d' ∧ breadth_first d' (step env l w).1.
Proof.
  intros Hgo [Hr Hdone Hfr Hwin].
  destruct (step_locals env l w Hgo) as (url & depth & rest & Hq & Hsame & Heff).
  set (l' := (step env l w).1) in *.
  rewrite Hq in Hfr, Hwin. simpl in Hfr.
  apply StronglySorted_inv in Hfr as [Hfr Hhead].
  apply Forall_cons in Hwin as [Hdepth Hwin]. simpl in Hdepth.
  assert (Hrest : Forall (fun e => depth ≤ e.2 ≤ depth + 1) rest).
  { apply Forall_forall. intros e He.
    rewrite Forall_forall in Hwin. specialize (Hwin e He).
    rewrite Forall_forall in Hhead.
    assert (depth ≤ e.2); [|lia].
    apply Hhead. apply list_elem_of_In, in_map, list_elem_of_In, He. }
  assert (Hdone' : Forall (fun r => PageResult.depth r ≤ depth) (results l)).
  { eapply Forall_impl; [exact Hdone|]. simpl. intros; lia. }
  exists depth. split; [lia|].
  destruct Heff as [(_ & _ & Hres & Ht)|(_ & _ & _ & pr & Hres & _ & Hdp & _ & Ha)].
  - split; rewrite ?Hres, ?Ht; auto.
  - assert (Hfrontier : ∃ n, map snd (toCrawl l') = (map snd rest ++ replicate n (depth + 1))%list
                            ∧ Forall (fun e => depth ≤ e.2 ≤ depth + 1) (toCrawl l')).
    { assert (Hkeep : toCrawl l' = rest →
                ∃ n, map snd (toCrawl l') = (map snd rest ++ replicate n (depth + 1))%list
                     ∧ Forall (fun e => depth ≤ e.2 ≤ depth + 1) (toCrawl l')).
      { intros ->. exists 0%nat. simpl. rewrite app_nil_r. auto. }
      destruct (attempt env (processed l + 1) url) as [sr links|e].
      - destruct Ha as (_ & _ & Ht).
        destruct (JS.lt_Q (inject_Z depth) (maxDepth_of l)); [|auto].
        destruct (enqueue_spec ({[url]} ∪ crawled l) depth links rest)
          as (added & He & _).
        rewrite He in Ht. simpl in Ht. rewrite Ht. exists (length added). split.
        + rewrite map_app. f_equal. clear. induction added; simpl; [reflexivity|].
          f_equal. assumption.
        + apply Forall_app. split; [exact Hrest|]. apply Forall_forall.
          intros e Hin. apply list_elem_of_In, in_map_iff in Hin as (u & <- & _).
          simpl. lia.
      - destruct Ha as (_ & _ & Ht). auto. }
    destruct Hfrontier as (n & Hsnd & Hwin').
    split; rewrite ?Hres.
    + unfold depths. rewrite map_app. simpl. apply sorted_snoc; [exact Hr|].
      rewrite Hdp. apply Forall_forall. intros x Hx.
      apply list_elem_of_In, in_map_iff in Hx as (r & <- & Hin).
      rewrite Forall_forall in Hdone'. apply Hdone', list_elem_of_In, Hin.
    + apply Forall_app. split; [exact Hdone'|]. repeat constructor. lia.
    + rewrite Hsnd. apply sorted_app_const; [exact Hfr|].
      apply Forall_forall. intros x Hx.
      apply list_elem_of_In, in_map_iff in Hx as (e & <- & Hin).
      rewrite Forall_forall in Hrest. apply Hrest, list_elem_of_In, Hin.
    + exact Hwin'.
Qed.

Lemma reachable_breadth_first env cb l0 w0 l w d0 :
  breadth_first d0 l0 → reachable env cb l0 w0 l w → ∃ d, d0 ≤ d ∧ breadth_first d l.
Proof.
  intros H0. revert l w. apply reachable_step_ind; [exists d0; split; [lia|exact H0]|].
  intros l w _ Hgo (d & Hd & IH).
  destruct (step_breadth_first env l w d Hgo IH) as (d' & Hd' & H').
  exists d'. split; [lia|exact H'].
Qed.

(** X19.  The crawl is breadth first.  In every state of the loop the depths of
    the page results, in the order the pages were crawled, never decrease;
    the frontier is ordered by depth and spans at most two consecutive
    depths; and no queued URL is shallower than a page already crawled. *)
Theorem crawl_is_breadth_first
    (env : Env) (progressCallback : option ProgressCallback)
    (jobId0 startUrl0 : string) (options : CrawlOptions.Raw)
    (w0 : World) (l : Locals) (w : World) :
  let s := start env jobId0 startUrl0 options w0 in
  reachable env progressCallback s.1 s.2 l w →
  StronglySorted Z.le (depths (results l))
  ∧ StronglySorted Z.le (map snd (toCrawl l))
  ∧ (∀ r e, r ∈ results l → e ∈ toCrawl l → PageResult.depth r ≤ e.2)
  ∧ (∀ e e', e ∈ toCrawl l → e' ∈ toCrawl l → e'.2 ≤ e.2 + 1)
  ∧ (∀ e, e ∈ toCrawl l → 0 ≤ e.2).
Proof.
  intros s Hreach.
  destruct (start_summary env jobId0 startUrl0 options w0) as [_ Hb0].
  destruct (reachable_breadth_first _ _ _ _ _ _ _ Hb0 Hreach)
    as (d & Hd & [H1 H2 H3 H4]).
  rewrite Forall_forall in H2. rewrite Forall_forall in H4.
  split_and!; auto.
  - intros r e Hr He. specialize (H2 r Hr). specialize (H4 e He). simpl in *. lia.
  - intros e e' He He'. pose proof (H4 e He). pose proof (H4 e' He'). simpl in *. lia.
  - intros e He. specialize (H4 e He). simpl in *. lia.
Qed.

Lemma crawl_is_breadth_first_witness :
  let s := start demo_env "job-1" "https://example.com/" demo_options demo_world in
  let l := (step demo_env s.1 s.2).1 in
  let w := (step demo_env s.1 s.2).2 in
  reachable demo_env None s.1 s.2 l w
  ∧ StronglySorted Z.le (depths (results l))
  ∧ map snd (toCrawl l) = [1; 1].
Proof.
  intros s l w.
  assert (Hreach : reachable demo_env None s.1 s.2 l w).
  { eapply reach_iteration; [apply reach_here|vm_compute; reflexivity|].
    apply step_iteration. }
  split; [exact Hreach|].
  split; [|vm_compute; reflexivity].
  exact (proj1 (crawl_is_breadth_first demo_env None "job-1" "https://example.com/"
                  demo_options demo_world l w Hreach)).
Defined.

(** *** The crawl from entry to return *)

(** A crawl is rejected only by the legacy report, in a crawl without a
    tracker. *)
Lemma crawlMultiPage_rejected fuel env jobId0 startUrl0 options cb w0 e w' :
  crawlMultiPage fuel env jobId0 startUrl0 options cb w0 = Some (Rejected e, w') →
  let s := start env jobId0 startUrl0 options w0 in
  ∃ l1 w1 l2,
    reachable env cb s.1 s.2 l1 w1 ∧ continues l1 = true
    ∧ w' = abort env e l2 w1
    ∧ progressTracker l1 = None ∧ progressTracker l2 = None ∧ jobId l2 = jobId l1
    ∧ ∃ callback data, cb = Some callback ∧ callback data = Some e.
Proof.
  unfold crawlMultiPage. destruct (start env jobId0 startUrl0 options w0) as [l0 w1].
  cbn [fst snd].
  destruct (loop fuel env cb l0 w1) as [[l w|e' l w]|] eqn:Hloop; [| |discriminate].
  - destruct (finish env l w). discriminate.
  - intros [= <- <-].
    destruct (loop_abrupt _ _ _ _ _ _ _ _ Hloop) as (l1 & w2 & Hr & Hgo & Hit).
    destruct (iteration_abrupt _ _ _ _ _ _ _ Hit)
      as (P1 & P2 & Hj & -> & c & d & Hcb & Hcall & _).
    exists l1, w2, l. split_and!; eauto.
Qed.


Lemma finish_result env l w :
  let res := (finish env l w).1 in
  CrawlResult.results res = results l
  ∧ CrawlResult.totalPages res = Z.of_nat (length (results l))
  ∧ CrawlResult.successfulPages res
    = Z.of_nat (length (filter (fun r => PageResult.success r = true) (results l)))
  ∧ CrawlResult.failedPages res
    = Z.of_nat (length (filter (fun r => PageResult.success r = false) (results l)))
  ∧ CrawlResult.maxDepthReached res = maxDepthReached l
  ∧ CrawlResult.totalLinksDiscovered res = totalLinksDiscovered l
  ∧ CrawlResult.jobId res = jobId l ∧ CrawlResult.startUrl res = startUrl l
  ∧ CrawlResult.maxDepth res = maxDepth_of l.
Proof. unfold finish, now. simpl. split_and!; reflexivity. Qed.

Lemma filter_success_split (rs : list PageResult.t) :
  (length (filter (fun r => PageResult.success r = true) rs)
   + length (filter (fun r => PageResult.success r = false) rs))%nat = length rs.
Proof.
  induction rs as [|r rs IH]; [reflexivity|].
  rewrite !filter_cons. destruct (PageResult.success r);
    destruct (decide _); destruct (decide _); simpl; try congruence; lia.
Qed.

(** X20.  The figures of a crawl result agree with its page results: the total
    is their number and is the sum of the successful and the failed ones;
    the pages are numbered 1, 2, 3, ... in the order crawled;
    [totalLinksDiscovered] is the sum of their [linksFound] and
    [maxDepthReached] the largest of their depths (0 if there is none); a
    successful page carries a scrape result and no error, a failed one an
    error, no scrape result and no links. *)
Theorem crawl_result_adds_up
    (fuel : nat) (env : Env) (progressCallback : option ProgressCallback)
    (jobId0 startUrl0 : string) (options : CrawlOptions.Raw)
    (w0 : World) (res : CrawlResult.t) (w' : World) :
  crawlMultiPage fuel env jobId0 startUrl0 options progressCallback w0
  = Some (Resolved res, w') →
  let rs := CrawlResult.results res in
  CrawlResult.totalPages res = Z.of_nat (length rs)
  ∧ CrawlResult.successfulPages res + CrawlResult.failedPages res
    = CrawlResult.totalPages res
  ∧ CrawlResult.failedPages res = Z.of_nat (length (failed_urls rs))
  ∧ (∀ (i : nat) r, rs !! i = Some r → PageResult.pageNumber r = Z.of_nat i + 1)
  ∧ CrawlResult.totalLinksDiscovered res = links_total rs
  ∧ CrawlResult.maxDepthReached res = deepest rs
  ∧ Forall
      (fun r =>
         if PageResult.success r
         then PageResult.error r = None ∧ is_Some (PageResult.scrapeResult r)
         else is_Some (PageResult.error r) ∧ PageResult.scrapeResult r = None
              ∧ PageResult.linksFound r = 0)
      rs
  ∧ CrawlResult.jobId res = jobId0 ∧ CrawlResult.startUrl res = startUrl0.
Proof.
  intros Hrun rs.
  destruct (crawlMultiPage_inv _ _ _ _ _ _ _ _ _ Hrun)
    as (l & w & _ & Hreach & _ & Hfin).
  destruct (start_summary env jobId0 startUrl0 options w0) as [Hs0 _].
  destruct (reachable_summary _ _ _ _ _ _ Hs0 Hreach) as [Hn Hf Hl Hd Ho].
  destruct (start_reachable_invariant _ _ _ _ _ _ _ _ Hreach) as (_ & _ & Hj & Hu & _).
  pose proof (finish_result env l w) as Hres. rewrite Hfin in Hres. simpl in Hres.
  destruct Hres as (R1 & R2 & R3 & R4 & R5 & R6 & R7 & R8 & _).
  subst rs. rewrite R1, R2, R3, R4, R5, R6, R7, R8.
  pose proof (filter_success_split (results l)).
  split_and!; auto; try lia.
  unfold failed_urls. rewrite length_map. reflexivity.
Qed.

Lemma crawl_result_adds_up_witness :
  ∃ res w',
    crawlMultiPage 10 demo_env "job-1" "https://example.com/" demo_options None
      demo_world = Some (Resolved res, w')
    ∧ CrawlResult.successfulPages res + CrawlResult.failedPages res
      = CrawlResult.totalPages res
    ∧ CrawlResult.totalPages res = 3.
Proof.
  destruct (crawlMultiPage 10 demo_env "job-1" "https://example.com/" demo_options
              None demo_world) as [[[res|e] w']|] eqn:Hrun;
    [|vm_compute in Hrun; discriminate|vm_compute in Hrun; discriminate].
  exists res, w'. split; [reflexivity|].
  split.
  - exact (proj1 (proj2 (crawl_result_adds_up 10 demo_env None "job-1"
                           "https://example.com/" demo_options demo_world res w' Hrun))).
  - vm_compute in Hrun. injection Hrun as <- _. reflexivity.
Defined.

(** *** The shared state *)

Lemma finish_world env l w :
  let w' := (finish env l w).2 in
  db w'
  = Database.update_job (jobId l)
      (fun row =>
         Database.mkJob (Database.type row) Database.completed (JS.of_Z 100)
           (Database.current_url row) (Database.pages_crawled row)
           (Database.error_message row))
      (db w)
  ∧ match progressTracker l with
    | Some r =>
        activeTrackers w' = delete (jobId l) (activeTrackers w)
        ∧ heap w' !! r
          = (fun tr => ProgressTracker.cleanup
                         (ProgressTracker.markCompleted (clock env (S (ticks w))) tr))
              <$> heap w !! r
        ∧ ∀ r', r' ≠ r → heap w' !! r' = heap w !! r'
    | None => activeTrackers w' = activeTrackers w ∧ heap w' = heap w
    end.
Proof.
  unfold finish, finally, now. simpl. destruct (progressTracker l) as [r|]; simpl.
  - split; [reflexivity|]. split; [reflexivity|]. split.
    + rewrite !lookup_alter_eq. destruct (heap w !! r); reflexivity.
    + intros r' Hne. rewrite !lookup_alter_ne by congruence. reflexivity.
  - auto.
Qed.

(** What the [catch] around the crawl leaves when the crawl has no
    tracker. *)
Lemma abort_world env e l w :
  progressTracker l = None →
  let w' := abort env e l w in
  db w'
  = Database.update_job (jobId l)
      (fun row =>
         Database.mkJob (Database.type row) Database.failed (JS.of_Z 0)
           (Database.current_url row) (Database.pages_crawled row)
           (Some (crawlErrorMessage_of e)))
      (db w)
  ∧ activeTrackers w' = activeTrackers w ∧ heap w' = heap w.
Proof.
  intros Hpt. unfold abort, finally. rewrite Hpt. simpl. auto.
Qed.

Lemma crawl_final_row fuel env cb jobId0 startUrl0 options w0 row res w' :
  Database.jobs (db w0) !! jobId0 = Some row →
  crawlMultiPage fuel env jobId0 startUrl0 options cb w0 = Some (Resolved res, w') →
  ∃ row', Database.jobs (db w') !! jobId0 = Some row'
          ∧ Database.status row' = Database.completed
          ∧ Database.progress row' = JS.of_Z 100
          ∧ Database.type row' = Database.type row
          ∧ Database.error_message row' = Database.error_message row.
Proof.
  intros Hrow Hrun.
  destruct (crawlMultiPage_inv _ _ _ _ _ _ _ _ _ Hrun)
    as (l & w & _ & Hreach & _ & Hfin).
  destruct (start_reachable_invariant _ _ _ _ _ _ _ _ Hreach) as (_ & _ & Hj & _).
  destruct (start_shared env jobId0 startUrl0 options w0) as (_ & _ & Hstart & _).
  destruct (Hstart row Hrow) as (row1 & Hrow1 & Hty1 & Herr1).
  destruct (start_locals env jobId0 startUrl0 options w0) as (Hj0 & _).
  destruct (reachable_shared _ _ _ _ _ _ Hreach) as (_ & _ & Hkeep & _).
  rewrite Hj0 in Hkeep. destruct (Hkeep row1 Hrow1) as (row2 & Hr2 & Hty2 & _ & Herr2).
  destruct (finish_world env l w) as [Hdb _]. rewrite Hfin in Hdb. simpl in Hdb.
  rewrite Hdb, Hj. unfold Database.update_job. simpl.
  rewrite lookup_alter_eq, Hr2. simpl. eexists. split; [reflexivity|]. simpl.
  split_and!; congruence.
Qed.




Lemma markCompleted_settled now tr :
  let tr' := ProgressTracker.cleanup (ProgressTracker.markCompleted now tr) in
  ProgressTracker.stdoutUpdateTimer tr' = false
  ∧ CrawlProgress.status (ProgressTracker.progress tr') = CrawlProgress.completed
  ∧ CrawlProgress.pagesProcessed (ProgressTracker.progress tr')
    = CrawlProgress.pagesProcessed (ProgressTracker.progress tr).
Proof.
  unfold ProgressTracker.cleanup, ProgressTracker.markCompleted,
    ProgressTracker.stopStdoutUpdates, ProgressTracker.emitUpdate,
    ProgressTracker.outputToStdout.
  destruct (true && _); simpl; auto.
Qed.

(** X22.  The tracker of a crawl, in a crawl that runs without a
    [cancelCrawlJob] in between.  With progress tracking enabled the crawl
    makes one tracker and resolves.  In every state of the loop that
    tracker is the one registered under the job id, so a [cancelCrawlJob]
    arriving there finds it, answers [true] and unregisters it (the
    crawl would go on all the same).  Once [crawlMultiPage] has
    returned, the job id is unregistered, [cancelCrawlJob] answers [false]
    and changes nothing, and the tracker of the crawl has its stdout timer
    stopped and reads [completed] with as many pages processed as the
    result has.  The entries of other jobs are never touched.  With
    progress tracking disabled no tracker exists, and the registry and the
    trackers are as before, however the crawl ends. *)
Theorem crawl_tracker_lifecycle
    (fuel : nat) (env : Env) (progressCallback : option ProgressCallback)
    (jobId0 startUrl0 : string) (options : CrawlOptions.Raw)
    (w0 : World) (out : Outcome) (w' : World) :
  crawlMultiPage fuel env jobId0 startUrl0 options progressCallback w0
  = Some (out, w') →
  let s := start env jobId0 startUrl0 options w0 in
  (∀ j, j ≠ jobId0 → activeTrackers w' !! j = activeTrackers w0 !! j)
  ∧ if CrawlOptions.enableProgressTracking (CrawlOptions.defaults options)
    then
      ∃ r res,
        progressTracker s.1 = Some r ∧ out = Resolved res
        ∧ (∀ l w, reachable env progressCallback s.1 s.2 l w →
             progressTracker l = Some r ∧ activeTrackers w !! jobId0 = Some r
             ∧ ∀ env', (cancelCrawlJob env' jobId0 w).1 = true
                       ∧ activeTrackers (cancelCrawlJob env' jobId0 w).2 !! jobId0
                         = None)
        ∧ activeTrackers w' !! jobId0 = None
        ∧ (∀ env', cancelCrawlJob env' jobId0 w' = (false, w'))
        ∧ ∃ tr,
            heap w' !! r = Some tr
            ∧ ProgressTracker.stdoutUpdateTimer tr = false
            ∧ CrawlProgress.status (ProgressTracker.progress tr)
              = CrawlProgress.completed
            ∧ CrawlProgress.pagesProcessed (ProgressTracker.progress tr)
              = CrawlResult.totalPages res
    else progressTracker s.1 = None
         ∧ activeTrackers w' = activeTrackers w0 ∧ heap w' = heap w0.
Proof.
  intros Hrun s.
  pose proof (start_shared env jobId0 startUrl0 options w0) as (_ & _ & _ & Hstart).
  fold s in Hstart.
  destruct (start_locals env jobId0 startUrl0 options w0) as (Hj0 & _). fold s in Hj0.
  destruct out as [res|e].
  - destruct (crawlMultiPage_inv _ _ _ _ _ _ _ _ _ Hrun)
      as (l & w & _ & Hreach & _ & Hfin).
    fold s in Hreach.
    destruct (start_reachable_invariant _ _ _ _ _ _ _ _ Hreach) as (_ & Hworld & Hj & _).
    destruct (reachable_same_job _ _ _ _ _ _ Hreach) as (_ & _ & _ & Hpt).
    destruct (reachable_shared _ _ _ _ _ _ Hreach) as (_ & _ & _ & Hat & Hheap).
    destruct (finish_world env l w) as [_ Hfw]. rewrite Hfin in Hfw. simpl in Hfw.
    pose proof (finish_result env l w) as (_ & Htotal & _). rewrite Hfin in Htotal.
    simpl in Htotal.
    destruct (CrawlOptions.enableProgressTracking (CrawlOptions.defaults options)).
    + destruct Hstart as (r & Hr & Hreg).
      rewrite Hpt, Hr in Hfw. destruct Hfw as (Hat' & Hheap' & _).
      assert (Hnone : activeTrackers w' !! jobId0 = None).
      { rewrite Hat', Hj. apply lookup_delete_eq. }
      split.
      { intros j Hne. rewrite Hat', Hj, lookup_delete_ne by congruence.
        rewrite Hat, Hreg. apply lookup_insert_ne. congruence. }
      exists r, res. split_and!; auto.
      * intros l1 w1 Hreach1.
        destruct (reachable_same_job _ _ _ _ _ _ Hreach1) as (_ & _ & _ & Hpt1).
        destruct (reachable_shared _ _ _ _ _ _ Hreach1) as (_ & _ & _ & Hat1 & _).
        assert (Hreg1 : activeTrackers w1 !! jobId0 = Some r).
        { rewrite Hat1, Hreg. apply lookup_insert_eq. }
        split; [congruence|]. split; [exact Hreg1|].
        intros env'. unfold cancelCrawlJob. rewrite Hreg1. simpl.
        split; [reflexivity|]. apply lookup_delete_eq.
      * intros env'. unfold cancelCrawlJob. rewrite Hnone. reflexivity.
      * destruct Hworld as [_ Htr]. destruct (Htr r) as (tr & Hh & Hcount); [congruence|].
        exists (ProgressTracker.cleanup
                  (ProgressTracker.markCompleted (clock env (S (ticks w))) tr)).
        destruct (markCompleted_settled (clock env (S (ticks w))) tr) as (M1 & M2 & M3).
        split; [rewrite Hheap', Hh; reflexivity|].
        split; [exact M1|]. split; [exact M2|].
        rewrite M3, Hcount, Htotal. reflexivity.
    + destruct Hstart as (Hr & Hreg & Hh0).
      rewrite Hpt, Hr in Hfw. destruct Hfw as (Hat' & Hheap').
      split_and!; auto.
      * intros j _. rewrite Hat', Hat, Hreg. reflexivity.
      * rewrite Hat', Hat, Hreg. reflexivity.
      * rewrite Hheap', <- Hh0. apply map_eq. intros r0. apply Hheap.
        rewrite Hr. discriminate.
  - destruct (crawlMultiPage_rejected _ _ _ _ _ _ _ _ _ Hrun)
      as (l1 & w1 & l2 & Hreach & _ & -> & Hpt1 & Hpt2 & _).
    fold s in Hreach.
    destruct (reachable_same_job _ _ _ _ _ _ Hreach) as (_ & _ & _ & Hpt).
    destruct (reachable_shared _ _ _ _ _ _ Hreach) as (_ & _ & _ & Hat & Hheap).
    destruct (abort_world env e l2 w1 Hpt2) as (_ & Hat' & Hheap').
    destruct (CrawlOptions.enableProgressTracking (CrawlOptions.defaults options)).
    + destruct Hstart as (r & Hr & _). congruence.
    + destruct Hstart as (Hr & Hreg & Hh0).
      split_and!; auto.
      * intros j _. rewrite Hat', Hat, Hreg. reflexivity.
      * rewrite Hat', Hat, Hreg. reflexivity.
      * rewrite Hheap', <- Hh0. apply map_eq. intros r0. apply Hheap.
        rewrite Hr. discriminate.
Qed.

Lemma crawl_tracker_lifecycle_witness :
  ∃ res w',
    crawlMultiPage 10 demo_env "job-1" "https://example.com/" demo_options None
      demo_world = Some (Resolved res, w')
    ∧ activeTrackers w' !! "job-1" = None
    ∧ cancelCrawlJob demo_env "job-1" w' = (false, w').
Proof.
  destruct (crawlMultiPage 10 demo_env "job-1" "https://example.com/" demo_options
              None demo_world) as [[[res|e] w']|] eqn:Hrun;
    [|vm_compute in Hrun; discriminate|vm_compute in Hrun; discriminate].
  exists res, w'. split; [reflexivity|].
  pose proof (crawl_tracker_lifecycle 10 demo_env None "job-1" "https://example.com/"
                demo_options demo_world _ w' Hrun) as [_ H].
  change (CrawlOptions.enableProgressTracking (CrawlOptions.defaults demo_options))
    with true in H.
  destruct H as (r & res' & _ & _ & _ & Hnone & Hcancel & _).
  split; [exact Hnone|apply Hcancel].
Defined.

(** X23.  A crawl writes to its own job only.  The rows of all other jobs are
    exactly as before; the crawl creates no job row and deletes none (a
    crawl whose job id has no row leaves the [jobs] table and the [pages]
    table as they were); and for a job that has a row the [pages] table
    grows by one row per page result, each carrying the job id, behind the
    rows that were there. *)
Theorem crawl_touches_only_its_job
    (fuel : nat) (env : Env) (progressCallback : option ProgressCallback)
    (jobId0 startUrl0 : string) (options : CrawlOptions.Raw)
    (w0 : World) (res : CrawlResult.t) (w' : World) :
  crawlMultiPage fuel env jobId0 startUrl0 options progressCallback w0
  = Some (Resolved res, w') →
  (∀ j, j ≠ jobId0 → Database.jobs (db w') !! j = Database.jobs (db w0) !! j)
  ∧ (∀ j, is_Some (Database.jobs (db w') !! j) ↔ is_Some (Database.jobs (db w0) !! j))
  ∧ (Database.jobs (db w0) !! jobId0 = None →
     Database.jobs (db w') = Database.jobs (db w0)
     ∧ Database.pages (db w') = Database.pages (db w0))
  ∧ (is_Some (Database.jobs (db w0) !! jobId0) →
     Database.pages (db w')
     = (Database.pages (db w0) ++ map (page_row jobId0) (CrawlResult.results res))%list
     ∧ Forall (fun p => Database.job_id p = jobId0)
         (map (page_row jobId0) (CrawlResult.results res))).
Proof.
  intros Hrun.
  destruct (crawlMultiPage_inv _ _ _ _ _ _ _ _ _ Hrun)
    as (l & w & _ & Hreach & _ & Hfin).
  destruct (start_reachable_invariant _ _ _ _ _ _ _ _ Hreach) as (_ & _ & Hj & _).
  pose proof (reachable_pages _ _ _ _ _ _ _ _ Hreach) as Hp.
  destruct (reachable_shared _ _ _ _ _ _ Hreach) as (Hother & Hsome & _ & _).
  destruct (start_locals env jobId0 startUrl0 options w0) as (Hj0 & _).
  rewrite Hj0 in Hother.
  pose proof (start_shared env jobId0 startUrl0 options w0) as (Hother0 & Hsome0 & _ & _).
  destruct (finish_world env l w) as [Hdb _]. rewrite Hfin in Hdb. simpl in Hdb.
  pose proof (finish_pages env l w) as (Hpages & _ & Hres & _).
  rewrite Hfin in Hpages, Hres. simpl in Hpages, Hres.
  assert (Hjobs_other : ∀ j, j ≠ jobId0 →
            Database.jobs (db w') !! j = Database.jobs (db w0) !! j).
  { intros j Hne. rewrite Hdb. unfold Database.update_job. simpl.
    rewrite lookup_alter_ne by congruence. rewrite Hother by exact Hne.
    apply Hother0, Hne. }
  assert (Hjobs_some : ∀ j, is_Some (Database.jobs (db w') !! j)
                            ↔ is_Some (Database.jobs (db w0) !! j)).
  { intros j. rewrite <- Hsome0, <- Hsome, Hdb. unfold Database.update_job. simpl.
    apply alter_is_Some. }
  split_and!; auto.
  - intros Hnone. split.
    + apply map_eq. intros j. destruct (decide (j = jobId0)) as [->|Hne].
      * rewrite Hnone. apply eq_None_not_Some. rewrite Hjobs_some, Hnone.
        intros [? [=]].
      * apply Hjobs_other, Hne.
    + rewrite Hpages, Hp. unfold stored. rewrite Hnone. apply app_nil_r.
  - intros [row Hrow]. split.
    + rewrite Hpages, Hres, Hp. unfold stored. rewrite Hrow. reflexivity.
    + apply Forall_forall. intros p Hin.
      apply list_elem_of_In, in_map_iff in Hin as (r & <- & _). reflexivity.
Qed.

Lemma crawl_touches_only_its_job_witness :
  ∃ res w',
    crawlMultiPage 10 demo_env "job-1" "https://example.com/" demo_options None
      demo_world = Some (Resolved res, w')
    ∧ Database.jobs (db w') !! "job-2" = None
    ∧ length (Database.pages (db w')) = 3%nat.
Proof.
  destruct (crawlMultiPage 10 demo_env "job-1" "https://example.com/" demo_options
              None demo_world) as [[[res|e] w']|] eqn:Hrun;
    [|vm_compute in Hrun; discriminate|vm_compute in Hrun; discriminate].
  exists res, w'. split; [reflexivity|].
  pose proof (crawl_touches_only_its_job 10 demo_env None "job-1" "https://example.com/"
                demo_options demo_world res w' Hrun) as (Hother & _).
  split.
  - rewrite Hother by discriminate. reflexivity.
  - vm_compute in Hrun. injection Hrun as _ <-. reflexivity.
Defined.

(** X24.  Where the crawl starts and when it does nothing.  If the page budget
    is positive and [maxDepth] is not negative, the first page result is
    the start URL, at depth 0, numbered 1.  Otherwise no page is attempted:
    the result is empty (and the job is still set to [completed]). *)
Theorem crawl_starts_with_the_seed
    (fuel : nat) (env : Env) (progressCallback : option ProgressCallback)
    (jobId0 startUrl0 : string) (options : CrawlOptions.Raw)
    (w0 : World) (res : CrawlResult.t) (w' : World) :
  crawlMultiPage fuel env jobId0 startUrl0 options progressCallback w0
  = Some (Resolved res, w') →
  if JS.lt_Q 0 (CrawlOptions.maxPages (CrawlOptions.defaults options))
     && negb (JS.lt_Q (CrawlOptions.maxDepth (CrawlOptions.defaults options)) 0)
  then ∃ pr rest,
         CrawlResult.results res = pr :: rest
         ∧ PageResult.url pr = startUrl0 ∧ PageResult.depth pr = 0
         ∧ PageResult.pageNumber pr = 1
  else CrawlResult.results res = [] ∧ CrawlResult.totalPages res = 0.
Proof.
  intros Hrun.
  destruct (crawlMultiPage_inv _ _ _ _ _ _ _ _ _ Hrun)
    as (l & w & Hloop & _ & _ & Hfin).
  pose proof (finish_result env l w) as (Hres & Htotal & _). rewrite Hfin in Hres, Htotal.
  simpl in Hres, Htotal. rewrite Hres, Htotal. clear Hrun Hfin Hres Htotal.
  destruct (start_locals env jobId0 startUrl0 options w0)
    as (Hj & Hu & Ho & Hc & Hq & Hr).
  set (s := start env jobId0 startUrl0 options w0) in *.
  destruct (JS.lt_Q 0 (CrawlOptions.maxPages (CrawlOptions.defaults options)))
    eqn:Hpages.
  - assert (Hgo : continues s.1 = true).
    { unfold continues. rewrite Hq, Hr, Ho. exact Hpages. }
    destruct fuel as [|fuel]; [simpl in Hloop; rewrite Hgo in Hloop; discriminate|].
    destruct (iteration env progressCallback s.1 s.2) as [l1 w1|e l1 w1] eqn:Hit.
    2: { rewrite (loop_throw _ _ _ _ _ _ _ _ Hgo Hit) in Hloop. discriminate. }
    rewrite (loop_step _ _ _ _ _ _ _ Hgo Hit) in Hloop.
    destruct (loop_reachable _ _ _ _ _ _ _ Hloop) as [Hreach Hstop].
    destruct (reachable_results _ _ _ _ _ _ Hreach) as [more Hmore].
    destruct (JS.lt_Q (CrawlOptions.maxDepth (CrawlOptions.defaults options)) 0)
      eqn:Hdepth; simpl.
    + assert (Hdeep : (maxDepth_of s.1 < inject_Z 0)%Q).
      { unfold maxDepth_of. rewrite Ho. apply lt_Q_true. exact Hdepth. }
      destruct (too_deep_is_skipped env progressCallback s.1 s.2 startUrl0 0 [] Hq
                  (or_intror Hdeep)) as (l1' & Hit' & Hr1 & Hq1 & _).
      rewrite Hit in Hit'. injection Hit' as -> ->.
      assert (Hempty : continues l1' = false).
      { unfold continues. rewrite Hq1. reflexivity. }
      rewrite (loop_done _ _ _ _ _ Hempty) in Hloop. injection Hloop as <- _.
      rewrite Hr1, Hr. auto.
    + pose proof (iteration_normal _ _ _ _ _ _ Hit) as Hstep.
      destruct (step_locals env s.1 s.2 Hgo)
        as (url & depth & rest & Hq' & _ & Heff).
      rewrite Hstep in Heff. cbn [fst] in Heff.
      rewrite Hq in Hq'. injection Hq' as <- <- <-.
      destruct Heff as [([Hin|Hdeep] & _)|(_ & _ & _ & pr & Hr1 & Hu1 & Hd1 & Hn1 & _)].
      * rewrite Hc in Hin. exfalso. revert Hin. apply not_elem_of_empty.
      * unfold maxDepth_of in Hdeep. rewrite Ho in Hdeep. apply lt_Q_true in Hdeep.
        change (inject_Z 0) with 0%Q in Hdeep. congruence.
      * rewrite Hr in Hr1. simpl in Hr1. rewrite Hr1 in Hmore. simpl in Hmore.
        exists pr, more. unfold processed in Hn1. rewrite Hr in Hn1. simpl in Hn1.
        split_and!; auto.
  - simpl. assert (Hstop : continues s.1 = false).
    { unfold continues. rewrite Hq, Hr, Ho. exact Hpages. }
    rewrite (loop_done _ _ _ _ _ Hstop) in Hloop. injection Hloop as <- _.
    rewrite Hr. auto.
Qed.

Lemma crawl_starts_with_the_seed_witness :
  ∃ res w' pr rest,
    crawlMultiPage 10 demo_env "job-1" "https://example.com/" demo_options None
      demo_world = Some (Resolved res, w')
    ∧ CrawlResult.results res = pr :: rest
    ∧ PageResult.url pr = "https://example.com/".
Proof.
  destruct (crawlMultiPage 10 demo_env "job-1" "https://example.com/" demo_options
              None demo_world) as [[[res|e] w']|] eqn:Hrun;
    [|vm_compute in Hrun; discriminate|vm_compute in Hrun; discriminate].
  pose proof (crawl_starts_with_the_seed 10 demo_env None "job-1" "https://example.com/"
                demo_options demo_world res w' Hrun) as H.
  change (JS.lt_Q 0 (CrawlOptions.maxPages (CrawlOptions.defaults demo_options))
          && negb (JS.lt_Q (CrawlOptions.maxDepth (CrawlOptions.defaults demo_options)) 0))
    with true in H.
  destruct H as (pr & rest & H1 & H2 & _).
  exists res, w', pr, rest. split; [reflexivity|]. split; assumption.
Defined.

(** X25.  A limit of 0 is no limit of 0.  The defaults are applied with [||],
    which takes 0 for a missing value: a crawl asked for [maxDepth: 0] (the
    start page only) or [maxPages: 0] runs exactly as if the option had
    been left out, that is with depth 2 and 10 pages; the same holds for
    the delay and the stdout interval. *)
Theorem zero_limit_means_default
    (fuel : nat) (env : Env) (progressCallback : option ProgressCallback)
    (jobId0 startUrl0 : string) (w0 : World)
    (tracking stdout : option bool) (verbosity : option Verbosity) :
  let asked := CrawlOptions.mkRaw (Some 0%Q) (Some 0%Q) (Some 0) tracking stdout (Some 0)
                 verbosity in
  let unset := CrawlOptions.mkRaw None None None tracking stdout None verbosity in
  crawlMultiPage fuel env jobId0 startUrl0 asked progressCallback w0
  = crawlMultiPage fuel env jobId0 startUrl0 unset progressCallback w0
  ∧ CrawlOptions.maxDepth (CrawlOptions.defaults asked) = 2%Q
  ∧ CrawlOptions.maxPages (CrawlOptions.defaults asked) = 10%Q
  ∧ ∀ l w, reachable env progressCallback (start env jobId0 startUrl0 asked w0).1
             (start env jobId0 startUrl0 asked w0).2 l w →
           maxDepth_of l = 2%Q ∧ maxPages_of l = 10%Q.
Proof.
  intros asked unset. split; [reflexivity|]. split; [reflexivity|]. split; [reflexivity|].
  intros l w Hreach.
  destruct (start_reachable_invariant _ _ _ _ _ _ _ _ Hreach) as (_ & _ & _ & _ & Ho).
  unfold maxDepth_of, maxPages_of. rewrite Ho. split; reflexivity.
Qed.

(** X27.  The row [storePageResult] writes.  If the job has no row in
    [jobs] the [pages] table is as it was; otherwise one row is appended.
    For a failed page it has no title, no links and time 0; its status
    code is 0 and its error the message, unless the message is empty:
    [errorMessage ? 0 : 200] and [errorMessage || null] take the empty
    string for no error, and the row reads 200 with no error.  For a
    scraped page it has the page's status code (200 if that is 0), its
    title (none if empty), its links and its response time, and no error.
    The jobs, the registry and the trackers are never touched. *)
Theorem storePageResult_row
    (jobId0 url : string) (depth linksFound : Z) (message : string)
    (scrapeResult : ScrapeResult.t) (w : World) :
  let failed := storePageResult jobId0 url depth None 0 (Some message) w in
  let scraped := storePageResult jobId0 url depth (Some scrapeResult) linksFound None w in
  let appended (row : Database.PageRow) :=
    match Database.jobs (db w) !! jobId0 with
    | Some _ => (Database.pages (db w) ++ [row])%list
    | None => Database.pages (db w)
    end in
  Database.pages (db failed)
  = appended
      (if decide (message = "")
       then Database.mkPage jobId0 url None depth 200 0 0 None
       else Database.mkPage jobId0 url None depth 0 0 0 (Some message))
  ∧ Database.pages (db scraped)
    = appended
        (Database.mkPage jobId0 url
           (if decide (ScrapeResult.title scrapeResult = "") then None
            else Some (ScrapeResult.title scrapeResult))
           depth
           (if decide (ScrapeResult.statusCode scrapeResult = 0) then 200
            else ScrapeResult.statusCode scrapeResult)
           linksFound (ScrapeResult.responseTime scrapeResult) None)
  ∧ Database.jobs (db failed) = Database.jobs (db w)
  ∧ Database.jobs (db scraped) = Database.jobs (db w)
  ∧ activeTrackers failed = activeTrackers w ∧ heap failed = heap w
  ∧ activeTrackers scraped = activeTrackers w ∧ heap scraped = heap w.
Proof.
  intros failed scraped appended.
  destruct (storePageResult_world jobId0 url depth None 0 (Some message) w)
    as (F1 & F2 & F3 & _ & F4).
  destruct (storePageResult_world jobId0 url depth (Some scrapeResult) linksFound None w)
    as (S1 & S2 & S3 & _ & S4).
  fold failed in F1, F2, F3, F4. fold scraped in S1, S2, S3, S4.
  split_and!; auto.
  - rewrite F4. unfold appended.
    destruct (Database.jobs (db w) !! jobId0); [|apply app_nil_r].
    f_equal. destruct message; reflexivity.
  - rewrite S4. unfold appended.
    destruct (Database.jobs (db w) !! jobId0); [|apply app_nil_r].
    f_equal. f_equal. unfold truthy. simpl.
    destruct (ScrapeResult.title scrapeResult); simpl;
      destruct (ScrapeResult.statusCode scrapeResult) eqn:E; reflexivity.
Qed.
End CrawlingServiceMore.

(** ** The crawl seen through the routes *)

Module CrawlRoutesFacts.
Import Database CrawlingService CrawlingServiceSpec CrawlingServiceFacts.
Import CrawlSummarySpec CrawlingServiceMore CrawlRoutes ListFacts.

(** X26.  What [GET /crawl/:jobId] shows once the crawl has returned.  For a job
    with a row and no pages of an earlier run, the route answers 200 with
    status [completed], progress 100, [totalPages] equal to the result's
    [totalPages], and the list of pages: one row per page result, in the
    order crawled.  [successfulPages] counts the rows with status code 200. *)
Theorem get_crawl_after_the_crawl
    (fuel : nat) (env : Env) (progressCallback : option ProgressCallback)
    (jobId0 startUrl0 : string) (options : CrawlOptions.Raw)
    (w0 : World) (row : JobRow) (res : CrawlResult.t) (w' : World) :
  jobs (db w0) !! jobId0 = Some row →
  (∀ p, p ∈ pages (db w0) → job_id p ≠ jobId0) →
  crawlMultiPage fuel env jobId0 startUrl0 options progressCallback w0
  = Some (Resolved res, w') →
  let rows := map (page_row jobId0) (CrawlResult.results res) in
  get_crawl jobId0 (db w')
  = mkResponse 200
      (Some
         (mkJobView completed (JS.of_Z 100) (CrawlResult.totalPages res)
            (Z.of_nat (length (filter (fun p => status_code p = 200) rows)))
            (Some rows))).
Proof.
  intros Hrow Hfresh Hrun rows.
  destruct (crawl_final_row _ _ _ _ _ _ _ _ _ _ Hrow Hrun)
    as (row' & Hr' & Hst & Hpr & _).
  destruct (crawlMultiPage_inv _ _ _ _ _ _ _ _ _ Hrun)
    as (l & w & _ & Hreach & _ & Hfin).
  pose proof (reachable_pages _ _ _ _ _ _ _ _ Hreach) as Hp.
  unfold stored in Hp. rewrite Hrow in Hp.
  pose proof (finish_pages env l w) as (Hpages & _ & Hres & Htotal).
  rewrite Hfin in Hpages, Hres, Htotal. simpl in Hpages, Hres, Htotal.
  assert (Hrows : filter (fun p => job_id p = jobId0) (pages (db w')) = rows).
  { rewrite Hpages, Hp, filter_app. subst rows. rewrite Hres.
    rewrite (filter_none _ _ Hfresh). simpl. apply filter_all.
    intros p Hin. apply list_elem_of_In, in_map_iff in Hin as (r & <- & _). reflexivity. }
  unfold get_crawl. rewrite Hr', Hrows, Hst, Hpr. f_equal. f_equal. f_equal.
  subst rows. rewrite length_map, Htotal, Hres. reflexivity.
Qed.

Lemma get_crawl_after_the_crawl_witness :
  ∃ res w',
    crawlMultiPage 10 demo_env "job-1" "https://example.com/" demo_options None
      demo_world = Some (Resolved res, w')
    ∧ code (get_crawl "job-1" (db w')) = 200
    ∧ (totalPages <$> body (get_crawl "job-1" (db w'))) = Some 3.
Proof.
  destruct (crawlMultiPage 10 demo_env "job-1" "https://example.com/" demo_options
              None demo_world) as [[[res|e] w']|] eqn:Hrun;
    [|vm_compute in Hrun; discriminate|vm_compute in Hrun; discriminate].
  exists res, w'. split; [reflexivity|].
  assert (Hrow : jobs (db demo_world) !! "job-1"
                 = Some (mkJob crawl pending (JS.of_Z 0) None 0 None)) by reflexivity.
  assert (Hfresh : ∀ p, p ∈ pages (db demo_world) → job_id p ≠ "job-1").
  { intros p Hp. inversion Hp. }
  rewrite (get_crawl_after_the_crawl 10 demo_env None "job-1" "https://example.com/"
             demo_options demo_world _ res w' Hrow Hfresh Hrun).
  simpl. split; [reflexivity|].
  vm_compute in Hrun. injection Hrun as <- _. reflexivity.
Defined.

End CrawlRoutesFacts.
